(** * Reaper: filter engine, reap loop, saved state and action links

    A shallow embedding of the Go sources
      - package reaper     (LoadState, reap, applyFilters, the reapX functions)
      - aws/autoscaling.go (size predicates, AutoScalingGroup.Filter)
      - aws/http.go        (makeURL and the tokenized link constructors)
    Go panics are explicit results; log lines, statistics, events and
    registry writes are recorded in an effect trace. *)

From Stdlib Require Import ZArith String Ascii List Lia Bool.
From stdpp Require Import base option list strings gmap pretty.
Import ListNotations.
Local Open Scope string_scope.
Local Open Scope list_scope.

(** ** Data model *)

(** filters.Filter: a function name and its ordered string arguments. *)
Record Filter := NewFilter { Function : string; Arguments : list string }.

(** filters.FilterGroup is a Go map from filter name to Filter; the list
    order stands for whatever order the Go runtime iterates it in. *)
Definition FilterGroup := list (string * Filter).

(** Modelled from the spec: the state package is not part of the sources;
    section 3 names five lifecycle states, each with an until timestamp.
    [Updated] is the flag written by SetUpdated in the reapX functions. *)
Inductive StateEnum := IgnoreState | FirstState | SecondState | ThirdState | FinalState.

Record State := mkState { StateOf : StateEnum; Until : Z; Updated : bool }.

(** Modelled from the spec: the embedded aws.Resource struct is declared
    outside the sources; its fields are those of section 3 and of the
    composite literal in NewAutoScalingGroup. *)
Record Resource := mkResource {
  Region : string;
  ID : string;
  Name : string;
  Tags : gmap string string;
  Dependency : bool;
  IsInCloudformation : bool;
  reaperState : State;
  matchedFilterGroups : gmap string FilterGroup
}.

(** aws.AutoScalingGroup: the embedded Resource, the two fields of the
    embedded autoscaling.Group the filters read (both pointers, hence
    option), and the member instance ids. *)
Record AutoScalingGroup := mkASG {
  asgResource : Resource;
  DesiredCapacity : option Z;
  CreatedTime : option Z;
  Instances : list string
}.

(** The dynamic types behind the reaperevents.Reapable interface that the
    type switches of reaper.go distinguish; [OtherReapable] is any other
    implementation (the default branches). *)
Inductive Reapable :=
| Instance (r : Resource)
| AutoScalingGroupR (a : AutoScalingGroup)
| Cloudformation (r : Resource)
| SecurityGroup (r : Resource)
| Volume (r : Resource)
| OtherReapable (r : Resource).

Definition resourceOf (f : Reapable) : Resource :=
  match f with
  | Instance r | Cloudformation r | SecurityGroup r | Volume r | OtherReapable r => r
  | AutoScalingGroupR a => asgResource a
  end.

Definition mapResource (g : Resource -> Resource) (f : Reapable) : Reapable :=
  match f with
  | Instance r => Instance (g r)
  | AutoScalingGroupR a =>
      AutoScalingGroupR (mkASG (g (asgResource a)) (DesiredCapacity a) (CreatedTime a) (Instances a))
  | Cloudformation r => Cloudformation (g r)
  | SecurityGroup r => SecurityGroup (g r)
  | Volume r => Volume (g r)
  | OtherReapable r => OtherReapable (g r)
  end.

(** Modelled from the spec: Resource.Tagged / Resource.Tag are declared
    outside the sources; "tagged with the key, regardless of value". *)
Definition Tagged (r : Resource) (tag : string) : bool :=
  match Tags r !! tag with Some _ => true | None => false end.

Definition Tag (r : Resource) (tag : string) : string :=
  match Tags r !! tag with Some v => v | None => "" end.

(** Modelled from the spec: Resource.AddFilterGroup; matched groups are
    accumulated by name and never removed. *)
Definition AddFilterGroup (name : string) (group : FilterGroup) (r : Resource) : Resource :=
  mkResource (Region r) (ID r) (Name r) (Tags r) (Dependency r) (IsInCloudformation r)
             (reaperState r) (<[name := group]> (matchedFilterGroups r)).

Definition SetReaperState (s : State) (r : Resource) : Resource :=
  mkResource (Region r) (ID r) (Name r) (Tags r) (Dependency r) (IsInCloudformation r)
             s (matchedFilterGroups r).

Definition SetUpdated (b : bool) (r : Resource) : Resource :=
  SetReaperState (mkState (StateOf (reaperState r)) (Until (reaperState r)) b) r.

(** The resource without its audit trail of matched groups. *)
Definition stripGroups (r : Resource) : Resource :=
  mkResource (Region r) (ID r) (Name r) (Tags r) (Dependency r) (IsInCloudformation r)
             (reaperState r) ∅.

(** ** Effects: panics and the trace of observable actions *)

Inductive PanicValue :=
| IndexOutOfRange (index : nat) (len : nat)
| SliceBoundsOutOfRange (low : Z) (len : nat)
| NilMapAssignment.

Inductive outcome (A : Type) :=
| Done (a : A)
| Panicked (p : PanicValue).
Arguments Done {A} a.
Arguments Panicked {A} p.

Inductive LogLevel := LError | LWarning | LInfo | LDebug.

Inductive Effect :=
| LogEntry (level : LogLevel) (format : string) (args : list string)
| StatisticEvent (name : string) (value : Z) (tags : list string)
| BatchReapableEvent (rs : list Reapable) (tags : list string)
| ReapableEvent (r : Reapable) (tags : list string)
| RegistryPut (region id : string) (r : Reapable).

(** A computation: the effects performed so far and how it ended. *)
Definition M (A : Type) : Type := (list Effect * outcome A)%type.

Definition ret {A} (a : A) : M A := ([], Done a).

Definition bind {A B} (m : M A) (k : A -> M B) : M B :=
  match m with
  | (t, Done a) => let (t', r) := k a in (t ++ t', r)
  | (t, Panicked p) => (t, Panicked p)
  end.

Definition emit (e : Effect) : M unit := ([e], Done tt).
Definition panic {A} (p : PanicValue) : M A := ([], Panicked p).
Definition logf (level : LogLevel) (format : string) (args : list string) : M unit :=
  emit (LogEntry level format args).

Notation "'let*' x ':=' m 'in' k" := (bind m (fun x => k))
  (at level 10, x name, m at level 100, k at level 200).
Notation "'run' m 'then' k" := (bind m (fun _ => k))
  (at level 10, m at level 100, k at level 200).

Definition trace {A} (m : M A) : list Effect := fst m.
Definition result {A} (m : M A) : outcome A := snd m.

Definition panicText (p : PanicValue) : string :=
  match p with
  | IndexOutOfRange _ _ => "runtime error: index out of range"
  | SliceBoundsOutOfRange _ _ => "runtime error: slice bounds out of range"
  | NilMapAssignment => "assignment to entry in nil map"
  end.

(** ** Go library functions used by the sources *)

(** s[i] on a slice of strings. *)
Definition index (args : list string) (i : nat) : M string :=
  match nth_error args i with
  | Some s => ret s
  | None => panic (IndexOutOfRange i (List.length args))
  end.

Fixpoint dropString (n : nat) (s : string) : string :=
  match n, s with
  | O, _ => s
  | S n', String _ r => dropString n' r
  | S _, EmptyString => EmptyString
  end.

(** s[low:] on a string. *)
Definition sliceFrom (s : string) (low : Z) : M string :=
  if ((low <? 0)%Z || (Z.of_nat (String.length s) <? low)%Z)%bool
  then panic (SliceBoundsOutOfRange low (String.length s))
  else ret (dropString (Z.to_nat low) s).

(** strings.Contains *)
Fixpoint Contains (s substr : string) : bool :=
  if String.prefix substr s then true
  else match s with
       | EmptyString => false
       | String _ r => Contains r substr
       end.

(** strings.Split(s, ","): [cur] is the field being read. *)
Fixpoint splitComma (s cur : string) : list string :=
  match s with
  | EmptyString => [cur]
  | String c r =>
      if Ascii.eqb c ","%char then cur :: splitComma r EmptyString
      else splitComma r (cur +:+ String c EmptyString)
  end.

Definition Split (s : string) : list string := splitComma s EmptyString.

Definition digitValue (c : ascii) : option Z :=
  let n := nat_of_ascii c in
  if ((48 <=? n)%nat && (n <=? 57)%nat)%bool then Some (Z.of_nat (n - 48)) else None.

Fixpoint parseDigits (s : string) (acc : Z) : option Z :=
  match s with
  | EmptyString => Some acc
  | String c r =>
      match digitValue c with
      | Some d => parseDigits r (10 * acc + d)%Z
      | None => None
      end
  end.

(** strconv.ParseInt(s, 10, 64): optional sign, at least one decimal digit,
    value within int64; [None] is a non-nil error. *)
Definition ParseInt (s : string) : option Z :=
  let signed (neg : bool) (digits : string) :=
    match digits with
    | EmptyString => None
    | _ =>
        match parseDigits digits 0 with
        | Some v =>
            let v' := if neg then (- v)%Z else v in
            if ((- 2 ^ 63 <=? v')%Z && (v' <? 2 ^ 63)%Z)%bool then Some v' else None
        | None => None
        end
    end in
  match s with
  | String "+"%char r => signed false r
  | String "-"%char r => signed true r
  | _ => signed false s
  end.

(** strconv.ParseBool *)
Definition ParseBool (s : string) : option bool :=
  if existsb (String.eqb s) ["1"; "t"; "T"; "TRUE"; "true"; "True"] then Some true
  else if existsb (String.eqb s) ["0"; "f"; "F"; "FALSE"; "false"; "False"] then Some false
  else None.

(** Modelled from the spec: Filter.Int64Value / Filter.BoolValue of the
    filters package (not in the sources) read the v-th argument and parse
    it; a malformed argument is an error value, a missing one an
    out-of-range index. *)
Definition Int64Value (filter : Filter) (v : nat) : M (option Z) :=
  let* s := index (Arguments filter) v in ret (ParseInt s).

Definition BoolValue (filter : Filter) (v : nat) : M (option bool) :=
  let* s := index (Arguments filter) v in ret (ParseBool s).

(** ** Collaborators outside the sources *)

Inductive JobToken :=
| NewScheduleJob (region id scaleDown scaleUp : string)
| NewTerminateJob (region id : string)
| NewDelayJob (region id : string) (duration : Z)
| NewWhitelistJob (region id : string)
| NewStopJob (region id : string)
| NewForceStopJob (region id : string).

(** url.Values: key to list of values, in insertion order. *)
Definition Values := list (string * list string).

Fixpoint Values_Add (key value : string) (vals : Values) : Values :=
  match vals with
  | [] => [(key, [value])]
  | (k, vs) :: rest =>
      if String.eqb k key then (k, vs ++ [value]) :: rest
      else (k, vs) :: Values_Add key value rest
  end.

(** What the code calls but the sources do not define: Go's time and url
    packages, the state, token and events packages, and the Filter methods
    of the resource kinds other than AutoScalingGroup. *)
Class Collaborators := {
  ParseDuration : string -> option Z;
  DurationString : Z -> string;
  StateString : StateEnum -> string;
  IncrementState : Z -> State -> State * bool;
  NewStateWithTag : string -> State;
  ReapableDescription : Reapable -> string;
  InstanceFilter : Resource -> Filter -> M bool;
  CloudformationFilter : Resource -> Filter -> M bool;
  SecurityGroupFilter : Resource -> Filter -> M bool;
  VolumeFilter : Resource -> Filter -> M bool;
  OtherFilter : Resource -> Filter -> M bool;
  statisticError : string -> Z -> list string -> option string;
  batchEventError : list Reapable -> list string -> option string;
  eventError : Reapable -> list string -> option string;
  Tokenize : string -> JobToken -> string * option string;
  QueryEscape : string -> string;
  Values_Encode : Values -> string
}.

(** ** Configuration *)

(** Per-kind section of the configuration; FilterGroups is a Go map from
    group name to FilterGroup, listed in iteration order. *)
Record ResourceConfig := mkResourceConfig {
  Enabled : bool;
  FilterGroups : list (string * FilterGroup)
}.

(** The fields of reaper.Config that reaper.go reads. *)
Record Config := mkConfig {
  Regions : list string;
  cfgInstances : ResourceConfig;
  cfgAutoScalingGroups : ResourceConfig;
  cfgCloudformations : ResourceConfig;
  cfgSecurityGroups : ResourceConfig;
  cfgVolumes : ResourceConfig;
  WhitelistTag : string;
  EventTag : string
}.

(** config.HTTP of the aws package, as read by http.go. *)
Record HTTPConfig := mkHTTPConfig {
  HTTPAction : string;
  HTTPToken : string;
  APIURL : string;
  TokenSecret : string
}.

(** ** aws/autoscaling.go *)

Definition sizeGreaterThanOrEqualTo (a : AutoScalingGroup) (size : Z) : bool :=
  match DesiredCapacity a with
  | Some c => (size <=? c)%Z
  | None => false
  end.

Definition sizeLessThanOrEqualTo (a : AutoScalingGroup) (size : Z) : bool :=
  match DesiredCapacity a with
  | Some c => (c <=? size)%Z
  | None => false
  end.

Definition sizeEqualTo (a : AutoScalingGroup) (size : Z) : bool :=
  match DesiredCapacity a with
  | Some c => (c =? size)%Z
  | None => false
  end.

Definition sizeLessThan (a : AutoScalingGroup) (size : Z) : bool :=
  match DesiredCapacity a with
  | Some c => (c <? size)%Z
  | None => false
  end.

Definition sizeGreaterThan (a : AutoScalingGroup) (size : Z) : bool :=
  match DesiredCapacity a with
  | Some c => (size <? c)%Z
  | None => false
  end.

(** [err == nil && pred(i)] on the result of Int64Value / BoolValue. *)
Definition parsedAnd {A} (v : option A) (pred : A -> bool) : bool :=
  match v with
  | Some i => pred i
  | None => false
  end.

Section Engine.
Context `{Collaborators}.

(** AutoScalingGroup.Filter; [now] is the clock read by time.Since. *)
Definition AutoScalingGroup_Filter (now : Z) (a : AutoScalingGroup) (filter : Filter) : M bool :=
  let r := asgResource a in
  match Function filter with
  | "SizeGreaterThan" =>
      let* i := Int64Value filter 0 in ret (parsedAnd i (sizeGreaterThan a))
  | "SizeLessThan" =>
      let* i := Int64Value filter 0 in ret (parsedAnd i (sizeLessThan a))
  | "SizeEqualTo" =>
      let* i := Int64Value filter 0 in ret (parsedAnd i (sizeEqualTo a))
  | "SizeLessThanOrEqualTo" =>
      let* i := Int64Value filter 0 in ret (parsedAnd i (sizeLessThanOrEqualTo a))
  | "SizeGreaterThanOrEqualTo" =>
      let* i := Int64Value filter 0 in ret (parsedAnd i (sizeGreaterThanOrEqualTo a))
  | "CreatedTimeInTheLast" =>
      let* s := index (Arguments filter) 0 in
      ret (match ParseDuration s, CreatedTime a with
           | Some d, Some t => (now - t <? d)%Z
           | _, _ => false
           end)
  | "CreatedTimeNotInTheLast" =>
      let* s := index (Arguments filter) 0 in
      ret (match ParseDuration s, CreatedTime a with
           | Some d, Some t => (d <? now - t)%Z
           | _, _ => false
           end)
  | "InCloudformation" =>
      let* b := BoolValue filter 0 in ret (parsedAnd b (Bool.eqb (IsInCloudformation r)))
  | "Region" =>
      ret (existsb (String.eqb (Region r)) (Arguments filter))
  | "NotRegion" =>
      ret (negb (existsb (String.eqb (Region r)) (Arguments filter)))
  | "Tagged" =>
      let* k := index (Arguments filter) 0 in ret (Tagged r k)
  | "NotTagged" =>
      let* k := index (Arguments filter) 0 in ret (negb (Tagged r k))
  | "TagNotEqual" =>
      let* k := index (Arguments filter) 0 in
      let* v := index (Arguments filter) 1 in
      ret (negb (String.eqb (Tag r k) v))
  | "ReaperState" =>
      let* s := index (Arguments filter) 0 in
      ret (String.eqb (StateString (StateOf (reaperState r))) s)
  | "NotReaperState" =>
      let* s := index (Arguments filter) 0 in
      ret (negb (String.eqb (StateString (StateOf (reaperState r))) s))
  | "Named" =>
      let* s := index (Arguments filter) 0 in ret (String.eqb (Name r) s)
  | "NotNamed" =>
      let* s := index (Arguments filter) 0 in ret (negb (String.eqb (Name r) s))
  | "IsDependency" =>
      let* b := BoolValue filter 0 in ret (parsedAnd b (Bool.eqb (Dependency r)))
  | "NameContains" =>
      let* s := index (Arguments filter) 0 in ret (Contains (Name r) s)
  | "NotNameContains" =>
      let* s := index (Arguments filter) 0 in ret (negb (Contains (Name r) s))
  | _ =>
      run logf LError "No function %s could be found for filtering AutoScalingGroups."
                      [Function filter]
      then ret false
  end.

(** The Filter method of the reaperevents.Reapable interface: dynamic
    dispatch on the concrete kind. *)
Definition Reapable_Filter (now : Z) (f : Reapable) (filter : Filter) : M bool :=
  match f with
  | Instance r => InstanceFilter r filter
  | AutoScalingGroupR a => AutoScalingGroup_Filter now a filter
  | Cloudformation r => CloudformationFilter r filter
  | SecurityGroup r => SecurityGroupFilter r filter
  | Volume r => VolumeFilter r filter
  | OtherReapable r => OtherFilter r filter
  end.

(** Modelled from the spec: filters.ApplyFilters is not in the sources;
    "AND over all filters; a single filter failing short-circuits the
    group to non-match". *)
Fixpoint ApplyFilters (now : Z) (f : Reapable) (group : FilterGroup) : M bool :=
  match group with
  | [] => ret true
  | (_, filter) :: rest =>
      let* ok := Reapable_Filter now f filter in
      if ok then ApplyFilters now f rest else ret false
  end.

(** events.NewStatistic and the two event constructors: the call is
    recorded, the collaborator decides the returned error. *)
Definition NewStatistic (name : string) (value : Z) (tags : list string) : M (option string) :=
  run emit (StatisticEvent name value tags) then ret (statisticError name value tags).

Definition NewBatchReapableEvent (rs : list Reapable) (tags : list string) : M (option string) :=
  run emit (BatchReapableEvent rs tags) then ret (batchEventError rs tags).

Definition NewReapableEvent (r : Reapable) (tags : list string) : M (option string) :=
  run emit (ReapableEvent r tags) then ret (eventError r tags).

(** if err != nil { log.Error(err.Error()) } *)
Definition logIfError (err : option string) : M unit :=
  match err with
  | Some e => logf LError e []
  | None => ret tt
  end.

(** ** reaper.go: applyFilters *)

(** The type switch at the head of the loop body: the whitelist statistic
    name and the filter groups of the kind; [None] is the default branch. *)
Definition kindConfig (config : Config) (f : Reapable) : option (string * list (string * FilterGroup)) :=
  match f with
  | Instance _ => Some ("reaper.instances.whitelistedCount", FilterGroups (cfgInstances config))
  | AutoScalingGroupR _ => Some ("reaper.asgs.whitelistedCount", FilterGroups (cfgAutoScalingGroups config))
  | Cloudformation _ => Some ("reaper.cloudformations.whitelistedCount", FilterGroups (cfgCloudformations config))
  | SecurityGroup _ => Some ("reaper.securitygroups.whitelistedCount", FilterGroups (cfgSecurityGroups config))
  | Volume _ => Some ("reaper.volumes.whitelistedCount", FilterGroups (cfgVolumes config))
  | OtherReapable _ => None
  end.

(** for name, group := range groups { didMatch := ...; if didMatch {...} } *)
Fixpoint matchGroups (now : Z) (f : Reapable) (groups : list (string * FilterGroup))
    (matched : bool) : M (bool * Reapable) :=
  match groups with
  | [] => ret (matched, f)
  | (name, group) :: rest =>
      let* didMatch := ApplyFilters now f group in
      if didMatch
      then matchGroups now (mapResource (AddFilterGroup name group) f) rest true
      else matchGroups now f rest matched
  end.

(** The vacuous match: no groups, or only empty groups. *)
Definition noFilters (groups : list (string * FilterGroup)) : bool :=
  forallb (fun g => Nat.eqb (List.length (snd g)) 0) groups.

Definition incr (key : string) (m : gmap string nat) : gmap string nat :=
  <[key := S (default O (m !! key))]> m.

(** One iteration of the loop for a resource of a known kind: whether it
    is kept, the resource with its matched groups recorded, and whether
    the whitelist filter fired. *)
Definition filterOne (config : Config) (now : Z) (groups : list (string * FilterGroup))
    (f : Reapable) : M (bool * Reapable * bool) :=
  let matched := (Nat.eqb (List.length groups) 0 || noFilters groups)%bool in
  let* mf := matchGroups now f groups matched in
  let* whitelisted := Reapable_Filter now (snd mf) (NewFilter "Tagged" [WhitelistTag config]) in
  ret (if whitelisted then false else fst mf, snd mf, whitelisted).

Fixpoint emitWhitelisted (config : Config) (counts : list (string * nat)) : M unit :=
  match counts with
  | [] => ret tt
  | (stat, count) :: rest =>
      let* err := NewStatistic stat (Z.of_nat count) [EventTag config] in
      run logIfError err then emitWhitelisted config rest
  end.

(** The body of applyFilters, before the deferred recover. *)
Fixpoint applyFiltersLoop (config : Config) (now : Z) (filterables : list Reapable)
    (whitelistedCount : gmap string nat) (gs : list Reapable) : M (list Reapable) :=
  match filterables with
  | [] =>
      run emitWhitelisted config (map_to_list whitelistedCount) then ret gs
  | filterable :: rest =>
      match kindConfig config filterable with
      | None =>
          run logf LWarning "You probably screwed up and need to make sure applyFilters works!" []
          then ret []
      | Some (stat, groups) =>
          let* r := filterOne config now groups filterable in
          let '(matched, filterable', whitelisted) := r in
          applyFiltersLoop config now rest
            (if whitelisted then incr stat whitelistedCount else whitelistedCount)
            (if matched then gs ++ [filterable'] else gs)
      end
  end.

(** defer func() { if r := recover(); r != nil { log.Error(...) } }():
    the result is unnamed, so a recovered call returns the nil slice. *)
Definition recovered {A} (m : M (list A)) : M (list A) :=
  match m with
  | (t, Done gs) => (t, Done gs)
  | (t, Panicked p) =>
      (t ++ [LogEntry LError "Recovered in applyFilters with panic: " [panicText p]], Done [])
  end.

Definition applyFilters (config : Config) (now : Z) (filterables : list Reapable) : M (list Reapable) :=
  recovered (applyFiltersLoop config now filterables ∅ []).

(** ** reaper.go: reap *)

(** The state update shared by reapInstance, reapAutoScalingGroup,
    reapSecurityGroup, reapCloudformation and reapVolume. *)
Definition advance (now : Z) (r : Resource) : Resource :=
  if (Until (reaperState r) <? now)%Z
  then let (s, updated) := IncrementState now (reaperState r) in
       SetUpdated updated (SetReaperState s r)
  else r.

(** The resource as the later goroutines see it through the shared
    pointer, once its reapX function has run. *)
Definition reaped (now : Z) (f : Reapable) : Reapable :=
  match f with
  | OtherReapable _ => f
  | _ => mapResource (advance now) f
  end.

Definition reapKind (kind : string) (now : Z) (f : Reapable) : M unit :=
  let f' := reaped now f in
  run logf LInfo ("Reapable " +:+ kind +:+ " discovered: %s.") [ReapableDescription f']
  then emit (RegistryPut (Region (resourceOf f')) (ID (resourceOf f')) f').

(** The five per-region counters of filtered resources. *)
Record Sums := mkSums {
  filteredInstanceSums : gmap string nat;
  filteredASGSums : gmap string nat;
  filteredSecurityGroupSums : gmap string nat;
  filteredCloudformationSums : gmap string nat;
  filteredVolumeSums : gmap string nat
}.

Definition noSums : Sums := mkSums ∅ ∅ ∅ ∅ ∅.

(** for _, f := range filtered { switch t := f.(type) {...} } *)
Fixpoint reapLoop (now : Z) (filtered : list Reapable) (sums : Sums) : M Sums :=
  match filtered with
  | [] => ret sums
  | f :: rest =>
      let region := Region (resourceOf f) in
      match f with
      | Instance _ =>
          run reapKind "Instance" now f then
          reapLoop now rest
            (mkSums (incr region (filteredInstanceSums sums)) (filteredASGSums sums)
                    (filteredSecurityGroupSums sums) (filteredCloudformationSums sums)
                    (filteredVolumeSums sums))
      | AutoScalingGroupR _ =>
          run reapKind "AutoScalingGroup" now f then
          reapLoop now rest
            (mkSums (filteredInstanceSums sums) (incr region (filteredASGSums sums))
                    (filteredSecurityGroupSums sums) (filteredCloudformationSums sums)
                    (filteredVolumeSums sums))
      | SecurityGroup _ =>
          run reapKind "SecurityGroup" now f then
          reapLoop now rest
            (mkSums (filteredInstanceSums sums) (filteredASGSums sums)
                    (incr region (filteredSecurityGroupSums sums)) (filteredCloudformationSums sums)
                    (filteredVolumeSums sums))
      | Cloudformation _ =>
          run reapKind "Cloudformation" now f then
          reapLoop now rest
            (mkSums (filteredInstanceSums sums) (filteredASGSums sums)
                    (filteredSecurityGroupSums sums) (incr region (filteredCloudformationSums sums))
                    (filteredVolumeSums sums))
      | Volume _ =>
          run reapKind "Volume" now f then
          reapLoop now rest
            (mkSums (filteredInstanceSums sums) (filteredASGSums sums)
                    (filteredSecurityGroupSums sums) (filteredCloudformationSums sums)
                    (incr region (filteredVolumeSums sums)))
      | OtherReapable _ =>
          run logf LError "Reap default case." [] then reapLoop now rest sums
      end
  end.

(** filteredOwned[owner] = resources on a Go map kept in insertion order. *)
Fixpoint setBucket (owner : string) (resources : list Reapable)
    (m : list (string * list Reapable)) : list (string * list Reapable) :=
  match m with
  | [] => [(owner, resources)]
  | (o, rs) :: rest =>
      if String.eqb o owner then (o, resources) :: rest
      else (o, rs) :: setBucket owner resources rest
  end.

(** What the first loop of reap carries from owner to owner. *)
Record OwnedPass := mkOwnedPass {
  passUnowned : list Reapable;
  passFiltered : list Reapable;
  passFilteredOwned : list (string * list Reapable)
}.

(** for owner, ownerMap := range owned {...}; [owned] lists the map in
    the order the runtime iterates it. *)
Fixpoint filterOwned (config : Config) (now : Z) (owned : list (string * list Reapable))
    (acc : OwnedPass) : M OwnedPass :=
  match owned with
  | [] => ret acc
  | (owner, ownerMap) :: rest =>
      let* resources := applyFilters config now ownerMap in
      if Nat.eqb (List.length resources) 1
      then filterOwned config now rest
             (mkOwnedPass (passUnowned acc ++ resources) (passFiltered acc) (passFilteredOwned acc))
      else filterOwned config now rest
             (mkOwnedPass (passUnowned acc) (passFiltered acc ++ resources)
                          (setBucket owner resources (passFilteredOwned acc)))
  end.

(** The first loop of the dispatch goroutine; an empty bucket leaves the
    loop (break). *)
Fixpoint dispatchOwned (config : Config) (filteredOwned : list (string * list Reapable)) : M unit :=
  match filteredOwned with
  | [] => ret tt
  | (_, ownedReapables) :: rest =>
      if Nat.ltb (List.length ownedReapables) 1 then ret tt
      else
        let* err := NewBatchReapableEvent ownedReapables [EventTag config] in
        run logIfError err then dispatchOwned config rest
  end.

Fixpoint dispatchUnowned (config : Config) (filteredUnowned : list Reapable) : M unit :=
  match filteredUnowned with
  | [] => ret tt
  | r :: rest =>
      let* err := NewReapableEvent r [EventTag config] in
      run logIfError err then dispatchUnowned config rest
  end.

(** for region, sum := range sums { NewStatistic(name, sum, region tag) } *)
Fixpoint postSums (config : Config) (name : string) (sums : list (string * nat)) : M unit :=
  match sums with
  | [] => ret tt
  | (region, sum) :: rest =>
      let* err := NewStatistic name (Z.of_nat sum) ["region:" +:+ region; EventTag config] in
      run logIfError err then postSums config name rest
  end.

(** The statistics goroutine. *)
Definition postStatistics (config : Config) (sums : Sums) : M unit :=
  run postSums config "reaper.instances.filtered" (map_to_list (filteredInstanceSums sums)) then
  run postSums config "reaper.asgs.filtered" (map_to_list (filteredASGSums sums)) then
  run postSums config "reaper.cloudformations.filtered" (map_to_list (filteredCloudformationSums sums)) then
  postSums config "reaper.securitygroups.filtered" (map_to_list (filteredSecurityGroupSums sums)).

(** One reap tick, from the result of allReapables on: the lists the tick
    computes, what the loop itself does, and what each of its two
    goroutines does.  In [reap] the argument [now] is one reading of the
    wall clock for all the calls of the tick; [reapAt] further down reads
    the clock at every call and is [reap] at a clock that stands still. *)
Record ReapResult := mkReapResult {
  rrUnowned : list Reapable;
  rrFiltered : list Reapable;
  rrFilteredOwned : list (string * list Reapable);
  rrFilteredUnowned : list Reapable;
  rrSums : Sums;
  rrLoop : list Effect;
  rrDispatch : list Effect;
  rrStatistics : list Effect
}.

Definition reap (config : Config) (now : Z) (owned : list (string * list Reapable))
    (unowned : list Reapable) : outcome ReapResult :=
  let main :=
    let* pass := filterOwned config now owned (mkOwnedPass unowned [] []) in
    let* filteredUnowned := applyFilters config now (passUnowned pass) in
    let filtered := passFiltered pass ++ filteredUnowned in
    let* sums := reapLoop now filtered noSums in
    ret (pass, filteredUnowned, filtered, sums) in
  match main with
  | (t, Done (pass, filteredUnowned, filtered, sums)) =>
      let seen := map (fun b => (fst b, map (reaped now) (snd b))) (passFilteredOwned pass) in
      Done (mkReapResult (passUnowned pass) filtered (passFilteredOwned pass) filteredUnowned sums t
              (trace (run dispatchOwned config seen
                      then dispatchUnowned config (map (reaped now) filteredUnowned)))
              (trace (postStatistics config sums)))
  | (_, Panicked p) => Panicked p
  end.

(** ** reaper.go: LoadState and the restore step of discovery *)

(** savedstates maps region to id to state; a region without an entry
    reads as the nil inner map.  The initialisation loop:
    for _, region := range config.AWS.Regions { savedstates[region] = make(...) } *)
Definition initSavedStates (regions : list string) : gmap string (gmap string State) :=
  foldl (fun m region => <[region := ∅]> m) ∅ regions.

(** The scanner loop; [lines] are the successive scanner.Text() values. *)
Fixpoint loadLines (lines : list string) (savedstates : gmap string (gmap string State))
    : M (gmap string (gmap string State)) :=
  match lines with
  | [] => ret savedstates
  | text :: rest =>
      match Split text with
      | [region; id; tag] =>
          let savedState := NewStateWithTag tag in
          match savedstates !! region with
          | Some inner => loadLines rest (<[region := <[id := savedState]> inner]> savedstates)
          | None => panic NilMapAssignment
          end
      | _ =>
          run logf LError "Malformed saved state " [text] then loadLines rest savedstates
      end
  end.

(** LoadState; [file] is [None] when the state file cannot be opened, in
    which case the scanner yields no line. *)
Definition LoadState (config : Config) (stateFile : string) (file : option (list string))
    : M (gmap string (gmap string State)) :=
  let* savedstates := loadLines (default [] file) (initSavedStates (Regions config)) in
  run (match file with
       | None => logf LError "Unable to open StateFile " [stateFile]
       | Some _ => logf LInfo "States loaded from " [stateFile]
       end)
  then ret savedstates.

(** savedstate, ok := savedstates[r.Region][r.ID]; if ok { r.SetReaperState(savedstate) }:
    the first step of getInstances, getAutoScalingGroups, getCloudformations,
    getSecurityGroups and getVolumes on every discovered resource. *)
Definition restoreSavedState (savedstates : gmap string (gmap string State)) (r : Resource) : Resource :=
  match savedstates !! Region r with
  | Some inner =>
      match inner !! ID r with
      | Some savedstate => SetReaperState savedstate r
      | None => r
      end
  | None => r
  end.

(** ** aws/http.go *)

Definition makeURL (http : HTTPConfig) (host action token : string) : M string :=
  run (if String.eqb host "" then logf LError "makeURL: host is empty" [] else ret tt) then
  let action := QueryEscape action in
  let token := QueryEscape token in
  let vals := Values_Add (HTTPToken http) token (Values_Add (HTTPAction http) action []) in
  let* last := sliceFrom host (Z.of_nat (String.length host) - 1) in
  if String.eqb last "/"
  then ret (host +:+ "?" +:+ Values_Encode vals)
  else ret (host +:+ "/?" +:+ Values_Encode vals).

Definition makeScheduleLink (http : HTTPConfig) (region id tokenSecret apiURL
    scaleDownSchedule scaleUpSchedule : string) : M (string * option string) :=
  match Tokenize tokenSecret (NewScheduleJob region id scaleDownSchedule scaleUpSchedule) with
  | (_, Some err) => ret ("", Some err)
  | (sched, None) =>
      let* url := makeURL http apiURL "schedule" sched in ret (url, None)
  end.

Definition makeTerminateLink (http : HTTPConfig) (region id tokenSecret apiURL : string)
    : M (string * option string) :=
  match Tokenize tokenSecret (NewTerminateJob region id) with
  | (_, Some err) => ret ("", Some err)
  | (term, None) =>
      let* url := makeURL http apiURL "terminate" term in ret (url, None)
  end.

Definition makeIgnoreLink (http : HTTPConfig) (region id tokenSecret apiURL : string)
    (duration : Z) : M (string * option string) :=
  match Tokenize tokenSecret (NewDelayJob region id duration) with
  | (_, Some err) => ret ("", Some err)
  | (delay, None) =>
      let action := "delay_" +:+ DurationString duration in
      let* url := makeURL http apiURL action delay in ret (url, None)
  end.

Definition makeWhitelistLink (http : HTTPConfig) (region id tokenSecret apiURL : string)
    : M (string * option string) :=
  match Tokenize tokenSecret (NewWhitelistJob region id) with
  | (_, Some err) =>
      run logf LError "Error creating whitelist link: " [err] then ret ("", Some err)
  | (whitelist, None) =>
      let* url := makeURL http apiURL "whitelist" whitelist in ret (url, None)
  end.

Definition makeStopLink (http : HTTPConfig) (region id tokenSecret apiURL : string)
    : M (string * option string) :=
  match Tokenize tokenSecret (NewStopJob region id) with
  | (_, Some err) =>
      run logf LError "Error creating ScaleToZero link: " [err] then ret ("", Some err)
  | (stop, None) =>
      let* url := makeURL http apiURL "stop" stop in ret (url, None)
  end.

Definition makeForceStopLink (http : HTTPConfig) (region id tokenSecret apiURL : string)
    : M (string * option string) :=
  match Tokenize tokenSecret (NewForceStopJob region id) with
  | (_, Some err) =>
      run logf LError "Error creating ScaleToZero link: " [err] then ret ("", Some err)
  | (stop, None) =>
      let* url := makeURL http apiURL "stop" stop in ret (url, None)
  end.

End Engine.

(** ** A concrete world for the scenarios *)

(** Modelled from the spec: the Filter methods of Instance, Cloudformation,
    SecurityGroup and Volume are not in the sources.  This stand-in answers
    the tag and dependency predicates of section 4.4 the way the
    AutoScalingGroup method does and treats every other name as unknown
    (logged, non-matching). *)
Definition sharedFilter (kind : string) (r : Resource) (filter : Filter) : M bool :=
  match Function filter with
  | "Tagged" =>
      let* k := index (Arguments filter) 0 in ret (Tagged r k)
  | "NotTagged" =>
      let* k := index (Arguments filter) 0 in ret (negb (Tagged r k))
  | "IsDependency" =>
      let* b := BoolValue filter 0 in ret (parsedAnd b (Bool.eqb (Dependency r)))
  | _ =>
      run logf LError ("No function %s could be found for filtering " +:+ kind +:+ ".")
                      [Function filter]
      then ret false
  end.

(** Modelled from the spec: advanceIfDue of section 4.2, with one hour
    (in seconds) for each stage. *)
Definition hourlyIncrement (now : Z) (s : State) : State * bool :=
  match StateOf s with
  | IgnoreState => (mkState FirstState (now + 3600) false, true)
  | FirstState => (mkState SecondState (now + 3600) false, true)
  | SecondState => (mkState ThirdState (now + 3600) false, true)
  | ThirdState => (mkState FinalState now false, true)
  | FinalState => (s, false)
  end.

Definition stateName (s : StateEnum) : string :=
  match s with
  | IgnoreState => "ignore"
  | FirstState => "first"
  | SecondState => "second"
  | ThirdState => "third"
  | FinalState => "final"
  end.

(** Every collaborator succeeds; durations are not used by the scenarios. *)
Definition quietWorld : Collaborators := {|
  ParseDuration := fun _ => None;
  DurationString := fun _ => "";
  StateString := stateName;
  IncrementState := hourlyIncrement;
  NewStateWithTag := fun tag => mkState FirstState 0 false;
  ReapableDescription := fun f => ID (resourceOf f);
  InstanceFilter := sharedFilter "Instances";
  CloudformationFilter := sharedFilter "Cloudformations";
  SecurityGroupFilter := sharedFilter "SecurityGroups";
  VolumeFilter := sharedFilter "Volumes";
  OtherFilter := fun _ _ => ret false;
  statisticError := fun _ _ _ => None;
  batchEventError := fun _ _ => None;
  eventError := fun _ _ => None;
  Tokenize := fun _ _ => ("token", None);
  QueryEscape := fun s => s;
  Values_Encode := fun _ => ""
|}.

Definition freshState : State := mkState FirstState 100 false.

Definition plainResource (region id : string) : Resource :=
  mkResource region id id ∅ false false freshState ∅.

Definition noGroups : ResourceConfig := mkResourceConfig true [].

Definition openConfig : Config :=
  mkConfig ["us-east-1"] noGroups noGroups noGroups noGroups noGroups "REAPER_SPARE_ME" "env:test".

Definition asgDep : Reapable :=
  AutoScalingGroupR (mkASG (mkResource "us-east-1" "asg-1" "asg-1" ∅ true true freshState ∅)
                           (Some 1%Z) None ["i-123"]).

Definition sizeConfig : Config :=
  mkConfig ["us-east-1"] noGroups
    (mkResourceConfig true [("big", [("size", NewFilter "SizeGreaterThan" ["0"])])])
    noGroups noGroups noGroups "REAPER_SPARE_ME" "env:test".

(** ** Vocabulary of the statements *)

(** How makeURL ends on an empty host: the error line, then the panic of
    host[len(host)-1:]. *)
Definition emptyHostFault {A} : M A :=
  ([LogEntry LError "makeURL: host is empty" []], Panicked (SliceBoundsOutOfRange (-1) 0)).

(** Two values of the same resource that differ at most in the matched
    groups recorded on them. *)
Definition sameResource (a b : Reapable) : Prop :=
  mapResource stripGroups a = mapResource stripGroups b.

(** The resources an effect hands to the notification collaborator. *)
Definition eventResources (e : Effect) : list Reapable :=
  match e with
  | BatchReapableEvent rs _ => rs
  | ReapableEvent r _ => [r]
  | _ => []
  end.

Definition dispatched (t : list Effect) : list Reapable := flat_map eventResources t.

Definition statisticName (e : Effect) : option string :=
  match e with
  | StatisticEvent name _ _ => Some name
  | _ => None
  end.

Section Vocabulary.
Context `{Collaborators}.
Variables (config : Config) (now : Z).

(** [x] left one iteration of the applyFilters loop as a match. *)
Definition Kept (x : Reapable) : Prop :=
  exists f stat groups t w,
    kindConfig config f = Some (stat, groups) /\
    filterOne config now groups f = (t, Done (true, x, w)).

(** The loop body runs to its end on [f]: known kind, no panic. *)
Definition Evaluates (f : Reapable) : Prop :=
  exists stat groups t v,
    kindConfig config f = Some (stat, groups) /\
    filterOne config now groups f = (t, Done v).

End Vocabulary.

(** The Filter methods outside the sources answer "Tagged" by tag
    presence, as AutoScalingGroup.Filter does. *)
Definition AnswersTagged `{Collaborators} : Prop :=
  forall (r : Resource) (key : string),
    result (InstanceFilter r (NewFilter "Tagged" [key])) = Done (Tagged r key) /\
    result (CloudformationFilter r (NewFilter "Tagged" [key])) = Done (Tagged r key) /\
    result (SecurityGroupFilter r (NewFilter "Tagged" [key])) = Done (Tagged r key) /\
    result (VolumeFilter r (NewFilter "Tagged" [key])) = Done (Tagged r key).

(** The Filter methods outside the sources answer "IsDependency" by
    comparing the flag with the parsed argument, as AutoScalingGroup.Filter
    does. *)
Definition AnswersIsDependency `{Collaborators} : Prop :=
  forall (r : Resource) (arg : string) (rest : list string) (b : bool),
    ParseBool arg = Some b ->
    let filter := NewFilter "IsDependency" (arg :: rest) in
    result (InstanceFilter r filter) = Done (Bool.eqb (Dependency r) b) /\
    result (CloudformationFilter r filter) = Done (Bool.eqb (Dependency r) b) /\
    result (SecurityGroupFilter r filter) = Done (Bool.eqb (Dependency r) b) /\
    result (VolumeFilter r filter) = Done (Bool.eqb (Dependency r) b).

(** The Filter methods outside the sources do not read the matched groups
    recorded on the resource, as AutoScalingGroup.Filter does not. *)
Definition FiltersIgnoreGroups `{Collaborators} : Prop :=
  forall (r1 r2 : Resource) (filter : Filter),
    stripGroups r1 = stripGroups r2 ->
    InstanceFilter r1 filter = InstanceFilter r2 filter /\
    CloudformationFilter r1 filter = CloudformationFilter r2 filter /\
    SecurityGroupFilter r1 filter = SecurityGroupFilter r2 filter /\
    VolumeFilter r1 filter = VolumeFilter r2 filter /\
    OtherFilter r1 filter = OtherFilter r2 filter.

(** Every group of a kind's configuration demands IsDependency = false,
    and there is at least one group. *)
Definition requiresNonDependency (groups : list (string * FilterGroup)) : Prop :=
  groups <> [] /\
  forall g, g ∈ groups ->
    exists name arg rest,
      (name, NewFilter "IsDependency" (arg :: rest)) ∈ snd g /\ ParseBool arg = Some false.

(** ** Scenario data *)

Definition guardedConfig : Config :=
  mkConfig ["us-east-1"] noGroups
    (mkResourceConfig true
       [("live", [("dep", NewFilter "IsDependency" ["false"]);
                  ("size", NewFilter "SizeGreaterThan" ["0"])])])
    noGroups noGroups noGroups "REAPER_SPARE_ME" "env:test".

(** The AutoScalingGroup groups hold a Tagged filter without argument. *)
Definition brokenConfig : Config :=
  mkConfig ["us-east-1"] noGroups
    (mkResourceConfig true [("bad", [("tag", NewFilter "Tagged" [])])])
    noGroups noGroups noGroups "REAPER_SPARE_ME" "env:test".

Definition asgPlain (id : string) : Reapable :=
  AutoScalingGroupR (mkASG (plainResource "us-east-1" id) (Some 2%Z) None []).

Definition asgSpared : Reapable :=
  AutoScalingGroupR
    (mkASG (mkResource "us-east-1" "asg-spared" "asg-spared" {["REAPER_SPARE_ME" := "yes"]}
                       false false freshState ∅)
           (Some 2%Z) None []).

Definition stackA : Reapable := Cloudformation (plainResource "us-east-1" "stack-a").
Definition stackB : Reapable := Cloudformation (plainResource "us-east-1" "stack-b").
Definition volume1 : Reapable := Volume (plainResource "us-east-1" "vol-1").
Definition instance1 : Reapable := Instance (plainResource "us-east-1" "i-999").

Definition ids (l : list Reapable) : list string := map (fun f => ID (resourceOf f)) l.

Definition statisticNames (t : list Effect) : list string :=
  flat_map (fun e => match statisticName e with Some n => [n] | None => [] end) t.

(** The state file of the scenario of section 8, and the same file with a
    line for a region that is not configured. *)
Definition savedLine : string := "us-east-1,i-999,FIRST|1700000000|1700003600".
Definition foreignLine : string := "eu-west-1,i-1,FIRST|1700000000|1700003600".

Definition registryKeys (t : list Effect) : list (string * string) :=
  flat_map (fun e => match e with RegistryPut region id _ => [(region, id)] | _ => [] end) t.

(** ** Further vocabulary *)

(** The query string makeURL appends: the escaped action and token added
    to empty url.Values under the configured parameter names. *)
Definition encodedQuery `{Collaborators} (http : HTTPConfig) (action token : string) : string :=
  Values_Encode (Values_Add (HTTPToken http) (QueryEscape token)
                   (Values_Add (HTTPAction http) (QueryEscape action) [])).

(** The filter functions of AutoScalingGroup.Filter that read
    Arguments[0] before anything else. *)
Definition firstArgumentFunctions : list string :=
  ["SizeGreaterThan"; "SizeLessThan"; "SizeEqualTo"; "SizeLessThanOrEqualTo";
   "SizeGreaterThanOrEqualTo"; "CreatedTimeInTheLast"; "CreatedTimeNotInTheLast";
   "InCloudformation"; "Tagged"; "NotTagged"; "TagNotEqual"; "ReaperState";
   "NotReaperState"; "Named"; "NotNamed"; "IsDependency"; "NameContains";
   "NotNameContains"].

(** A world in which token.Tokenize always fails. *)
Definition brokenTokenWorld : Collaborators := {|
  ParseDuration := fun _ => None;
  DurationString := fun _ => "";
  StateString := stateName;
  IncrementState := hourlyIncrement;
  NewStateWithTag := fun tag => mkState FirstState 0 false;
  ReapableDescription := fun f => ID (resourceOf f);
  InstanceFilter := sharedFilter "Instances";
  CloudformationFilter := sharedFilter "Cloudformations";
  SecurityGroupFilter := sharedFilter "SecurityGroups";
  VolumeFilter := sharedFilter "Volumes";
  OtherFilter := fun _ _ => ret false;
  statisticError := fun _ _ _ => None;
  batchEventError := fun _ _ => None;
  eventError := fun _ _ => None;
  Tokenize := fun _ _ => ("", Some "bad secret");
  QueryEscape := fun s => s;
  Values_Encode := fun _ => ""
|}.

(** The twenty function names AutoScalingGroup.Filter has a case for. *)
Definition knownFunctions : list string :=
  "Region" :: "NotRegion" :: firstArgumentFunctions.

(** The default case of the switch: one error line, no match. *)
Definition unknownFunction (fn : string) : M bool :=
  ([LogEntry LError "No function %s could be found for filtering AutoScalingGroups." [fn]],
   Done false).

(** A world whose time.ParseDuration knows "1h" (in seconds). *)
Definition hourWorld : Collaborators := {|
  ParseDuration := fun s => if String.eqb s "1h" then Some 3600%Z else None;
  DurationString := fun _ => "";
  StateString := stateName;
  IncrementState := hourlyIncrement;
  NewStateWithTag := fun tag => mkState FirstState 0 false;
  ReapableDescription := fun f => ID (resourceOf f);
  InstanceFilter := sharedFilter "Instances";
  CloudformationFilter := sharedFilter "Cloudformations";
  SecurityGroupFilter := sharedFilter "SecurityGroups";
  VolumeFilter := sharedFilter "Volumes";
  OtherFilter := fun _ _ => ret false;
  statisticError := fun _ _ _ => None;
  batchEventError := fun _ _ => None;
  eventError := fun _ _ => None;
  Tokenize := fun _ _ => ("token", None);
  QueryEscape := fun s => s;
  Values_Encode := fun _ => ""
|}.

(** Follows the switch of AutoScalingGroup.Filter byte by byte through a
    function name: a name that leaves every case label falls to the
    default case at once, a name spelled out to its end is a label. *)
Ltac walk_function_name fn n :=
  lazymatch n with
  | O => idtac
  | S ?n' =>
      first
        [ solve [right; intros; reflexivity]
        | destruct fn as [|[[] [] [] [] [] [] [] []] fn];
          [ first [ solve [right; intros; reflexivity]
                  | left; unfold knownFunctions, firstArgumentFunctions;
                    repeat (first [apply list_elem_of_here | apply list_elem_of_further]) ]
          | .. ];
          try solve [right; intros; reflexivity];
          walk_function_name fn n' ]
  end.

(** The bucket lists a batch event is attempted for: those before the
    first empty bucket. *)
Fixpoint untilEmptyBucket (l : list (string * list Reapable)) : list (list Reapable) :=
  match l with
  | [] => []
  | (_, []) :: _ => []
  | (_, rs) :: rest => rs :: untilEmptyBucket rest
  end.

(** The batches and the individual resources handed over in a trace. *)
Definition batchesOf (t : list Effect) : list (list Reapable * list string) :=
  flat_map (fun e => match e with BatchReapableEvent rs tags => [(rs, tags)] | _ => [] end) t.

Definition individualsOf (t : list Effect) : list (Reapable * list string) :=
  flat_map (fun e => match e with ReapableEvent r tags => [(r, tags)] | _ => [] end) t.

Definition isInstance (f : Reapable) : bool :=
  match f with Instance _ => true | _ => false end.
Definition isAutoScalingGroup (f : Reapable) : bool :=
  match f with AutoScalingGroupR _ => true | _ => false end.
Definition isCloudformation (f : Reapable) : bool :=
  match f with Cloudformation _ => true | _ => false end.
Definition isSecurityGroup (f : Reapable) : bool :=
  match f with SecurityGroup _ => true | _ => false end.
Definition isVolume (f : Reapable) : bool :=
  match f with Volume _ => true | _ => false end.

(** How many resources of a kind a list holds in a region. *)
Definition countKind (isKind : Reapable -> bool) (region : string) (l : list Reapable) : nat :=
  List.length (List.filter (fun f => isKind f && String.eqb (Region (resourceOf f)) region) l).

(** The statistics posted under a name in a trace: value and tags. *)
Definition postedUnder (name : string) (t : list Effect) : list (Z * list string) :=
  flat_map (fun e => match e with
                     | StatisticEvent n v tags => if String.eqb n name then [(v, tags)] else []
                     | _ => []
                     end) t.

(** A counter map read at a region (a missing key counts as zero), and the
    invariant that the map holds no zero entry. *)
Definition counted (m : gmap string nat) (region : string) : nat := default O (m !! region).

Definition positive (m : gmap string nat) : Prop := forall r n, m !! r = Some n -> 0 < n.

(** A line of the state file read as region, id and serialized state;
    [None] for a line that does not have exactly three fields. *)
Definition parsedLine (text : string) : option (string * string * string) :=
  match Split text with
  | [region; id; tag] => Some (region, id, tag)
  | _ => None
  end.

(** The serialized state of the last line of the file that is about the
    given region and id. *)
Fixpoint lastTag (lines : list string) (region id : string) : option string :=
  match lines with
  | [] => None
  | text :: rest =>
      match lastTag rest region id with
      | Some tag => Some tag
      | None =>
          match parsedLine text with
          | Some (r, i, tag) =>
              if (String.eqb r region && String.eqb i id)%bool then Some tag else None
          | None => None
          end
      end
  end.

(** The error lines LoadState writes for the malformed lines of a file. *)
Definition malformedLogs (lines : list string) : list Effect :=
  flat_map (fun text => match parsedLine text with
                        | Some _ => []
                        | None => [LogEntry LError "Malformed saved state " [text]]
                        end) lines.

Definition savedAt (savedstates : gmap string (gmap string State)) (region id : string)
    : option State :=
  match savedstates !! region with
  | Some inner => inner !! id
  | None => None
  end.

(** ** reaper.go: SaveState *)

(** More of the state package and of the aws package that the sources
    call but do not define: State.String, state.NewState and the reaperTag
    constant. *)
Class StatePackage := {
  StateTag : State -> string;
  NewState : State;
  reaperTag : string
}.

Definition newline : ascii := ascii_of_nat 10.
Definition carriageReturn : ascii := ascii_of_nat 13.

(** fmt.Sprintf("%s,%s,%s", r.Region, r.ID, r.ReaperState().String()) *)
Definition stateLine `{StatePackage} (r : Reapable) : string :=
  Region (resourceOf r) +:+ "," +:+ ID (resourceOf r) +:+ ","
  +:+ StateTag (reaperState (resourceOf r)).

(** The writes of the loop over reapables.Iter(): [writeError] is what
    s.Write returns for a line (a failed write is taken to write nothing);
    the result is the content of the file. *)
Fixpoint saveLines `{StatePackage} (stateFile : string) (writeError : string -> option string)
    (entries : list Reapable) : M string :=
  match entries with
  | [] => ret ""
  | r :: rest =>
      let line := stateLine r +:+ String newline "" in
      let* written :=
        match writeError line with
        | Some _ => run logf LError "Error writing to" [stateFile] then ret ""
        | None => ret line
        end in
      let* more := saveLines stateFile writeError rest in
      ret (written +:+ more)
  end.

(** SaveState: [opened] tells whether os.OpenFile succeeded, [entries] is
    the registry in the order reapables.Iter() yields it.  The result is
    the new content of the state file, [None] when it was not opened. *)
Definition SaveState `{StatePackage} (stateFile : string) (opened : bool)
    (writeError : string -> option string) (entries : list Reapable) : M (option string) :=
  if opened then
    let* content := saveLines stateFile writeError entries in
    run logf LInfo "States saved to %s" [stateFile] then
    ret (Some content)
  else
    run logf LError "Unable to create StateFile " [stateFile] then ret None.

(** bufio.ScanLines' dropCR: a trailing carriage return is not part of
    the line. *)
Fixpoint dropCR (s : string) : string :=
  match s with
  | EmptyString => EmptyString
  | String c EmptyString => if Ascii.eqb c carriageReturn then EmptyString else s
  | String c r => String c (dropCR r)
  end.

(** The successive scanner.Text() values of bufio.NewScanner over a file
    content (lines within the scanner's buffer size): tokens end at a
    newline, a last line without newline is a token unless it is empty.
    [cur] is the line being read. *)
Fixpoint scanLines (content cur : string) : list string :=
  match content with
  | EmptyString => match cur with EmptyString => [] | _ => [dropCR cur] end
  | String c rest =>
      if Ascii.eqb c newline then dropCR cur :: scanLines rest EmptyString
      else scanLines rest (cur +:+ String c EmptyString)
  end.

Fixpoint hasByte (c : ascii) (s : string) : bool :=
  match s with
  | EmptyString => false
  | String x r => (Ascii.eqb x c || hasByte c r)%bool
  end.

(** A field that survives the state file: no comma, no line break. *)
Definition plainField (s : string) : Prop :=
  hasByte ","%char s = false /\ hasByte newline s = false /\ hasByte carriageReturn s = false.

Definition registryKey (r : Reapable) : string * string :=
  (Region (resourceOf r), ID (resourceOf r)).

(** A registry entry whose line can be read back. *)
Definition savable `{StatePackage} (r : Reapable) : Prop :=
  plainField (Region (resourceOf r)) /\ plainField (ID (resourceOf r)) /\
  plainField (StateTag (reaperState (resourceOf r))).

(** ** reaper.go: getAutoScalingGroups *)

(** What one discovery pipeline produces: the resources sent on the
    channel, the log lines of the producer and the statistics posted by
    its detached goroutine. *)
Record Discovery (A : Type) := mkDiscovery {
  found : list A;
  discoveryLog : list Effect;
  discoveryStatistics : list Effect
}.
Arguments mkDiscovery {A} _ _ _.
Arguments found {A} _.
Arguments discoveryLog {A} _.
Arguments discoveryStatistics {A} _.

Definition restoreASG (savedstates : gmap string (gmap string State)) (a : AutoScalingGroup)
    : AutoScalingGroup :=
  mkASG (restoreSavedState savedstates (asgResource a)) (DesiredCapacity a) (CreatedTime a)
        (Instances a).

(** The counters of the drain loop: groups per region, and per region the
    number of groups of each desired capacity (the inner map is made on
    the first group of a region, a group without capacity adds nothing to
    it). *)
Definition countASG (a : AutoScalingGroup)
    (sums : gmap string nat * gmap string (gmap Z nat)) : gmap string nat * gmap string (gmap Z nat) :=
  let region := Region (asgResource a) in
  let sizes := default ∅ (snd sums !! region) in
  let sizes' := match DesiredCapacity a with
                | Some c => <[c := S (default O (sizes !! c))]> sizes
                | None => sizes
                end in
  (incr region (fst sums), <[region := sizes']> (snd sums)).

Definition countASGs (asgs : list AutoScalingGroup)
    : gmap string nat * gmap string (gmap Z nat) :=
  foldl (fun sums a => countASG a sums) (∅, ∅) asgs.

Section DiscoveryModel.
Context `{Collaborators}.

(** for asgSize, asgSizeSum := range regionMap { NewStatistic("reaper.asgs.asgsizes", ...) } *)
Fixpoint postSizes (config : Config) (region : string) (sizes : list (Z * nat)) : M unit :=
  match sizes with
  | [] => ret tt
  | (asgSize, asgSizeSum) :: rest =>
      let* err := NewStatistic "reaper.asgs.asgsizes" (Z.of_nat asgSizeSum)
                    ["region:" +:+ region +:+ ",asgsize:" +:+ pretty asgSize; EventTag config] in
      run logIfError err then postSizes config region rest
  end.

(** The statistics goroutine: for every region of asgSizeSums, the size
    statistics of the region and then, inside the same loop body, the
    loop over regionSums (the same loop shape as postSums). *)
Fixpoint postASGStatistics (config : Config) (sizeSums : list (string * gmap Z nat))
    (regionSums : gmap string nat) : M unit :=
  match sizeSums with
  | [] => ret tt
  | (region, regionMap) :: rest =>
      run postSizes config region (map_to_list regionMap) then
      run postSums config "reaper.asgs.total" (map_to_list regionSums) then
      postASGStatistics config rest regionSums
  end.

Definition getAutoScalingGroups (config : Config)
    (savedstates : gmap string (gmap string State)) (asgs : list AutoScalingGroup)
    : Discovery AutoScalingGroup :=
  let sums := countASGs (map (restoreASG savedstates) asgs) in
  mkDiscovery
    (map (restoreASG savedstates) asgs)
    (map (fun rs => LogEntry LInfo "Found %d total AutoScalingGroups in %s"
                             [pretty (snd rs); fst rs])
         (map_to_list (fst sums)))
    (trace (postASGStatistics config (map_to_list (snd sums)) (fst sums))).

End DiscoveryModel.

Definition groupsIn (region : string) (asgs : list AutoScalingGroup) : nat :=
  List.length (List.filter (fun a => String.eqb (Region (asgResource a)) region) asgs).

(** ** aws/autoscaling.go: NewAutoScalingGroup *)

(** The fields of the AWS SDK's autoscaling.Group that the constructor
    and the filters read; the SDK hands every scalar over as a pointer,
    hence the options. *)
Record Group := mkGroup {
  AutoScalingGroupName : option string;
  GroupInstances : list (option string);
  GroupTags : list (option string * option string);
  GroupDesiredCapacity : option Z;
  GroupCreatedTime : option Z
}.

(** for _, instance := range asg.Instances { append(..., *instance.InstanceId) } *)
Fixpoint instanceIDs (instances : list (option string)) : option (list string) :=
  match instances with
  | [] => Some []
  | Some id :: rest =>
      match instanceIDs rest with
      | Some ids => Some (id :: ids)
      | None => None
      end
  | None :: _ => None
  end.

(** for _, tag := range asg.Tags { a.Resource.Tags[*tag.Key] = *tag.Value } *)
Fixpoint tagMap (tags : list (option string * option string)) (m : gmap string string)
    : option (gmap string string) :=
  match tags with
  | [] => Some m
  | (Some key, Some value) :: rest => tagMap rest (<[key := value]> m)
  | _ :: _ => None
  end.

(** NewAutoScalingGroup; [None] stands for the nil pointer dereference
    panic of *asg.AutoScalingGroupName, *instance.InstanceId, *tag.Key or
    *tag.Value.  The description itself and the elements of its Instances
    and Tags slices are taken to be non-nil, as the SDK returns them. *)
Definition NewAutoScalingGroup `{Collaborators} `{StatePackage} (region : string) (asg : Group)
    : option AutoScalingGroup :=
  match AutoScalingGroupName asg with
  | None => None
  | Some name =>
      match instanceIDs (GroupInstances asg) with
      | None => None
      | Some ids =>
          match tagMap (GroupTags asg) ∅ with
          | None => None
          | Some tags =>
              let r := mkResource region name name tags false false NewState ∅ in
              let inStack := Tagged r "aws:cloudformation:stack-name" in
              let st := if Tagged r reaperTag then NewStateWithTag (Tag r reaperTag)
                        else NewState in
              Some (mkASG (mkResource region name name tags inStack inStack st ∅)
                          (GroupDesiredCapacity asg) (GroupCreatedTime asg) ids)
          end
      end
  end.

(** The value of the last tag of a description with the given key. *)
Fixpoint lastValue (tags : list (option string * option string)) (key : string) : option string :=
  match tags with
  | [] => None
  | (k, v) :: rest =>
      match lastValue rest key with
      | Some value => Some value
      | None => if bool_decide (k = Some key) then v else None
      end
  end.

Definition wellFormedGroup (asg : Group) : Prop :=
  is_Some (AutoScalingGroupName asg) /\
  Forall is_Some (GroupInstances asg) /\
  Forall (fun kv => is_Some (fst kv) /\ is_Some (snd kv)) (GroupTags asg).

(** ** Scenario data of the further properties *)

(** A state package whose serialized state is the name of the stage. *)
Definition plainStates : StatePackage := {|
  StateTag := fun s => stateName (StateOf s);
  NewState := freshState;
  reaperTag := "REAPER"
|}.

(** The description of a group that belongs to a stack and carries a
    reaper tag; its owner tag is given twice. *)
Definition stackGroup : Group :=
  mkGroup (Some "asg-web") [Some "i-1"; Some "i-2"]
          [(Some "aws:cloudformation:stack-name", Some "web");
           (Some "Owner", Some "alice");
           (Some "REAPER", Some "second");
           (Some "Owner", Some "bob")]
          (Some 2%Z) (Some 1700000000%Z).

(** ** reaper.go: getSecurityGroups, getCloudformations *)

(** regionSums[r.Region]++ over the drained channel. *)
Definition countRegions (rs : list Resource) : gmap string nat :=
  foldl (fun sums r => incr (Region r) sums) ∅ rs.

Section RegionalDiscovery.
Context `{Collaborators}.

(** getSecurityGroups reads of a security group its region and id and
    sets its state, all of which live in the embedded Resource. *)
Definition getSecurityGroups (config : Config)
    (savedstates : gmap string (gmap string State)) (securityGroups : list Resource)
    : Discovery Resource :=
  let restored := map (restoreSavedState savedstates) securityGroups in
  let regionSums := countRegions restored in
  mkDiscovery
    restored
    (map (fun rs => LogEntry LInfo "Found %d total SecurityGroups in %s" [pretty (snd rs); fst rs])
         (map_to_list regionSums))
    (trace (postSums config "reaper.securitygroups.total" (map_to_list regionSums))).

(** getCloudformations, likewise on the embedded Resource of a stack. *)
Definition getCloudformations (config : Config)
    (savedstates : gmap string (gmap string State)) (cfs : list Resource)
    : Discovery Resource :=
  let restored := map (restoreSavedState savedstates) cfs in
  let regionSums := countRegions restored in
  mkDiscovery
    restored
    (map (fun rs => LogEntry LInfo "Found %d total Cloudformation Stacks in %s"
                             [pretty (snd rs); fst rs])
         (map_to_list regionSums))
    (trace (postSums config "reaper.cloudformations.total" (map_to_list regionSums))).

End RegionalDiscovery.

Definition resourcesIn (region : string) (rs : list Resource) : nat :=
  List.length (List.filter (fun r => String.eqb (Region r) region) rs).

(** ** Vocabulary of the state file properties *)

(** Whether s.Write accepts the line of an entry. *)
Definition written `{StatePackage} (writeError : string -> option string) (r : Reapable) : bool :=
  match writeError (stateLine r +:+ String newline "") with
  | Some _ => false
  | None => true
  end.

(** The number of commas of a line. *)
Fixpoint commas (s : string) : nat :=
  match s with
  | EmptyString => 0
  | String c r => (if Ascii.eqb c ","%char then 1 else 0) + commas r
  end.

(** An instance whose id holds a comma. *)
Definition commaInstance : Reapable := Instance (plainResource "us-east-1" "i,1").

(** ** aws/autoscaling.go: getTemplateData *)

(** time.Hour; a time.Duration counts nanoseconds. *)
Definition Hour : Z := 3600000000000.

(** autoScalingGroupEventData; its Config field is the global
    configuration, whose HTTP section the model keeps in a record of its
    own. *)
Record autoScalingGroupEventData := mkEventData {
  DataConfig : Config;
  DataHTTP : HTTPConfig;
  DataAutoScalingGroup : AutoScalingGroup;
  TerminateLink : string;
  StopLink : string;
  WhitelistLink : string;
  IgnoreLink1 : string;
  IgnoreLink3 : string;
  IgnoreLink7 : string
}.

Definition getTemplateData `{Collaborators} (config : Config) (http : HTTPConfig)
    (a : AutoScalingGroup) : M (option autoScalingGroupEventData * option string) :=
  let region := Region (asgResource a) in
  let id := ID (asgResource a) in
  let* ignore1 := makeIgnoreLink http region id (TokenSecret http) (APIURL http) (1 * 24 * Hour) in
  match snd ignore1 with
  | Some err => ret (None, Some err)
  | None =>
  let* ignore3 := makeIgnoreLink http region id (TokenSecret http) (APIURL http) (3 * 24 * Hour) in
  match snd ignore3 with
  | Some err => ret (None, Some err)
  | None =>
  let* ignore7 := makeIgnoreLink http region id (TokenSecret http) (APIURL http) (7 * 24 * Hour) in
  match snd ignore7 with
  | Some err => ret (None, Some err)
  | None =>
  let* terminate := makeTerminateLink http region id (TokenSecret http) (APIURL http) in
  match snd terminate with
  | Some err => ret (None, Some err)
  | None =>
  let* stop := makeStopLink http region id (TokenSecret http) (APIURL http) in
  match snd stop with
  | Some err => ret (None, Some err)
  | None =>
  let* whitelist := makeWhitelistLink http region id (TokenSecret http) (APIURL http) in
  match snd whitelist with
  | Some err => ret (None, Some err)
  | None =>
      ret (Some (mkEventData config http a (fst terminate) (fst stop) (fst whitelist)
                             (fst ignore1) (fst ignore3) (fst ignore7)), None)
  end end end end end end.

(** The jobs getTemplateData has tokenized, in the order of its calls. *)
Definition templateJobs (a : AutoScalingGroup) : list JobToken :=
  let region := Region (asgResource a) in
  let id := ID (asgResource a) in
  [NewDelayJob region id (1 * 24 * Hour); NewDelayJob region id (3 * 24 * Hour);
   NewDelayJob region id (7 * 24 * Hour); NewTerminateJob region id;
   NewStopJob region id; NewWhitelistJob region id].

(** The link makeURL builds on the host [h] followed by the byte [c]. *)
Definition linkOn `{Collaborators} (http : HTTPConfig) (h : string) (c : ascii)
    (action token : string) : string :=
  if Ascii.eqb c "/" then (h +:+ String c "") +:+ "?" +:+ encodedQuery http action token
  else (h +:+ String c "") +:+ "/?" +:+ encodedQuery http action token.

(** The HTTP section of the scenarios, and a group to render. *)
Definition reaperHTTP : HTTPConfig := mkHTTPConfig "a" "t" "http://reaper" "secret".
Definition unsetHTTP : HTTPConfig := mkHTTPConfig "a" "t" "" "secret".
Definition groupWeb : AutoScalingGroup :=
  mkASG (plainResource "us-east-1" "asg-web") (Some 2%Z) None [].

(** ** The wall clock, read at every call *)

(** AutoScalingGroup.Filter reads the wall clock at each call
    (time.Since), and so does every reapX function (time.Now), so two
    calls of one tick see different times.  A [Clock] gives the reading
    of every call of a tick by the position of the call: [inner k clock]
    is the clock of the k-th call a caller makes, and a call reads
    [clock []] or, in a loop, [clock [i]] at its i-th turn.  Nothing is
    assumed of the readings, so every way the wall clock can advance
    during a tick is covered.  The functions of the engine above are
    the functions below at a clock that stands [still]. *)
Definition Clock := list nat -> Z.

Definition inner (k : nat) (clock : Clock) : Clock := fun path => clock (k :: path).

Definition still (now : Z) : Clock := fun _ => now.

Section ClockedEngine.
Context `{Collaborators}.

(** filters.ApplyFilters (modelled from the spec as [ApplyFilters]); the
    i-th filter of the group reads [clock [i]]. *)
Fixpoint ApplyFiltersAt (clock : Clock) (i : nat) (f : Reapable) (group : FilterGroup) : M bool :=
  match group with
  | [] => ret true
  | (_, filter) :: rest =>
      let* ok := Reapable_Filter (clock [i]) f filter in
      if ok then ApplyFiltersAt clock (S i) f rest else ret false
  end.

(** for name, group := range groups { didMatch := ...; if didMatch {...} } *)
Fixpoint matchGroupsAt (clock : Clock) (g : nat) (f : Reapable)
    (groups : list (string * FilterGroup)) (matched : bool) : M (bool * Reapable) :=
  match groups with
  | [] => ret (matched, f)
  | (name, group) :: rest =>
      let* didMatch := ApplyFiltersAt (inner g clock) 0 f group in
      if didMatch
      then matchGroupsAt clock (S g) (mapResource (AddFilterGroup name group) f) rest true
      else matchGroupsAt clock (S g) f rest matched
  end.

(** One iteration of the loop of applyFilters; the whitelist filter is
    the last Filter call of the iteration and reads [clock []]. *)
Definition filterOneAt (config : Config) (clock : Clock) (groups : list (string * FilterGroup))
    (f : Reapable) : M (bool * Reapable * bool) :=
  let matched := (Nat.eqb (List.length groups) 0 || noFilters groups)%bool in
  let* mf := matchGroupsAt clock 0 f groups matched in
  let* whitelisted :=
    Reapable_Filter (clock []) (snd mf) (NewFilter "Tagged" [WhitelistTag config]) in
  ret (if whitelisted then false else fst mf, snd mf, whitelisted).

(** The body of applyFilters, before the deferred recover; [j] is the
    position of the first of [filterables] in the slice of the call. *)
Fixpoint applyFiltersLoopAt (config : Config) (clock : Clock) (j : nat)
    (filterables : list Reapable) (whitelistedCount : gmap string nat) (gs : list Reapable)
    : M (list Reapable) :=
  match filterables with
  | [] =>
      run emitWhitelisted config (map_to_list whitelistedCount) then ret gs
  | filterable :: rest =>
      match kindConfig config filterable with
      | None =>
          run logf LWarning "You probably screwed up and need to make sure applyFilters works!" []
          then ret []
      | Some (stat, groups) =>
          let* r := filterOneAt config (inner j clock) groups filterable in
          let '(matched, filterable', whitelisted) := r in
          applyFiltersLoopAt config clock (S j) rest
            (if whitelisted then incr stat whitelistedCount else whitelistedCount)
            (if matched then gs ++ [filterable'] else gs)
      end
  end.

Definition applyFiltersAt (config : Config) (clock : Clock) (filterables : list Reapable)
    : M (list Reapable) :=
  recovered (applyFiltersLoopAt config clock 0 filterables ∅ []).

(** The resources of a slice as their reapX calls leave them, when the
    call for the first of them reads [clock [j]], the next one
    [clock [S j]], and so on. *)
Fixpoint reapedAt (clock : Clock) (j : nat) (l : list Reapable) : list Reapable :=
  match l with
  | [] => []
  | f :: rest => reaped (clock [j]) f :: reapedAt clock (S j) rest
  end.

(** for _, f := range filtered { switch t := f.(type) {...} }; the reapX
    call of the j-th resource reads [clock [j]]. *)
Fixpoint reapLoopAt (clock : Clock) (j : nat) (filtered : list Reapable) (sums : Sums) : M Sums :=
  match filtered with
  | [] => ret sums
  | f :: rest =>
      let region := Region (resourceOf f) in
      match f with
      | Instance _ =>
          run reapKind "Instance" (clock [j]) f then
          reapLoopAt clock (S j) rest
            (mkSums (incr region (filteredInstanceSums sums)) (filteredASGSums sums)
                    (filteredSecurityGroupSums sums) (filteredCloudformationSums sums)
                    (filteredVolumeSums sums))
      | AutoScalingGroupR _ =>
          run reapKind "AutoScalingGroup" (clock [j]) f then
          reapLoopAt clock (S j) rest
            (mkSums (filteredInstanceSums sums) (incr region (filteredASGSums sums))
                    (filteredSecurityGroupSums sums) (filteredCloudformationSums sums)
                    (filteredVolumeSums sums))
      | SecurityGroup _ =>
          run reapKind "SecurityGroup" (clock [j]) f then
          reapLoopAt clock (S j) rest
            (mkSums (filteredInstanceSums sums) (filteredASGSums sums)
                    (incr region (filteredSecurityGroupSums sums)) (filteredCloudformationSums sums)
                    (filteredVolumeSums sums))
      | Cloudformation _ =>
          run reapKind "Cloudformation" (clock [j]) f then
          reapLoopAt clock (S j) rest
            (mkSums (filteredInstanceSums sums) (filteredASGSums sums)
                    (filteredSecurityGroupSums sums) (incr region (filteredCloudformationSums sums))
                    (filteredVolumeSums sums))
      | Volume _ =>
          run reapKind "Volume" (clock [j]) f then
          reapLoopAt clock (S j) rest
            (mkSums (filteredInstanceSums sums) (filteredASGSums sums)
                    (filteredSecurityGroupSums sums) (filteredCloudformationSums sums)
                    (incr region (filteredVolumeSums sums)))
      | OtherReapable _ =>
          run logf LError "Reap default case." [] then reapLoopAt clock (S j) rest sums
      end
  end.

(** What the first loop of reap carries from owner to owner.  The slice
    stored under an owner shares its elements with [filtered]; with each
    bucket the model keeps the position in [filtered] of its first
    resource, which is the turn of the reap loop that handles it. *)
Record OwnedPassAt := mkOwnedPassAt {
  atUnowned : list Reapable;
  atFiltered : list Reapable;
  atFilteredOwned : list (string * (nat * list Reapable))
}.

(** filteredOwned[owner] = resources on a Go map kept in insertion order. *)
Fixpoint setBucketAt (owner : string) (bucket : nat * list Reapable)
    (m : list (string * (nat * list Reapable))) : list (string * (nat * list Reapable)) :=
  match m with
  | [] => [(owner, bucket)]
  | (o, b) :: rest =>
      if String.eqb o owner then (o, bucket) :: rest
      else (o, b) :: setBucketAt owner bucket rest
  end.

(** for owner, ownerMap := range owned {...}; [k] is the turn of the
    loop, its applyFilters call runs on the clock [inner k clock]. *)
Fixpoint filterOwnedAt (config : Config) (clock : Clock) (k : nat)
    (owned : list (string * list Reapable)) (acc : OwnedPassAt) : M OwnedPassAt :=
  match owned with
  | [] => ret acc
  | (owner, ownerMap) :: rest =>
      let* resources := applyFiltersAt config (inner k clock) ownerMap in
      if Nat.eqb (List.length resources) 1
      then filterOwnedAt config clock (S k) rest
             (mkOwnedPassAt (atUnowned acc ++ resources) (atFiltered acc) (atFilteredOwned acc))
      else filterOwnedAt config clock (S k) rest
             (mkOwnedPassAt (atUnowned acc) (atFiltered acc ++ resources)
                (setBucketAt owner (List.length (atFiltered acc), resources)
                             (atFilteredOwned acc)))
  end.

(** One reap tick with the wall clock read at every call: the loop over
    the owners runs on [inner 0 clock], the applyFilters call on the
    unowned list on [inner 1 clock] and the reap loop on [inner 2 clock]. *)
Definition reapAt (config : Config) (clock : Clock) (owned : list (string * list Reapable))
    (unowned : list Reapable) : outcome ReapResult :=
  let main :=
    let* pass := filterOwnedAt config (inner 0 clock) 0 owned (mkOwnedPassAt unowned [] []) in
    let* filteredUnowned := applyFiltersAt config (inner 1 clock) (atUnowned pass) in
    let filtered := atFiltered pass ++ filteredUnowned in
    let* sums := reapLoopAt (inner 2 clock) 0 filtered noSums in
    ret (pass, filteredUnowned, filtered, sums) in
  match main with
  | (t, Done (pass, filteredUnowned, filtered, sums)) =>
      let seen := map (fun b => (fst b, reapedAt (inner 2 clock) (fst (snd b)) (snd (snd b))))
                      (atFilteredOwned pass) in
      Done (mkReapResult (atUnowned pass) filtered
              (map (fun b => (fst b, snd (snd b))) (atFilteredOwned pass))
              filteredUnowned sums t
              (trace (run dispatchOwned config seen
                      then dispatchUnowned config
                             (reapedAt (inner 2 clock) (List.length (atFiltered pass))
                                       filteredUnowned)))
              (trace (postStatistics config sums)))
  | (_, Panicked p) => Panicked p
  end.

End ClockedEngine.

(** ** Vocabulary of the statements about the clocked tick *)

Section ClockedVocabulary.
Context `{Collaborators}.
Variable config : Config.

(** The loop body of applyFilters runs to its end on [f] at the clock of
    its turn: known kind, no panic. *)
Definition EvaluatesAt (clock : Clock) (f : Reapable) : Prop :=
  exists stat groups t v,
    kindConfig config f = Some (stat, groups) /\
    filterOneAt config clock groups f = (t, Done v).

(** Every turn of the loop of an applyFilters call on [fs] runs to its
    end; [j] is the turn of the first resource. *)
Fixpoint EvaluatesFrom (clock : Clock) (j : nat) (fs : list Reapable) : Prop :=
  match fs with
  | [] => True
  | f :: rest => EvaluatesAt (inner j clock) f /\ EvaluatesFrom clock (S j) rest
  end.

(** The filters configured for the kind of [f] answer the same at every
    reading of the clock, on [f] with whatever groups recorded on it. *)
Definition ClockFree (f : Reapable) : Prop :=
  forall stat groups, kindConfig config f = Some (stat, groups) ->
  forall g name filter f' (now1 now2 : Z),
    g ∈ groups -> (name, filter) ∈ snd g -> sameResource f f' ->
    Reapable_Filter now1 f' filter = Reapable_Filter now2 f' filter.

End ClockedVocabulary.

(** The pass of the owners without the positions of its buckets. *)
Definition withoutPositions (pass : OwnedPassAt) : OwnedPass :=
  mkOwnedPass (atUnowned pass) (atFiltered pass)
              (map (fun b => (fst b, snd (snd b))) (atFilteredOwned pass)).

(** ** Scenario data of the clocked tick *)

(** A clock that advances between the passes of a tick: the calls of the
    loop over the owners read 3999, the call on the unowned list reads
    4001 and the reap loop 4002. *)
Definition passClock : Clock :=
  fun path => match path with
              | 0 :: _ => 3999%Z
              | 1 :: _ => 4001%Z
              | _ => 4002%Z
              end.

(** AutoScalingGroups are reapable while they are younger than an hour. *)
Definition youngConfig : Config :=
  mkConfig ["us-east-1"] noGroups
    (mkResourceConfig true [("young", [("age", NewFilter "CreatedTimeInTheLast" ["1h"])])])
    noGroups noGroups noGroups "REAPER_SPARE_ME" "env:test".

(** A group created at 400: 3599 old at the first reading of [passClock],
    3601 at the second. *)
Definition asgYoung : Reapable :=
  AutoScalingGroupR (mkASG (plainResource "us-east-1" "asg-young") (Some 2%Z) (Some 400%Z) []).

(** * Verification *)

(** ** The effect monad *)

Lemma bind_Done {A B} (m : M A) (k : A -> M B) t b :
  bind m k = (t, Done b) ->
  exists t1 a t2, m = (t1, Done a) /\ k a = (t2, Done b) /\ t = t1 ++ t2.
Proof.
  unfold bind. destruct m as [t1 [a|p]]; [|discriminate].
  destruct (k a) as [t2 r] eqn:E. intros [= <- ->]. eauto 6.
Qed.


Lemma result_bind_Done {A B} (m : M A) (k : A -> M B) a :
  result m = Done a -> result (bind m k) = result (k a).
Proof.
  unfold result, bind. destruct m as [t o]. simpl. intros ->.
  now destruct (k a).
Qed.

Lemma result_bind_Panicked {A B} (m : M A) (k : A -> M B) p :
  result m = Panicked p -> result (bind m k) = Panicked p.
Proof.
  unfold result, bind. destruct m as [t o]. simpl. now intros ->.
Qed.

(** ** Size filters on a group without desired capacity *)

Section SizeFilters.
Context `{Collaborators}.

Lemma size_filter_call (now : Z) (a : AutoScalingGroup) (arg : string) (rest : list string)
    (pred : AutoScalingGroup -> Z -> bool) :
  (forall size, pred a size = false) ->
  (let* i := Int64Value (NewFilter "" (arg :: rest)) 0 in ret (parsedAnd i (pred a)))
  = ([], Done false).
Proof.
  intros Hpred. unfold Int64Value, index. simpl.
  destruct (ParseInt arg) as [i|]; simpl; [now rewrite Hpred | reflexivity].
Qed.

(** C10. On an AutoScalingGroup whose DesiredCapacity is nil, each of the
    five size predicates is false for every integer, and the Filter method
    answers non-match for SizeGreaterThan, SizeLessThan, SizeEqualTo,
    SizeGreaterThanOrEqualTo and SizeLessThanOrEqualTo whatever the
    argument is; in particular SizeEqualTo 0 and SizeLessThan 1 do not
    match. *)
Theorem size_filters_never_match_unset_capacity :
  forall (now : Z) (r : Resource) (created : option Z) (instances : list string),
    let a := mkASG r None created instances in
    (forall size : Z,
        sizeGreaterThan a size = false /\ sizeLessThan a size = false /\
        sizeEqualTo a size = false /\ sizeGreaterThanOrEqualTo a size = false /\
        sizeLessThanOrEqualTo a size = false) /\
    (forall (arg : string) (rest : list string),
        AutoScalingGroup_Filter now a (NewFilter "SizeGreaterThan" (arg :: rest)) = ([], Done false) /\
        AutoScalingGroup_Filter now a (NewFilter "SizeLessThan" (arg :: rest)) = ([], Done false) /\
        AutoScalingGroup_Filter now a (NewFilter "SizeEqualTo" (arg :: rest)) = ([], Done false) /\
        AutoScalingGroup_Filter now a (NewFilter "SizeGreaterThanOrEqualTo" (arg :: rest)) = ([], Done false) /\
        AutoScalingGroup_Filter now a (NewFilter "SizeLessThanOrEqualTo" (arg :: rest)) = ([], Done false)) /\
    AutoScalingGroup_Filter now a (NewFilter "SizeEqualTo" ["0"]) = ([], Done false) /\
    AutoScalingGroup_Filter now a (NewFilter "SizeLessThan" ["1"]) = ([], Done false).
Proof.
  intros now r created instances a.
  assert (Hm : forall size : Z,
        sizeGreaterThan a size = false /\ sizeLessThan a size = false /\
        sizeEqualTo a size = false /\ sizeGreaterThanOrEqualTo a size = false /\
        sizeLessThanOrEqualTo a size = false) by (intros size; repeat split; reflexivity).
  split; [exact Hm|].
  assert (Hf : forall (arg : string) (rest : list string),
        AutoScalingGroup_Filter now a (NewFilter "SizeGreaterThan" (arg :: rest)) = ([], Done false) /\
        AutoScalingGroup_Filter now a (NewFilter "SizeLessThan" (arg :: rest)) = ([], Done false) /\
        AutoScalingGroup_Filter now a (NewFilter "SizeEqualTo" (arg :: rest)) = ([], Done false) /\
        AutoScalingGroup_Filter now a (NewFilter "SizeGreaterThanOrEqualTo" (arg :: rest)) = ([], Done false) /\
        AutoScalingGroup_Filter now a (NewFilter "SizeLessThanOrEqualTo" (arg :: rest)) = ([], Done false)).
  { intros arg rest.
    repeat split; (apply (size_filter_call now a arg rest); intros size; apply Hm). }
  split; [exact Hf|]. split; apply Hf.
Qed.

End SizeFilters.

(** ** makeURL on an empty host *)

Section Links.
Context `{Collaborators}.

Lemma makeURL_empty_host (http : HTTPConfig) (action token : string) :
  makeURL http "" action token = emptyHostFault.
Proof. reflexivity. Qed.

(** C8 (amended). With an empty API base URL makeURL logs "host is empty"
    and then panics on host[len(host)-1:] (slice bounds out of range, low
    bound -1).  Each of the six link constructors ends in that panic, and
    returns no error value, when token.Tokenize has made its token; when
    Tokenize fails the constructor returns the empty string and that
    error before makeURL is reached, and does not panic. *)
Theorem empty_api_url_panics :
  forall (http : HTTPConfig) (region id tokenSecret : string),
    (forall action token, makeURL http "" action token = emptyHostFault) /\
    (forall down up,
        snd (Tokenize tokenSecret (NewScheduleJob region id down up)) = None ->
        makeScheduleLink http region id tokenSecret "" down up = emptyHostFault) /\
    (snd (Tokenize tokenSecret (NewTerminateJob region id)) = None ->
     makeTerminateLink http region id tokenSecret "" = emptyHostFault) /\
    (forall duration,
        snd (Tokenize tokenSecret (NewDelayJob region id duration)) = None ->
        makeIgnoreLink http region id tokenSecret "" duration = emptyHostFault) /\
    (snd (Tokenize tokenSecret (NewWhitelistJob region id)) = None ->
     makeWhitelistLink http region id tokenSecret "" = emptyHostFault) /\
    (snd (Tokenize tokenSecret (NewStopJob region id)) = None ->
     makeStopLink http region id tokenSecret "" = emptyHostFault) /\
    (snd (Tokenize tokenSecret (NewForceStopJob region id)) = None ->
     makeForceStopLink http region id tokenSecret "" = emptyHostFault) /\
    (forall err,
        (forall down up,
            snd (Tokenize tokenSecret (NewScheduleJob region id down up)) = Some err ->
            makeScheduleLink http region id tokenSecret "" down up = ([], Done ("", Some err))) /\
        (snd (Tokenize tokenSecret (NewTerminateJob region id)) = Some err ->
         makeTerminateLink http region id tokenSecret "" = ([], Done ("", Some err))) /\
        (forall duration,
            snd (Tokenize tokenSecret (NewDelayJob region id duration)) = Some err ->
            makeIgnoreLink http region id tokenSecret "" duration = ([], Done ("", Some err))) /\
        (snd (Tokenize tokenSecret (NewWhitelistJob region id)) = Some err ->
         makeWhitelistLink http region id tokenSecret ""
         = ([LogEntry LError "Error creating whitelist link: " [err]], Done ("", Some err))) /\
        (snd (Tokenize tokenSecret (NewStopJob region id)) = Some err ->
         makeStopLink http region id tokenSecret ""
         = ([LogEntry LError "Error creating ScaleToZero link: " [err]], Done ("", Some err))) /\
        (snd (Tokenize tokenSecret (NewForceStopJob region id)) = Some err ->
         makeForceStopLink http region id tokenSecret ""
         = ([LogEntry LError "Error creating ScaleToZero link: " [err]], Done ("", Some err)))).
Proof.
  intros http region id tokenSecret.
  split; [intros; apply makeURL_empty_host|].
  unfold makeScheduleLink, makeTerminateLink, makeIgnoreLink, makeWhitelistLink,
    makeStopLink, makeForceStopLink.
  repeat split; intros;
    match goal with
    | Hs : snd (Tokenize ?s ?j) = _ |- _ =>
        destruct (Tokenize s j) as [tok e]; simpl in Hs; subst e
    end; try rewrite makeURL_empty_host; reflexivity.
Qed.

End Links.

(** ** LoadState *)

Section SavedState.
Context `{Collaborators}.

Lemma initSavedStates_lookup (regions : list string) (region : string) :
  region ∉ regions -> initSavedStates regions !! region = None.
Proof.
  unfold initSavedStates.
  assert (G : forall (m : gmap string (gmap string State)),
             m !! region = None -> region ∉ regions ->
             foldl (fun m region => <[region := ∅]> m) m regions !! region = None).
  { induction regions as [|r rs IH]; intros m Hm Hnot; simpl; [exact Hm|].
    apply IH.
    - rewrite lookup_insert_ne; [exact Hm|]. intros ->. apply Hnot. left.
    - intros Hin. apply Hnot. now right. }
  intros Hnot. apply G; [apply lookup_empty | exact Hnot].
Qed.

Lemma initSavedStates_configured (regions : list string) (region : string) :
  region ∈ regions -> is_Some (initSavedStates regions !! region).
Proof.
  unfold initSavedStates.
  assert (G : forall (m : gmap string (gmap string State)),
             is_Some (m !! region) \/ region ∈ regions ->
             is_Some (foldl (fun m region => <[region := ∅]> m) m regions !! region)).
  { induction regions as [|r rs IH]; intros m [Hm|Hin]; simpl.
    - exact Hm.
    - inversion Hin.
    - apply IH. left. destruct (decide (r = region)) as [->|Hne].
      + rewrite lookup_insert_eq. eauto.
      + rewrite lookup_insert_ne; auto.
    - apply IH. inversion Hin; subst.
      + left. rewrite lookup_insert_eq. eauto.
      + now right. }
  intros Hin. apply G. now right.
Qed.

(** A three-field line for a region without inner map stops the loop with
    the nil-map panic, wherever it stands in the file. *)
Lemma loadLines_unconfigured (lines : list string) :
  forall (savedstates : gmap string (gmap string State)) (text region id tag : string),
    text ∈ lines -> Split text = [region; id; tag] -> savedstates !! region = None ->
    result (loadLines lines savedstates) = Panicked NilMapAssignment.
Proof.
  induction lines as [|l rest IH]; intros savedstates text region id tag Hin Hsplit Hnone.
  - inversion Hin.
  - cbn [loadLines]. inversion Hin as [? ? | ? ? ? Hin']; subst.
    + rewrite Hsplit, Hnone. reflexivity.
    + destruct (Split l) as [|r1 [|i1 [|t1 [|? ?]]]] eqn:El.
      1-3, 5: rewrite result_bind_Done with (a := tt) by reflexivity; eapply IH; eauto.
      destruct (savedstates !! r1) as [inner|] eqn:Er; [|reflexivity].
      eapply IH; eauto.
      rewrite lookup_insert_ne; [exact Hnone|]. intros ->. congruence.
Qed.

(** C9. LoadState is not total: if some line of the state file has exactly
    three comma-separated fields and its region is not among the configured
    regions, the write savedstates[region][id] hits the nil inner map and
    LoadState panics (assignment to entry in nil map) instead of skipping
    the line. *)
Theorem LoadState_faults_on_unconfigured_region :
  forall (config : Config) (stateFile : string) (lines : list string)
         (text region id tag : string),
    text ∈ lines ->
    Split text = [region; id; tag] ->
    region ∉ Regions config ->
    result (LoadState config stateFile (Some lines)) = Panicked NilMapAssignment.
Proof.
  intros config stateFile lines text region id tag Hin Hsplit Hnot.
  unfold LoadState. apply result_bind_Panicked. simpl.
  eapply loadLines_unconfigured; eauto.
  now apply initSavedStates_lookup.
Qed.

(** Lines without exactly three fields are skipped with an error log. *)
Lemma loadLines_skips_malformed (text : string) (rest : list string)
    (savedstates : gmap string (gmap string State)) :
  List.length (Split text) <> 3 ->
  loadLines (text :: rest) savedstates
  = (run logf LError "Malformed saved state " [text] then loadLines rest savedstates).
Proof.
  intros Hlen. cbn [loadLines].
  destruct (Split text) as [|r1 [|i1 [|t1 [|? ?]]]]; try reflexivity.
  now elim Hlen.
Qed.

(** A three-field line of a configured region is stored. *)
Lemma loadLines_stores (text region id tag : string) (rest : list string)
    (savedstates : gmap string (gmap string State)) (inner : gmap string State) :
  Split text = [region; id; tag] ->
  savedstates !! region = Some inner ->
  loadLines (text :: rest) savedstates
  = loadLines rest (<[region := <[id := NewStateWithTag tag]> inner]> savedstates).
Proof. intros Hsplit Hsome. simpl. now rewrite Hsplit, Hsome. Qed.

End SavedState.

(** ** The filter engine *)

Section FilterEngine.
Context `{Collaborators}.
Variables (config : Config) (now : Z).

Lemma sameResource_refl (a : Reapable) : sameResource a a.
Proof. reflexivity. Qed.

Lemma sameResource_trans (a b c : Reapable) :
  sameResource a b -> sameResource b c -> sameResource a c.
Proof. unfold sameResource. congruence. Qed.

Lemma sameResource_AddFilterGroup (name : string) (group : FilterGroup) (f : Reapable) :
  sameResource f (mapResource (AddFilterGroup name group) f).
Proof. destruct f; reflexivity. Qed.

Lemma sameResource_kindConfig (a b : Reapable) :
  sameResource a b -> kindConfig config a = kindConfig config b.
Proof. unfold sameResource. destruct a, b; simpl; intros E; congruence. Qed.

Lemma sameResource_fields (a b : Reapable) :
  sameResource a b ->
  Tags (resourceOf a) = Tags (resourceOf b) /\
  Dependency (resourceOf a) = Dependency (resourceOf b).
Proof.
  unfold sameResource.
  destruct a as [r|[r ? ? ?]|r|r|r|r], b as [q|[q ? ? ?]|q|q|q|q]; simpl; intros E;
    try discriminate; injection E; destruct r, q; simpl; intros; subst; auto.
Qed.

Lemma emitWhitelisted_Done (counts : list (string * nat)) :
  result (emitWhitelisted config counts) = Done tt.
Proof.
  induction counts as [|[stat count] rest IH]; [reflexivity|].
  cbn [emitWhitelisted]. unfold NewStatistic.
  rewrite result_bind_Done with (a := statisticError stat (Z.of_nat count) [EventTag config])
    by reflexivity.
  rewrite result_bind_Done with (a := tt); [exact IH|].
  now destruct (statisticError _ _ _).
Qed.

Lemma applyFiltersLoop_Kept (fs : list Reapable) :
  forall wc gs t out,
    applyFiltersLoop config now fs wc gs = (t, Done out) ->
    Forall (Kept config now) gs -> Forall (Kept config now) out.
Proof.
  induction fs as [|f rest IH]; intros wc gs t out Hrun Hgs.
  - cbn [applyFiltersLoop] in Hrun.
    apply bind_Done in Hrun as (t1 & [] & t2 & _ & Hret & _).
    injection Hret as _ <-. exact Hgs.
  - cbn [applyFiltersLoop] in Hrun.
    destruct (kindConfig config f) as [[stat groups]|] eqn:Ek.
    + apply bind_Done in Hrun as (t1 & [[matched f'] w] & t2 & Hone & Hrest & _).
      eapply IH; [exact Hrest|].
      destruct matched; [|exact Hgs].
      apply Forall_app. split; [exact Hgs|].
      constructor; [|constructor]. exists f, stat, groups, t1, w. auto.
    + apply bind_Done in Hrun as (t1 & [] & t2 & _ & Hret & _).
      injection Hret as _ <-. constructor.
Qed.

Lemma applyFilters_total (fs : list Reapable) :
  exists t out, applyFilters config now fs = (t, Done out).
Proof.
  unfold applyFilters, recovered.
  destruct (applyFiltersLoop config now fs ∅ []) as [t [out|p]]; eauto.
Qed.

Lemma applyFilters_Kept (fs : list Reapable) t out :
  applyFilters config now fs = (t, Done out) -> Forall (Kept config now) out.
Proof.
  unfold applyFilters, recovered.
  destruct (applyFiltersLoop config now fs ∅ []) as [t0 [out0|p]] eqn:E.
  - intros [= <- <-]. eapply applyFiltersLoop_Kept; [exact E|constructor].
  - intros [= <- <-]. constructor.
Qed.

Lemma matchGroups_same (groups : list (string * FilterGroup)) :
  forall f m t r x,
    matchGroups now f groups m = (t, Done (r, x)) -> sameResource f x.
Proof.
  induction groups as [|[name group] rest IH]; intros f m t r x Hrun.
  - injection Hrun as _ _ <-. apply sameResource_refl.
  - cbn [matchGroups] in Hrun.
    apply bind_Done in Hrun as (t1 & didMatch & t2 & _ & Hrest & _).
    destruct didMatch.
    + eapply sameResource_trans; [apply sameResource_AddFilterGroup|].
      eapply IH; exact Hrest.
    + eapply IH; exact Hrest.
Qed.

Lemma filterOne_inv (groups : list (string * FilterGroup)) (f x : Reapable) t (m w : bool) :
  filterOne config now groups f = (t, Done (m, x, w)) ->
  exists t1 t2 m0,
    matchGroups now f groups (Nat.eqb (List.length groups) 0 || noFilters groups)%bool
      = (t1, Done (m0, x)) /\
    Reapable_Filter now x (NewFilter "Tagged" [WhitelistTag config]) = (t2, Done w) /\
    m = (if w then false else m0) /\ t = t1 ++ t2.
Proof.
  unfold filterOne. intros Hrun.
  apply bind_Done in Hrun as (t1 & [m0 x0] & t' & Hm & Hrun & ->).
  apply bind_Done in Hrun as (t2 & w0 & t3 & Hw & Hret & ->).
  simpl in Hw, Hret. injection Hret as <- <- <- <-.
  exists t1, t2, m0. rewrite app_nil_r. auto.
Qed.

Lemma filterOne_same_resource (groups : list (string * FilterGroup)) (f x : Reapable) t m w :
  filterOne config now groups f = (t, Done (m, x, w)) -> sameResource f x.
Proof.
  intros Hrun. apply filterOne_inv in Hrun as (t1 & t2 & m0 & Hm & _).
  eapply matchGroups_same; exact Hm.
Qed.

Lemma Kept_kind (x : Reapable) :
  Kept config now x -> exists stat groups, kindConfig config x = Some (stat, groups).
Proof.
  intros (f & stat & groups & t & w & Hk & Hone).
  exists stat, groups. rewrite <- Hk. symmetry.
  apply sameResource_kindConfig. eapply filterOne_same_resource; exact Hone.
Qed.

Lemma Filter_Tagged (x : Reapable) (key : string) :
  AnswersTagged -> kindConfig config x <> None ->
  result (Reapable_Filter now x (NewFilter "Tagged" [key])) = Done (Tagged (resourceOf x) key).
Proof.
  intros Htag Hk.
  destruct x as [r|a|r|r|r|r]; simpl; try apply Htag; [reflexivity|].
  now elim Hk.
Qed.

(** The whitelist check is the last word of an iteration: what the loop
    keeps does not carry the whitelist tag. *)
Lemma Kept_not_whitelisted (x : Reapable) :
  AnswersTagged -> Kept config now x ->
  Tagged (resourceOf x) (WhitelistTag config) = false.
Proof.
  intros Htag HK. destruct (Kept_kind x HK) as (stat' & groups' & Hkx).
  destruct HK as (f & stat & groups & t & w & Hk & Hone).
  apply filterOne_inv in Hone as (t1 & t2 & m0 & _ & Hw & Hm & _).
  destruct w; [discriminate|].
  pose proof (Filter_Tagged x (WhitelistTag config) Htag) as HT.
  unfold result in HT. rewrite Hw in HT. simpl in HT.
  assert (E : Done false = Done (Tagged (resourceOf x) (WhitelistTag config)))
    by (apply HT; congruence).
  now injection E.
Qed.

Lemma ApplyFilters_true (group : FilterGroup) (f : Reapable) :
  forall t, ApplyFilters now f group = (t, Done true) ->
  forall name filter, (name, filter) ∈ group ->
  exists t', Reapable_Filter now f filter = (t', Done true).
Proof.
  induction group as [|[n0 f0] rest IH]; intros t Hrun name filter Hin.
  - inversion Hin.
  - cbn [ApplyFilters] in Hrun.
    apply bind_Done in Hrun as (t1 & ok & t2 & Hf & Hrest & _).
    destruct ok; [|discriminate].
    inversion Hin; subst; eauto.
Qed.

Lemma matchGroups_true (groups : list (string * FilterGroup)) :
  forall f m t x,
    matchGroups now f groups m = (t, Done (true, x)) ->
    m = true \/
    exists g f' t', g ∈ groups /\ sameResource f f' /\
                    ApplyFilters now f' (snd g) = (t', Done true).
Proof.
  induction groups as [|[name group] rest IH]; intros f m t x Hrun.
  - injection Hrun as _ -> _. now left.
  - cbn [matchGroups] in Hrun.
    apply bind_Done in Hrun as (t1 & didMatch & t2 & Hd & Hrest & _).
    destruct didMatch.
    + right. exists (name, group), f, t1.
      split; [left|split; [apply sameResource_refl|exact Hd]].
    + apply IH in Hrest as [->|(g & f' & t' & Hin & Hs & Ha)]; [now left|].
      right. exists g, f', t'. split; [now right|split; [exact Hs|exact Ha]].
Qed.

Lemma Filter_IsDependency (f : Reapable) (arg : string) (rest : list string) (b : bool) :
  AnswersIsDependency -> kindConfig config f <> None -> ParseBool arg = Some b ->
  result (Reapable_Filter now f (NewFilter "IsDependency" (arg :: rest)))
  = Done (Bool.eqb (Dependency (resourceOf f)) b).
Proof.
  intros Hdep Hk Hb.
  destruct f as [r|a|r|r|r|r]; simpl; try (apply Hdep; exact Hb).
  - unfold AutoScalingGroup_Filter, BoolValue, index. simpl. now rewrite Hb.
  - now elim Hk.
Qed.

Lemma requiresNonDependency_not_vacuous (groups : list (string * FilterGroup)) :
  requiresNonDependency groups ->
  (Nat.eqb (List.length groups) 0 || noFilters groups)%bool = false.
Proof.
  intros [Hne Hall]. destruct groups as [|[gname group] rest]; [now elim Hne|].
  destruct (Hall (gname, group)) as (name & arg & rest' & Hin & _); [left|].
  simpl in Hin. destruct group; [inversion Hin|reflexivity].
Qed.

(** Under a configuration whose every group demands IsDependency = false,
    what the loop keeps is not a dependency. *)
Lemma Kept_not_dependency (x : Reapable) (stat : string) (groups : list (string * FilterGroup)) :
  AnswersIsDependency -> Kept config now x ->
  kindConfig config x = Some (stat, groups) -> requiresNonDependency groups ->
  Dependency (resourceOf x) = false.
Proof.
  intros Hdep (f & stat' & groups' & t & w & Hk & Hone) Hkx Hreq.
  pose proof (filterOne_same_resource _ _ _ _ _ _ Hone) as Hsame.
  rewrite (sameResource_kindConfig _ _ Hsame), Hkx in Hk. injection Hk as <- <-.
  apply filterOne_inv in Hone as (t1 & t2 & m0 & Hm & _ & Hkeep & _).
  destruct w; [discriminate|]. subst m0.
  rewrite (requiresNonDependency_not_vacuous _ Hreq) in Hm.
  apply matchGroups_true in Hm as [Hm|(g & f' & t' & Hin & Hs & Ha)]; [discriminate|].
  destruct Hreq as [_ Hall]. destruct (Hall g Hin) as (name & arg & rest & Hmem & Hparse).
  destruct (ApplyFilters_true _ _ _ Ha _ _ Hmem) as (t'' & Hflt).
  pose proof (Filter_IsDependency f' arg rest false Hdep) as HD.
  unfold result in HD. rewrite Hflt in HD. simpl in HD.
  assert (E : Done true = Done (Bool.eqb (Dependency (resourceOf f')) false)).
  { apply HD; [|exact Hparse].
    rewrite <- (sameResource_kindConfig _ _ Hs), (sameResource_kindConfig _ _ Hsame), Hkx.
    discriminate. }
  injection E as E.
  destruct (sameResource_fields _ _ Hs) as [_ D1].
  destruct (sameResource_fields _ _ Hsame) as [_ D2].
  rewrite <- D2, D1. destruct (Dependency (resourceOf f')); [discriminate|reflexivity].
Qed.

End FilterEngine.

(** ** The reap loop *)

Section ReapLoop.
Context `{Collaborators}.
Variables (config : Config) (now : Z).

Lemma logIfError_run (err : option string) :
  exists tlog, logIfError err = (tlog, Done tt) /\ dispatched tlog = [] /\
               forall e, e ∈ tlog -> exists msg, e = LogEntry LError msg [].
Proof.
  destruct err as [e|]; simpl.
  - eexists. split; [reflexivity|]. split; [reflexivity|].
    intros e' He. apply list_elem_of_singleton in He. eauto.
  - eexists. split; [reflexivity|]. split; [reflexivity|]. intros e' He. inversion He.
Qed.

Lemma reapLoop_total (filtered : list Reapable) :
  forall sums, exists t sums', reapLoop now filtered sums = (t, Done sums').
Proof.
  induction filtered as [|f rest IH]; intros sums; [simpl; eauto|].
  destruct f; cbn [reapLoop];
    match goal with
    | |- context [reapLoop now rest ?s] => destruct (IH s) as (t & s' & ->)
    end; simpl; eauto.
Qed.

Lemma setBucket_elem (owner : string) (resources : list Reapable)
    (m : list (string * list Reapable)) o b :
  (o, b) ∈ setBucket owner resources m -> b = resources \/ (o, b) ∈ m.
Proof.
  induction m as [|[o' rs] rest IH]; simpl; intros Hin.
  - apply list_elem_of_singleton in Hin. injection Hin as _ ->. now left.
  - destruct (String.eqb o' owner).
    + apply elem_of_cons in Hin as [Hin|Hin]; [injection Hin as _ ->; now left|].
      right. now right.
    + apply elem_of_cons in Hin as [Hin|Hin]; [right; rewrite Hin; left|].
      destruct (IH Hin) as [->|Hm]; [now left|right; now right].
Qed.

(** What the first loop of reap leaves behind: every bucket it keeps was
    produced by applyFilters and does not hold exactly one resource. *)
Lemma filterOwned_run (owned : list (string * list Reapable)) :
  forall acc,
    Forall (Kept config now) (passFiltered acc) ->
    (forall o b, (o, b) ∈ passFilteredOwned acc ->
                 Forall (Kept config now) b /\ List.length b <> 1) ->
    exists t pass,
      filterOwned config now owned acc = (t, Done pass) /\
      Forall (Kept config now) (passFiltered pass) /\
      (forall o b, (o, b) ∈ passFilteredOwned pass ->
                   Forall (Kept config now) b /\ List.length b <> 1) /\
      (forall x, x ∈ passUnowned acc -> x ∈ passUnowned pass) /\
      (forall owner bucket t' r,
          (owner, bucket) ∈ owned ->
          applyFilters config now bucket = (t', Done [r]) ->
          r ∈ passUnowned pass).
Proof.
  induction owned as [|[owner ownerMap] rest IH]; intros acc Hf Hb.
  - exists [], acc. split; [reflexivity|]. split; [exact Hf|]. split; [exact Hb|].
    split; [auto|]. intros owner bucket t' r Hin. inversion Hin.
  - cbn [filterOwned].
    destruct (applyFilters_total config now ownerMap) as (t1 & resources & Ha).
    pose proof (applyFilters_Kept config now _ _ _ Ha) as HK.
    rewrite Ha.
    destruct (Nat.eqb (List.length resources) 1) eqn:El.
    + destruct (IH (mkOwnedPass (passUnowned acc ++ resources) (passFiltered acc)
                                (passFilteredOwned acc)))
        as (t2 & pass & Hrun & P1 & P2 & P3 & P4); [exact Hf|exact Hb|].
      exists (t1 ++ t2), pass. unfold bind. rewrite El, Hrun.
      split; [reflexivity|]. split; [exact P1|]. split; [exact P2|].
      split.
      * intros x Hx. apply P3. simpl. apply elem_of_app. now left.
      * intros owner' bucket t' r Hin Hr.
        apply elem_of_cons in Hin as [Hin|Hin]; [|eapply P4; eauto].
        injection Hin as -> ->. rewrite Ha in Hr. injection Hr as _ ->.
        apply P3. simpl. apply elem_of_app. right. left.
    + destruct (IH (mkOwnedPass (passUnowned acc) (passFiltered acc ++ resources)
                                (setBucket owner resources (passFilteredOwned acc))))
        as (t2 & pass & Hrun & P1 & P2 & P3 & P4).
      * simpl. apply Forall_app. split; assumption.
      * simpl. intros o b Hin. apply setBucket_elem in Hin as [->|Hin]; [|exact (Hb _ _ Hin)].
        split; [exact HK|]. intros E. rewrite E in El. discriminate.
      * exists (t1 ++ t2), pass. unfold bind. rewrite El, Hrun.
        split; [reflexivity|]. split; [exact P1|]. split; [exact P2|].
        split; [exact P3|].
        intros owner' bucket t' r Hin Hr.
        apply elem_of_cons in Hin as [Hin|Hin]; [|eapply P4; eauto].
        injection Hin as -> ->. rewrite Ha in Hr. injection Hr as _ ->. discriminate.
Qed.

Lemma dispatchOwned_cons o (rs : list Reapable) (rest : list (string * list Reapable)) :
  1 <= List.length rs ->
  exists tlog,
    dispatched tlog = [] /\
    (forall e, e ∈ tlog -> exists msg, e = LogEntry LError msg []) /\
    trace (dispatchOwned config ((o, rs) :: rest))
    = BatchReapableEvent rs [EventTag config] :: tlog ++ trace (dispatchOwned config rest) /\
    result (dispatchOwned config ((o, rs) :: rest)) = result (dispatchOwned config rest).
Proof.
  intros Hlen. cbn [dispatchOwned].
  destruct (Nat.ltb (List.length rs) 1) eqn:El; [apply Nat.ltb_lt in El; lia|].
  destruct (logIfError_run (batchEventError rs [EventTag config])) as (tlog & Hlog & Hd & He).
  exists tlog. split; [exact Hd|]. split; [exact He|].
  unfold NewBatchReapableEvent, emit, ret, bind. simpl. rewrite Hlog.
  now destruct (dispatchOwned config rest).

Qed.

Lemma dispatchUnowned_cons (r : Reapable) (rest : list Reapable) :
  exists tlog,
    dispatched tlog = [] /\
    (forall e, e ∈ tlog -> exists msg, e = LogEntry LError msg []) /\
    trace (dispatchUnowned config (r :: rest))
    = ReapableEvent r [EventTag config] :: tlog ++ trace (dispatchUnowned config rest) /\
    result (dispatchUnowned config (r :: rest)) = result (dispatchUnowned config rest).
Proof.
  cbn [dispatchUnowned].
  destruct (logIfError_run (eventError r [EventTag config])) as (tlog & Hlog & Hd & He).
  exists tlog. split; [exact Hd|]. split; [exact He|].
  unfold NewReapableEvent, emit, ret, bind. simpl. rewrite Hlog.
  now destruct (dispatchUnowned config rest).
Qed.

Lemma dispatched_app (t1 t2 : list Effect) :
  dispatched (t1 ++ t2) = dispatched t1 ++ dispatched t2.
Proof. unfold dispatched. apply flat_map_app. Qed.

(** The batch loop never fails, hands over only whole buckets, and never
    a bucket without resources. *)
Lemma dispatchOwned_run (l : list (string * list Reapable)) :
  result (dispatchOwned config l) = Done tt /\
  (forall rs tags, BatchReapableEvent rs tags ∈ trace (dispatchOwned config l) ->
                   1 <= List.length rs /\ exists o, (o, rs) ∈ l) /\
  (forall r tags, ReapableEvent r tags ∉ trace (dispatchOwned config l)).
Proof.
  induction l as [|[o rs] rest (IH1 & IH2 & IH3)].
  - simpl. split; [reflexivity|]. split; intros ? ? Hin; inversion Hin.
  - destruct (Nat.ltb (List.length rs) 1) eqn:El.
    + cbn [dispatchOwned]. rewrite El. simpl.
      split; [reflexivity|]. split; intros ? ? Hin; inversion Hin.
    + apply Nat.ltb_ge in El.
      destruct (dispatchOwned_cons o rs rest El) as (tlog & _ & Hlog & -> & ->).
      split; [exact IH1|]. split.
      * intros rs' tags Hin.
        apply elem_of_cons in Hin as [Hin|Hin].
        { injection Hin as -> _. split; [exact El|]. exists o. left. }
        apply elem_of_app in Hin as [Hin|Hin].
        { apply Hlog in Hin as (msg & Hmsg). discriminate. }
        destruct (IH2 _ _ Hin) as (Hlen & o' & Ho). split; [exact Hlen|].
        exists o'. now right.
      * intros r tags Hin.
        apply elem_of_cons in Hin as [Hin|Hin]; [discriminate|].
        apply elem_of_app in Hin as [Hin|Hin].
        { apply Hlog in Hin as (msg & Hmsg). discriminate. }
        exact (IH3 _ _ Hin).
Qed.

(** The individual loop never fails and attempts one event per resource,
    whatever the collaborator returns. *)
Lemma dispatchUnowned_run (l : list Reapable) :
  result (dispatchUnowned config l) = Done tt /\
  dispatched (trace (dispatchUnowned config l)) = l /\
  (forall rs tags, BatchReapableEvent rs tags ∉ trace (dispatchUnowned config l)) /\
  (forall r, r ∈ l -> ReapableEvent r [EventTag config] ∈ trace (dispatchUnowned config l)).
Proof.
  induction l as [|r rest (IH1 & IH2 & IH3 & IH4)].
  - simpl. split; [reflexivity|]. split; [reflexivity|].
    split; [intros ? ? Hin|intros ? Hin]; inversion Hin.
  - destruct (dispatchUnowned_cons r rest) as (tlog & Hd & Hlog & -> & ->).
    split; [exact IH1|]. split.
    { change (r :: dispatched (tlog ++ trace (dispatchUnowned config rest)) = r :: rest).
      now rewrite dispatched_app, Hd, IH2. }
    split.
    + intros rs tags Hin.
      apply elem_of_cons in Hin as [Hin|Hin]; [discriminate|].
      apply elem_of_app in Hin as [Hin|Hin].
      { apply Hlog in Hin as (msg & Hmsg). discriminate. }
      exact (IH3 _ _ Hin).
    + intros r' Hin. apply elem_of_cons in Hin as [->|Hin]; [left|].
      right. apply elem_of_app. right. now apply IH4.
Qed.

Lemma advance_fields (r : Resource) :
  Tags (advance now r) = Tags r /\ Dependency (advance now r) = Dependency r.
Proof.
  unfold advance. destruct (Until (reaperState r) <? now)%Z; [|auto].
  destruct (IncrementState now (reaperState r)). simpl. auto.
Qed.

Lemma reaped_fields (f : Reapable) :
  Tags (resourceOf (reaped now f)) = Tags (resourceOf f) /\
  Dependency (resourceOf (reaped now f)) = Dependency (resourceOf f).
Proof. destruct f; simpl; auto using advance_fields. Qed.

(** The shape of one tick: it always completes, and its result is built
    from the three passes. *)
Lemma reap_run (owned : list (string * list Reapable)) (unowned : list Reapable) :
  exists pass filteredUnowned t2 sums tloop,
    applyFilters config now (passUnowned pass) = (t2, Done filteredUnowned) /\
    Forall (Kept config now) (passFiltered pass) /\
    (forall o b, (o, b) ∈ passFilteredOwned pass ->
                 Forall (Kept config now) b /\ List.length b <> 1) /\
    (forall x, x ∈ unowned -> x ∈ passUnowned pass) /\
    (forall owner bucket t' r,
        (owner, bucket) ∈ owned ->
        applyFilters config now bucket = (t', Done [r]) -> r ∈ passUnowned pass) /\
    reap config now owned unowned
    = Done (mkReapResult (passUnowned pass) (passFiltered pass ++ filteredUnowned)
              (passFilteredOwned pass) filteredUnowned sums tloop
              (trace (dispatchOwned config
                        (map (fun b => (fst b, map (reaped now) (snd b))) (passFilteredOwned pass)))
               ++ trace (dispatchUnowned config (map (reaped now) filteredUnowned)))
              (trace (postStatistics config sums))).
Proof.
  destruct (filterOwned_run owned (mkOwnedPass unowned [] []))
    as (t1 & pass & Hpass & P1 & P2 & P3 & P4).
  { constructor. }
  { intros o b Hin. inversion Hin. }
  destruct (applyFilters_total config now (passUnowned pass)) as (t2 & fu & Hfu).
  destruct (reapLoop_total (passFiltered pass ++ fu) noSums) as (t3 & sums & Hloop).
  exists pass, fu, t2, sums, (t1 ++ t2 ++ t3).
  split; [exact Hfu|]. split; [exact P1|]. split; [exact P2|]. split; [exact P3|].
  split; [exact P4|].
  unfold reap. rewrite Hpass. unfold bind at 1. rewrite Hfu. unfold bind at 1.
  rewrite Hloop. unfold bind at 1. simpl.
  f_equal. f_equal; [now rewrite app_nil_r|].
  destruct (dispatchOwned_run
              (map (fun b => (fst b, map (reaped now) (snd b))) (passFilteredOwned pass)))
    as (Hd & _).
  destruct (dispatchOwned config _) as [td rd] eqn:Ed. simpl in Hd. subst rd.
  unfold trace, bind. simpl.
  now destruct (dispatchUnowned config (map (reaped now) fu)).
Qed.

Lemma reaped_kindConfig (f : Reapable) :
  kindConfig config (reaped now f) = kindConfig config f.
Proof. now destruct f. Qed.

Lemma dispatched_elem (t : list Effect) (x : Reapable) :
  x ∈ dispatched t ->
  (exists rs tags, BatchReapableEvent rs tags ∈ t /\ x ∈ rs) \/
  (exists tags, ReapableEvent x tags ∈ t).
Proof.
  unfold dispatched. rewrite list_elem_of_In, in_flat_map.
  intros (e & He & Hx). apply list_elem_of_In in He.
  destruct e; simpl in Hx; try contradiction.
  - left. exists rs, tags. split; [exact He|]. now apply list_elem_of_In.
  - right. destruct Hx as [->|[]]. eauto.
Qed.

(** One tick always completes; everything it counts as filtered was kept
    by an applyFilters iteration, everything it hands to the notification
    collaborator is such a resource after its reapX call, and no batch has
    fewer than two resources. *)
Lemma reap_kept (owned : list (string * list Reapable)) (unowned : list Reapable) :
  exists res,
    reap config now owned unowned = Done res /\
    Forall (Kept config now) (rrFiltered res) /\
    (forall x, x ∈ dispatched (rrDispatch res) ->
               exists y, Kept config now y /\ x = reaped now y) /\
    (forall rs tags, BatchReapableEvent rs tags ∈ rrDispatch res -> 2 <= List.length rs).
Proof.
  destruct (reap_run owned unowned)
    as (pass & fu & t2 & sums & tloop & Hfu & P1 & P2 & _ & _ & ->).
  pose proof (applyFilters_Kept config now _ _ _ Hfu) as Kfu.
  eexists. split; [reflexivity|]. cbn [rrFiltered rrDispatch].
  set (seen := map (fun b => (fst b, map (reaped now) (snd b))) (passFilteredOwned pass)).
  destruct (dispatchOwned_run seen) as (_ & B1 & B2).
  destruct (dispatchUnowned_run (map (reaped now) fu)) as (_ & U1 & U2 & _).
  assert (Hseen : forall o rs, (o, rs) ∈ seen ->
            exists b, rs = map (reaped now) b /\ Forall (Kept config now) b /\
                      List.length b <> 1).
  { intros o rs Hin. apply list_elem_of_In, in_map_iff in Hin as ([o' b] & E & Hin).
    injection E as <- <-. exists b. split; [reflexivity|].
    apply (P2 o'). now apply list_elem_of_In. }
  split; [apply Forall_app; split; assumption|]. split.
  - intros x Hx. rewrite dispatched_app in Hx. apply elem_of_app in Hx as [Hx|Hx].
    + apply dispatched_elem in Hx as [(rs & tags & He & Hx)|(tags & He)].
      * destruct (B1 _ _ He) as (_ & o & Ho).
        destruct (Hseen _ _ Ho) as (b & -> & Kb & _).
        apply list_elem_of_In, in_map_iff in Hx as (y & <- & Hy).
        exists y. split; [|reflexivity].
        rewrite Forall_forall in Kb. apply Kb. now apply list_elem_of_In.
      * now apply B2 in He.
    + rewrite U1 in Hx. apply list_elem_of_In, in_map_iff in Hx as (y & <- & Hy).
      exists y. split; [|reflexivity].
      rewrite Forall_forall in Kfu. apply Kfu. now apply list_elem_of_In.
  - intros rs tags Hin. apply elem_of_app in Hin as [Hin|Hin]; [|now apply U2 in Hin].
    destruct (B1 _ _ Hin) as (Hlen & o & Ho).
    destruct (Hseen _ _ Ho) as (b & -> & _ & Hne).
    rewrite length_map in *. lia.
Qed.

End ReapLoop.

(** ** Whitelist and dependency *)

(** C5. If the kinds whose Filter method is outside the sources answer
    "Tagged" by tag presence as the AutoScalingGroup method does, a
    resource carrying the whitelist tag (whatever its value and whatever
    groups it matched) is in no result of applyFilters, hence neither in
    the filtered set of a tick nor in any event the tick dispatches. *)
Theorem whitelisted_never_reaped `{Collaborators} :
  AnswersTagged ->
  forall (config : Config) (now : Z),
    (forall fs t gs x,
        applyFilters config now fs = (t, Done gs) -> x ∈ gs ->
        Tagged (resourceOf x) (WhitelistTag config) = false) /\
    (forall owned unowned,
        exists res,
          reap config now owned unowned = Done res /\
          (forall x, x ∈ rrFiltered res ->
                     Tagged (resourceOf x) (WhitelistTag config) = false) /\
          (forall x, x ∈ dispatched (rrDispatch res) ->
                     Tagged (resourceOf x) (WhitelistTag config) = false)).
Proof.
  intros Htag config now. split.
  - intros fs t gs x Hrun Hx.
    apply applyFilters_Kept in Hrun. rewrite Forall_forall in Hrun.
    apply Kept_not_whitelisted with (now := now); [exact Htag|]. now apply Hrun.
  - intros owned unowned.
    destruct (reap_kept config now owned unowned) as (res & Hres & KF & KD & _).
    exists res. split; [exact Hres|]. split.
    + intros x Hx. rewrite Forall_forall in KF.
      apply Kept_not_whitelisted with (now := now); [exact Htag|]. now apply KF.
    + intros x Hx. destruct (KD x Hx) as (y & Ky & ->).
      unfold Tagged. destruct (reaped_fields now y) as [-> _].
      now apply (Kept_not_whitelisted config now y Htag).
Qed.

(** C1 (amended). A resource whose dependency flag is set is kept out of
    the filtered set and of the dispatched events when its kind has at
    least one filter group and every group of the kind contains an
    IsDependency filter with a false argument; the flag by itself does
    not exclude it. *)
Theorem dependency_excluded_by_filter `{Collaborators} :
  AnswersIsDependency ->
  forall (config : Config) (now : Z) owned unowned,
    exists res,
      reap config now owned unowned = Done res /\
      forall x stat groups,
        x ∈ rrFiltered res \/ x ∈ dispatched (rrDispatch res) ->
        kindConfig config x = Some (stat, groups) ->
        requiresNonDependency groups ->
        Dependency (resourceOf x) = false.
Proof.
  intros Hdep config now owned unowned.
  destruct (reap_kept config now owned unowned) as (res & Hres & KF & KD & _).
  exists res. split; [exact Hres|].
  intros x stat groups [Hx|Hx] Hk Hreq.
  - rewrite Forall_forall in KF.
    eapply Kept_not_dependency; eauto.
  - destruct (KD x Hx) as (y & Ky & ->).
    destruct (reaped_fields now y) as [_ ->].
    rewrite reaped_kindConfig in Hk.
    eapply Kept_not_dependency; eauto.
Qed.

(** ** Panics inside a batch, and the single survivor of an owner *)

Section Batches.
Context `{Collaborators}.
Variables (config : Config) (now : Z).

(** A batch that contains a resource on which the loop body panics never
    reaches its regular end. *)
Lemma applyFiltersLoop_fault (fs : list Reapable) (f : Reapable) stat groups p :
  f ∈ fs ->
  kindConfig config f = Some (stat, groups) ->
  result (filterOne config now groups f) = Panicked p ->
  forall wc gs,
    result (applyFiltersLoop config now fs wc gs) = Done [] \/
    exists p', result (applyFiltersLoop config now fs wc gs) = Panicked p'.
Proof.
  intros Hin Hk Hp. induction fs as [|g rest IH]; intros wc gs; [inversion Hin|].
  cbn [applyFiltersLoop].
  destruct (kindConfig config g) as [[stat' groups']|] eqn:Eg; [|left; reflexivity].
  destruct (filterOne config now groups' g) as [t1 [[[m g'] w]|q]] eqn:Eone.
  - rewrite result_bind_Done with (a := (m, g', w)) by reflexivity.
    apply elem_of_cons in Hin as [->|Hin]; [|now apply IH].
    rewrite Hk in Eg. injection Eg as <- <-. rewrite Eone in Hp. discriminate.
  - right. exists q. now apply result_bind_Panicked.
Qed.

Lemma Reapable_Filter_same (a b : Reapable) (filter : Filter) :
  FiltersIgnoreGroups -> sameResource a b ->
  Reapable_Filter now a filter = Reapable_Filter now b filter.
Proof.
  intros Hign. unfold sameResource.
  destruct a as [r|[r d c i]|r|r|r|r], b as [q|[q d' c' i']|q|q|q|q]; simpl; intros E;
    try discriminate;
    pose proof (f_equal resourceOf E) as Er; simpl in Er;
    try (apply Hign; exact Er).
  injection E as _ _ _ _ _ _ _ -> -> ->.
  destruct r, q. injection Er as -> -> -> -> -> -> ->. reflexivity.
Qed.

Lemma ApplyFilters_same (group : FilterGroup) (a b : Reapable) :
  FiltersIgnoreGroups -> sameResource a b ->
  ApplyFilters now a group = ApplyFilters now b group.
Proof.
  intros Hign Hs. induction group as [|[name filter] rest IH]; [reflexivity|].
  cbn [ApplyFilters]. rewrite (Reapable_Filter_same a b filter Hign Hs).
  destruct (Reapable_Filter now b filter) as [t [[|]|p]]; simpl; [|reflexivity..].
  now rewrite IH.
Qed.

Lemma sameResource_map (g : Resource -> Resource) (a b : Reapable) :
  (forall r, stripGroups (g r) = stripGroups r) ->
  sameResource a b -> sameResource (mapResource g a) (mapResource g b).
Proof.
  intros Hg Hs.
  assert (G : forall f, sameResource (mapResource g f) f)
    by (intros f; unfold sameResource; destruct f; simpl; now rewrite Hg).
  eapply sameResource_trans; [apply G|].
  eapply sameResource_trans; [exact Hs|]. symmetry. apply G.
Qed.

Lemma matchGroups_same_run (groups : list (string * FilterGroup)) :
  FiltersIgnoreGroups ->
  forall a b m t r x,
    sameResource a b ->
    matchGroups now a groups m = (t, Done (r, x)) ->
    exists y, matchGroups now b groups m = (t, Done (r, y)) /\ sameResource x y.
Proof.
  intros Hign. induction groups as [|[name group] rest IH]; intros a b m t r x Hs Hrun.
  - injection Hrun as <- <- <-. exists b. split; [reflexivity|exact Hs].
  - cbn [matchGroups] in *. rewrite <- (ApplyFilters_same group a b Hign Hs).
    apply bind_Done in Hrun as (t1 & didMatch & t2 & Hd & Hrest & ->).
    rewrite Hd. unfold bind. destruct didMatch.
    + destruct (IH (mapResource (AddFilterGroup name group) a)
                   (mapResource (AddFilterGroup name group) b) true t2 r x)
        as (y & Hy & Hxy); [now apply sameResource_map|exact Hrest|].
      exists y. now rewrite Hy.
    + destruct (IH a b m t2 r x Hs Hrest) as (y & Hy & Hxy).
      exists y. now rewrite Hy.
Qed.

(** Filtering a resource again, with the groups of the first pass already
    recorded on it, runs the same way. *)
Lemma filterOne_same (groups : list (string * FilterGroup)) (a b x : Reapable) t m w :
  FiltersIgnoreGroups -> sameResource a b ->
  filterOne config now groups a = (t, Done (m, x, w)) ->
  exists y, filterOne config now groups b = (t, Done (m, y, w)) /\ sameResource x y.
Proof.
  intros Hign Hs Hrun.
  apply filterOne_inv in Hrun as (t1 & t2 & m0 & Hm & Hw & -> & ->).
  destruct (matchGroups_same_run groups Hign a b _ _ _ _ Hs Hm) as (y & Hy & Hxy).
  exists y. split; [|exact Hxy].
  unfold filterOne. rewrite Hy. unfold bind at 1. cbn [snd fst].
  rewrite <- (Reapable_Filter_same x y _ Hign Hxy), Hw. simpl.
  now rewrite app_nil_r.
Qed.

(** On a batch where every iteration runs to its end the loop returns all
    the resources it matched. *)
Lemma applyFiltersLoop_complete (fs : list Reapable) :
  Forall (Evaluates config now) fs ->
  forall wc gs,
    exists t out,
      applyFiltersLoop config now fs wc gs = (t, Done out) /\
      (forall x, x ∈ gs -> x ∈ out) /\
      (forall f stat groups t' x w,
          f ∈ fs -> kindConfig config f = Some (stat, groups) ->
          filterOne config now groups f = (t', Done (true, x, w)) -> x ∈ out).
Proof.
  induction 1 as [|f rest (stat & groups & t1 & [[m f'] w] & Hk & Hone) _ IH]; intros wc gs.
  - cbn [applyFiltersLoop].
    pose proof (emitWhitelisted_Done config (map_to_list wc)) as He.
    destruct (emitWhitelisted config (map_to_list wc)) as [te re]. simpl in He. subst re.
    exists (te ++ []), gs. split; [reflexivity|]. split; [auto|].
    intros ? ? ? ? ? ? Hin. inversion Hin.
  - cbn [applyFiltersLoop]. rewrite Hk, Hone. unfold bind at 1.
    destruct (IH (if w then incr stat wc else wc) (if m then gs ++ [f'] else gs))
      as (t2 & out & -> & Hgs & Hrest).
    exists (t1 ++ t2), out. split; [reflexivity|]. split.
    + intros x Hx. apply Hgs. destruct m; [apply elem_of_app; now left|exact Hx].
    + intros g stat' groups' t' x w' Hin Hk' Hone'.
      apply elem_of_cons in Hin as [->|Hin]; [|eapply Hrest; eauto].
      rewrite Hk in Hk'. injection Hk' as <- <-. rewrite Hone in Hone'.
      injection Hone' as _ -> -> _. apply Hgs. apply elem_of_app. right. left.
Qed.

End Batches.

(** ** Scenarios *)

Lemma quietWorld_AnswersTagged : @AnswersTagged quietWorld.
Proof. intros r key. repeat split; reflexivity. Qed.

Lemma quietWorld_AnswersIsDependency : @AnswersIsDependency quietWorld.
Proof.
  intros r arg rest b Hb filter. subst filter. simpl.
  unfold sharedFilter, BoolValue, index. simpl. rewrite Hb. repeat split; reflexivity.
Qed.

Lemma quietWorld_FiltersIgnoreGroups : @FiltersIgnoreGroups quietWorld.
Proof.
  intros r1 r2 filter E. destruct r1, r2. injection E as -> -> -> -> -> -> ->.
  repeat split; reflexivity.
Qed.

(** C1 (counterexample). The scenario of section 8: an AutoScalingGroup
    that the inference pass marked as dependency and stack member, and a
    "size > 0" group that it matches.  It is in the filtered set, written
    to the registry and dispatched in an individual event. *)
Lemma dependency_flag_alone_does_not_exclude :
  Dependency (resourceOf asgDep) = true /\
  exists res,
    @reap quietWorld sizeConfig 50 [] [asgDep] = Done res /\
    ids (rrFiltered res) = ["asg-1"] /\
    map (fun f => Dependency (resourceOf f)) (rrFiltered res) = [true] /\
    registryKeys (rrLoop res) = [("us-east-1", "asg-1")] /\
    ids (dispatched (rrDispatch res)) = ["asg-1"].
Proof.
  split; [reflexivity|]. eexists. split; [reflexivity|].
  repeat split; vm_compute; reflexivity.
Qed.

(** C2. The batch loop stops at the first empty bucket, whatever follows
    it.  Owner a has one whitelisted group, so an empty bucket is recorded
    for a; owner b has two surviving groups.  When the batch loop meets
    a's bucket first it leaves the loop, and b's batch is never attempted;
    in the other order b's batch is sent. *)
Theorem empty_bucket_stops_batch_dispatch :
  (forall (world : Collaborators) (config : Config) owner rest,
      @dispatchOwned world config ((owner, []) :: rest) = ([], Done tt)) /\
  (exists res,
      @reap quietWorld openConfig 50
            [("a@example.com", [asgSpared]);
             ("b@example.com", [asgPlain "asg-x"; asgPlain "asg-y"])] []
      = Done res /\
      map (fun b => (fst b, ids (snd b))) (rrFilteredOwned res)
      = [("a@example.com", []); ("b@example.com", ["asg-x"; "asg-y"])] /\
      ids (rrFiltered res) = ["asg-x"; "asg-y"] /\
      rrDispatch res = []) /\
  (exists res,
      @reap quietWorld openConfig 50
            [("b@example.com", [asgPlain "asg-x"; asgPlain "asg-y"]);
             ("a@example.com", [asgSpared])] []
      = Done res /\
      rrDispatch res
      = [BatchReapableEvent [asgPlain "asg-x"; asgPlain "asg-y"] ["env:test"]]).
Proof.
  split; [reflexivity|].
  split; eexists; (split; [reflexivity|]); repeat split; vm_compute; reflexivity.
Qed.

(** ** Statistics of a tick *)

Section Statistics.
Context `{Collaborators}.
Variable config : Config.

Lemma postSums_run (name : string) (sums : list (string * nat)) :
  result (postSums config name sums) = Done tt /\
  forall e, e ∈ trace (postSums config name sums) ->
            (exists msg, e = LogEntry LError msg []) \/
            (exists value tags, e = StatisticEvent name value tags).
Proof.
  induction sums as [|[region sum] rest (IH1 & IH2)].
  - split; [reflexivity|]. intros e He. inversion He.
  - cbn [postSums]. unfold NewStatistic, emit, ret, bind. simpl.
    destruct (logIfError_run
                (statisticError name (Z.of_nat sum) ["region:" +:+ region; EventTag config]))
      as (tlog & -> & _ & Hlog).
    destruct (postSums config name rest) as [t r]. simpl in *. split; [exact IH1|].
    intros e He. apply elem_of_cons in He as [->|He]; [right; eauto|].
    apply elem_of_app in He as [He|He]; [left; now apply Hlog|now apply IH2].
Qed.

Lemma trace_bind_app {A B} (m : M A) (k : A -> M B) (e : Effect) :
  e ∈ trace (bind m k) -> e ∈ trace m \/ exists a, result m = Done a /\ e ∈ trace (k a).
Proof.
  unfold trace, result, bind. destruct m as [t [a|p]]; simpl; [|now left].
  destruct (k a) as [t' r] eqn:Ek. simpl. intros He.
  apply elem_of_app in He as [He|He]; [now left|]. right. exists a. now rewrite Ek.
Qed.

(** The statistics goroutine posts under four names only. *)
Lemma postStatistics_names (sums : Sums) (e : Effect) (name : string) :
  e ∈ trace (postStatistics config sums) -> statisticName e = Some name ->
  name ∈ ["reaper.instances.filtered"; "reaper.asgs.filtered";
          "reaper.cloudformations.filtered"; "reaper.securitygroups.filtered"].
Proof.
  unfold postStatistics. intros He Hn.
  assert (G : forall n l, e ∈ trace (postSums config n l) -> name = n).
  { intros n l Hin. apply postSums_run in Hin as [(msg & ->)|(v & tags & ->)];
      [discriminate|]. now injection Hn. }
  apply trace_bind_app in He as [He|(_ & _ & He)]; [apply G in He as ->; set_solver|].
  apply trace_bind_app in He as [He|(_ & _ & He)]; [apply G in He as ->; set_solver|].
  apply trace_bind_app in He as [He|(_ & _ & He)]; [apply G in He as ->; set_solver|].
  apply G in He as ->. set_solver.
Qed.

End Statistics.

(** C4. No tick posts a filtered-count statistic for volumes: the
    goroutine posts under the names of the four other kinds only.  With
    one volume and one instance surviving in us-east-1, the volume counter
    of the region is 1 and the only statistic posted is the instance one. *)
Theorem volume_filtered_count_never_posted :
  (forall (world : Collaborators) (config : Config) (now : Z) owned unowned,
      exists res,
        @reap world config now owned unowned = Done res /\
        forall e, e ∈ rrStatistics res ->
                  statisticName e <> Some "reaper.volumes.filtered") /\
  (exists res,
      @reap quietWorld openConfig 50 [] [volume1; instance1] = Done res /\
      ids (rrFiltered res) = ["vol-1"; "i-999"] /\
      filteredVolumeSums (rrSums res) !! "us-east-1" = Some 1 /\
      rrStatistics res
      = [StatisticEvent "reaper.instances.filtered" 1 ["region:us-east-1"; "env:test"]]).
Proof.
  split.
  - intros world config now owned unowned.
    destruct (@reap_run world config now owned unowned)
      as (pass & fu & t2 & sums & tloop & _ & _ & _ & _ & _ & ->).
    eexists. split; [reflexivity|]. cbn [rrStatistics].
    intros e He Hn. apply (postStatistics_names config sums e _ He) in Hn.
    repeat (apply elem_of_cons in Hn as [Hn|Hn]; [discriminate|]). inversion Hn.
  - eexists. split; [reflexivity|]. repeat split; vm_compute; reflexivity.
Qed.

(** ** Saved state scenarios *)

(** A state file whose only line names a configured region loads, and
    discovery then overrides the state of the resource with that region
    and id. *)
Lemma LoadState_single_line `{Collaborators} (config : Config) (stateFile text region id tag : string) :
  Split text = [region; id; tag] ->
  region ∈ Regions config ->
  exists t saved,
    LoadState config stateFile (Some [text]) = (t, Done saved) /\
    forall r, Region r = region -> ID r = id ->
              reaperState (restoreSavedState saved r) = NewStateWithTag tag.
Proof.
  intros Hsplit Hin.
  destruct (initSavedStates_configured (Regions config) region Hin) as (inner & Hinner).
  unfold LoadState. cbn [default].
  rewrite (loadLines_stores text region id tag [] _ inner Hsplit Hinner).
  simpl. eexists _, _. split; [reflexivity|].
  intros r <- <-. unfold restoreSavedState.
  rewrite lookup_insert_eq, lookup_insert_eq. reflexivity.
Qed.

(** C7. A state file holding the line of section 8 followed by a line for
    eu-west-1, with only us-east-1 configured: LoadState panics on the
    second line.  Without that line the file loads, the malformed line
    "garbage" is skipped with an error log, and the state saved for i-999
    replaces the initial one at discovery. *)
Theorem state_line_for_unconfigured_region_is_fatal `{Collaborators} :
  result (LoadState openConfig "reaper.state" (Some [savedLine; foreignLine]))
  = Panicked NilMapAssignment /\
  exists saved,
    LoadState openConfig "reaper.state" (Some ["garbage"; savedLine])
    = ([LogEntry LError "Malformed saved state " ["garbage"];
        LogEntry LInfo "States loaded from " ["reaper.state"]], Done saved) /\
    reaperState (restoreSavedState saved (plainResource "us-east-1" "i-999"))
    = NewStateWithTag "FIRST|1700000000|1700003600".
Proof.
  split; [reflexivity|]. eexists. split; reflexivity.
Qed.

(** ** The theorems at concrete inputs *)

Lemma guardedConfig_requiresNonDependency :
  requiresNonDependency (FilterGroups (cfgAutoScalingGroups guardedConfig)).
Proof.
  split; [discriminate|]. intros g Hg.
  apply list_elem_of_In in Hg. simpl in Hg. destruct Hg as [<-|[]].
  exists "dep", "false", []. split; [left|reflexivity].
Qed.

Lemma LoadState_faults_on_unconfigured_region_witness :
  (foreignLine ∈ [savedLine; foreignLine]) /\
  Split foreignLine = ["eu-west-1"; "i-1"; "FIRST|1700000000|1700003600"] /\
  ("eu-west-1" ∉ Regions openConfig) /\
  result (@LoadState quietWorld openConfig "reaper.state" (Some [savedLine; foreignLine]))
  = Panicked NilMapAssignment.
Proof.
  assert (H1 : foreignLine ∈ [savedLine; foreignLine]) by (right; left).
  assert (H2 : Split foreignLine = ["eu-west-1"; "i-1"; "FIRST|1700000000|1700003600"])
    by reflexivity.
  assert (H3 : "eu-west-1" ∉ Regions openConfig).
  { intros Hin. apply list_elem_of_In in Hin. simpl in Hin.
    destruct Hin as [E|[]]. discriminate E. }
  split; [exact H1|]. split; [exact H2|]. split; [exact H3|].
  exact (@LoadState_faults_on_unconfigured_region quietWorld openConfig "reaper.state"
           [savedLine; foreignLine] foreignLine _ _ _ H1 H2 H3).
Defined.

(** C8 (counterexample). With a token that token.Tokenize refuses to
    make, makeTerminateLink on the empty API URL returns the empty string
    and the error of Tokenize; makeURL is not reached and nothing
    panics. *)
Lemma empty_api_url_with_failed_token_returns_error :
  snd (@Tokenize brokenTokenWorld "secret" (NewTerminateJob "us-east-1" "i-999"))
  = Some "bad secret" /\
  @makeTerminateLink brokenTokenWorld (mkHTTPConfig "a" "t" "" "secret")
     "us-east-1" "i-999" "secret" ""
  = ([], Done ("", Some "bad secret")).
Proof. split; reflexivity. Qed.

Lemma empty_api_url_panics_witness :
  snd (@Tokenize quietWorld "secret" (NewTerminateJob "us-east-1" "i-999")) = None /\
  @makeTerminateLink quietWorld (mkHTTPConfig "a" "t" "" "secret") "us-east-1" "i-999" "secret" ""
  = emptyHostFault.
Proof.
  split; [reflexivity|].
  destruct (@empty_api_url_panics quietWorld (mkHTTPConfig "a" "t" "" "secret")
              "us-east-1" "i-999" "secret") as (_ & _ & Hterminate & _).
  apply Hterminate. reflexivity.
Defined.

Lemma whitelisted_never_reaped_witness :
  @AnswersTagged quietWorld /\
  exists res,
    @reap quietWorld sizeConfig 50
          [("a@example.com", [asgSpared; asgPlain "asg-x"; asgPlain "asg-y"])] []
    = Done res /\
    (forall x, x ∈ rrFiltered res -> Tagged (resourceOf x) "REAPER_SPARE_ME" = false) /\
    (forall x, x ∈ dispatched (rrDispatch res) ->
               Tagged (resourceOf x) "REAPER_SPARE_ME" = false).
Proof.
  split; [exact quietWorld_AnswersTagged|].
  exact (proj2 (@whitelisted_never_reaped quietWorld quietWorld_AnswersTagged sizeConfig 50)
               [("a@example.com", [asgSpared; asgPlain "asg-x"; asgPlain "asg-y"])] []).
Defined.

Lemma dependency_excluded_by_filter_witness :
  @AnswersIsDependency quietWorld /\
  requiresNonDependency (FilterGroups (cfgAutoScalingGroups guardedConfig)) /\
  exists res,
    @reap quietWorld guardedConfig 50 [] [asgDep; asgPlain "asg-2"] = Done res /\
    ids (rrFiltered res) = ["asg-2"] /\
    forall x, x ∈ rrFiltered res -> Dependency (resourceOf x) = false.
Proof.
  split; [exact quietWorld_AnswersIsDependency|].
  split; [exact guardedConfig_requiresNonDependency|].
  destruct (@dependency_excluded_by_filter quietWorld quietWorld_AnswersIsDependency
              guardedConfig 50 [] [asgDep; asgPlain "asg-2"]) as (res & Hres & Hall).
  exists res. split; [exact Hres|].
  vm_compute in Hres. injection Hres as <-.
  split; [reflexivity|].
  intros x Hx.
  apply (Hall x "reaper.asgs.whitelistedCount"
              (FilterGroups (cfgAutoScalingGroups guardedConfig)));
    [now left| |exact guardedConfig_requiresNonDependency].
  apply list_elem_of_In in Hx. simpl in Hx. destruct Hx as [<-|[]]. reflexivity.
Defined.

(** * Further properties of the code *)

(** ** aws/http.go *)

Section LinkProperties.
Context `{Collaborators}.

Lemma append_cons_string (x : ascii) (a b : string) :
  String x a +:+ b = String x (a +:+ b).
Proof. reflexivity. Qed.

Lemma append_assoc_string (a b c : string) : (a +:+ b) +:+ c = a +:+ (b +:+ c).
Proof.
  induction a as [|x a IH]; [reflexivity|].
  rewrite !append_cons_string. now rewrite IH.
Qed.

Lemma length_append_string (a b : string) :
  String.length (a +:+ b) = String.length a + String.length b.
Proof.
  induction a as [|x a IH]; [reflexivity|].
  rewrite append_cons_string. simpl. now rewrite IH.
Qed.

Lemma dropString_append (a b : string) : dropString (String.length a) (a +:+ b) = b.
Proof.
  induction a as [|x a IH]; [now destruct b|].
  rewrite append_cons_string. exact IH.
Qed.

(** host[len(host)-1:] of a host ending in the byte c. *)
Lemma sliceFrom_last (h : string) (c : ascii) :
  sliceFrom (h +:+ String c "") (Z.of_nat (String.length (h +:+ String c "")) - 1)
  = ret (String c "").
Proof.
  unfold sliceFrom. rewrite length_append_string. simpl String.length.
  replace (Z.of_nat (String.length h + 1) - 1)%Z with (Z.of_nat (String.length h)) by lia.
  destruct (Z.of_nat (String.length h) <? 0)%Z eqn:E1; [apply Z.ltb_lt in E1; lia|].
  destruct (Z.of_nat (String.length h + 1) <? Z.of_nat (String.length h))%Z eqn:E2;
    [apply Z.ltb_lt in E2; lia|].
  simpl. rewrite Nat2Z.id, dropString_append. reflexivity.
Qed.

Lemma nonempty_string_snoc (s : string) :
  s <> "" -> exists h c, s = h +:+ String c "".
Proof.
  induction s as [|x s IH]; [congruence|]. intros _.
  destruct s as [|y s'].
  - exists "", x. reflexivity.
  - destruct IH as (h & c & E); [discriminate|]. exists (String x h), c.
    rewrite append_cons_string. now rewrite E.
Qed.

Lemma eqb_host_snoc (h : string) (c : ascii) : String.eqb (h +:+ String c "") "" = false.
Proof. now destruct h. Qed.

(** X1. On a non-empty host makeURL neither logs nor panics.  A host that
    ends in "/" gets "?" and the query appended, any other host gets "/?"
    and the query, so a trailing slash on the API URL makes no
    difference to the link. *)
Theorem makeURL_nonempty_host :
  forall (http : HTTPConfig) (h : string) (c : ascii) (action token : string),
    let host := h +:+ String c "" in
    makeURL http host action token
    = ([], Done (if Ascii.eqb c "/" then host +:+ "?" +:+ encodedQuery http action token
                 else host +:+ "/?" +:+ encodedQuery http action token)) /\
    (Ascii.eqb c "/" = false ->
     makeURL http (host +:+ "/") action token = makeURL http host action token).
Proof.
  intros http h c action token host.
  assert (G : forall h' c', makeURL http (h' +:+ String c' "") action token
              = ([], Done (if Ascii.eqb c' "/"
                           then (h' +:+ String c' "") +:+ "?" +:+ encodedQuery http action token
                           else (h' +:+ String c' "") +:+ "/?" +:+ encodedQuery http action token))).
  { intros h' c'. unfold makeURL. rewrite eqb_host_snoc, sliceFrom_last.
    unfold encodedQuery, ret, bind. simpl.
    destruct (Ascii.eqb c' "/"); reflexivity. }
  split; [apply G|].
  intros Hc. subst host. rewrite (G h c), Hc.
  rewrite (G (h +:+ String c "") "/"%char).
  simpl Ascii.eqb. cbv iota. rewrite !append_assoc_string. reflexivity.
Qed.

(** X2. When token.Tokenize returns an error, each link constructor
    returns the empty string with that error and never reaches makeURL,
    so it does not panic even on an empty API URL; the whitelist, stop
    and force-stop constructors log the error first, the schedule,
    terminate and ignore constructors do not. *)
Theorem link_constructors_return_tokenize_error :
  forall (http : HTTPConfig) (region id tokenSecret apiURL err : string),
    (forall down up, snd (Tokenize tokenSecret (NewScheduleJob region id down up)) = Some err ->
        makeScheduleLink http region id tokenSecret apiURL down up = ([], Done ("", Some err))) /\
    (snd (Tokenize tokenSecret (NewTerminateJob region id)) = Some err ->
        makeTerminateLink http region id tokenSecret apiURL = ([], Done ("", Some err))) /\
    (forall duration, snd (Tokenize tokenSecret (NewDelayJob region id duration)) = Some err ->
        makeIgnoreLink http region id tokenSecret apiURL duration = ([], Done ("", Some err))) /\
    (snd (Tokenize tokenSecret (NewWhitelistJob region id)) = Some err ->
        makeWhitelistLink http region id tokenSecret apiURL
        = ([LogEntry LError "Error creating whitelist link: " [err]], Done ("", Some err))) /\
    (snd (Tokenize tokenSecret (NewStopJob region id)) = Some err ->
        makeStopLink http region id tokenSecret apiURL
        = ([LogEntry LError "Error creating ScaleToZero link: " [err]], Done ("", Some err))) /\
    (snd (Tokenize tokenSecret (NewForceStopJob region id)) = Some err ->
        makeForceStopLink http region id tokenSecret apiURL
        = ([LogEntry LError "Error creating ScaleToZero link: " [err]], Done ("", Some err))).
Proof.
  intros http region id tokenSecret apiURL err.
  unfold makeScheduleLink, makeTerminateLink, makeIgnoreLink, makeWhitelistLink,
    makeStopLink, makeForceStopLink.
  split; [|split; [|split; [|split; [|split]]]]; intros;
    match goal with
    | Hs : snd (Tokenize ?s ?j) = Some _ |- _ =>
        destruct (Tokenize s j) as [tok e]; simpl in Hs; subst e
    end; reflexivity.
Qed.

End LinkProperties.

Lemma makeURL_nonempty_host_witness :
  Ascii.eqb "r" "/" = false /\
  @makeURL quietWorld (mkHTTPConfig "a" "t" "http://reaper" "secret") "http://reaper/" "stop" "tok"
  = @makeURL quietWorld (mkHTTPConfig "a" "t" "http://reaper" "secret") "http://reaper" "stop" "tok".
Proof.
  split; [reflexivity|].
  exact (proj2 (@makeURL_nonempty_host quietWorld (mkHTTPConfig "a" "t" "http://reaper" "secret")
                  "http://reape" "r"%char "stop" "tok") eq_refl).
Defined.

Lemma link_constructors_return_tokenize_error_witness :
  snd (@Tokenize brokenTokenWorld "secret" (NewWhitelistJob "us-east-1" "i-999"))
  = Some "bad secret" /\
  @makeWhitelistLink brokenTokenWorld (mkHTTPConfig "a" "t" "" "secret")
     "us-east-1" "i-999" "secret" ""
  = ([LogEntry LError "Error creating whitelist link: " ["bad secret"]],
     Done ("", Some "bad secret")).
Proof.
  split; [reflexivity|].
  destruct (@link_constructors_return_tokenize_error brokenTokenWorld
              (mkHTTPConfig "a" "t" "" "secret") "us-east-1" "i-999" "secret" "" "bad secret")
    as (_ & _ & _ & Hw & _).
  apply Hw. reflexivity.
Defined.

(** ** aws/autoscaling.go: Filter *)

Section FilterProperties.
Context `{Collaborators}.
Variables (now : Z) (a : AutoScalingGroup).

(** X3. AutoScalingGroup.Filter panics exactly on a missing argument:
    each of the eighteen functions that read Arguments[0] panics with an
    index out of range on an empty argument list, TagNotEqual also on a
    single argument; with the argument present none of them panics or
    logs, and Region / NotRegion accept any argument list. *)
Theorem filter_panics_on_missing_argument :
  Forall (fun fn => AutoScalingGroup_Filter now a (NewFilter fn [])
                    = ([], Panicked (IndexOutOfRange 0 0))) firstArgumentFunctions /\
  (forall arg, AutoScalingGroup_Filter now a (NewFilter "TagNotEqual" [arg])
               = ([], Panicked (IndexOutOfRange 1 1))) /\
  Forall (fun fn => forall arg1 arg2 rest,
              exists b, AutoScalingGroup_Filter now a (NewFilter fn (arg1 :: arg2 :: rest))
                        = ([], Done b)) firstArgumentFunctions /\
  Forall (fun fn => fn = "TagNotEqual" \/
              forall arg, exists b, AutoScalingGroup_Filter now a (NewFilter fn [arg])
                                    = ([], Done b)) firstArgumentFunctions /\
  (forall args, exists b, AutoScalingGroup_Filter now a (NewFilter "Region" args) = ([], Done b)) /\
  (forall args, exists b, AutoScalingGroup_Filter now a (NewFilter "NotRegion" args) = ([], Done b)).
Proof.
  unfold firstArgumentFunctions.
  split; [repeat (constructor; [reflexivity|]); constructor|].
  split; [reflexivity|].
  split; [repeat (constructor; [intros; eexists; reflexivity|]); constructor|].
  split.
  { repeat (constructor;
            [first [right; intros; eexists; reflexivity | left; reflexivity]|]).
    constructor. }
  split; intros; eexists; reflexivity.
Qed.

(** X4. The negated filters are the negations of their positive
    counterparts on every resource and argument: NotTagged / Tagged,
    NotNamed / Named, NotNameContains / NameContains, NotReaperState /
    ReaperState, and NotRegion / Region (for every argument list, the
    empty one included, where Region is non-match and NotRegion match). *)
Theorem negated_filters_are_complements :
  (forall arg rest,
      exists b,
        AutoScalingGroup_Filter now a (NewFilter "Tagged" (arg :: rest)) = ([], Done b) /\
        AutoScalingGroup_Filter now a (NewFilter "NotTagged" (arg :: rest)) = ([], Done (negb b))) /\
  (forall arg rest,
      exists b,
        AutoScalingGroup_Filter now a (NewFilter "Named" (arg :: rest)) = ([], Done b) /\
        AutoScalingGroup_Filter now a (NewFilter "NotNamed" (arg :: rest)) = ([], Done (negb b))) /\
  (forall arg rest,
      exists b,
        AutoScalingGroup_Filter now a (NewFilter "NameContains" (arg :: rest)) = ([], Done b) /\
        AutoScalingGroup_Filter now a (NewFilter "NotNameContains" (arg :: rest))
        = ([], Done (negb b))) /\
  (forall arg rest,
      exists b,
        AutoScalingGroup_Filter now a (NewFilter "ReaperState" (arg :: rest)) = ([], Done b) /\
        AutoScalingGroup_Filter now a (NewFilter "NotReaperState" (arg :: rest))
        = ([], Done (negb b))) /\
  (forall args,
      exists b,
        AutoScalingGroup_Filter now a (NewFilter "Region" args) = ([], Done b) /\
        AutoScalingGroup_Filter now a (NewFilter "NotRegion" args) = ([], Done (negb b))) /\
  AutoScalingGroup_Filter now a (NewFilter "Region" []) = ([], Done false) /\
  AutoScalingGroup_Filter now a (NewFilter "NotRegion" []) = ([], Done true).
Proof.
  repeat (split; [intros; eexists; split; reflexivity|]).
  split; reflexivity.
Qed.

(** X6. CreatedTimeInTheLast and CreatedTimeNotInTheLast read the clock,
    each at its own call.  Read at the same instant, or with
    CreatedTimeNotInTheLast read no later than CreatedTimeInTheLast, they
    never both match the same group and argument; read at two instants,
    both match exactly when the duration lies strictly between the age of
    the group at the reading of CreatedTimeInTheLast and its age at the
    reading of CreatedTimeNotInTheLast.  Neither matches when the group
    has no creation time or the duration does not parse, nor at a reading
    at which the age equals the duration.  (Ages are exact integers here;
    time.Since saturates at the limits of int64.) *)
Theorem created_time_filters_exclude_each_other :
  forall (now1 now2 : Z) arg rest,
    exists inLast notInLast,
      AutoScalingGroup_Filter now1 a (NewFilter "CreatedTimeInTheLast" (arg :: rest))
      = ([], Done inLast) /\
      AutoScalingGroup_Filter now2 a (NewFilter "CreatedTimeNotInTheLast" (arg :: rest))
      = ([], Done notInLast) /\
      ((now2 <= now1)%Z -> inLast && notInLast = false) /\
      (inLast && notInLast = true <->
       exists d created,
         ParseDuration arg = Some d /\ CreatedTime a = Some created /\
         (now1 - created < d)%Z /\ (d < now2 - created)%Z) /\
      (CreatedTime a = None -> inLast = false /\ notInLast = false) /\
      (ParseDuration arg = None -> inLast = false /\ notInLast = false) /\
      (forall created, CreatedTime a = Some created ->
          (ParseDuration arg = Some (now1 - created)%Z -> inLast = false) /\
          (ParseDuration arg = Some (now2 - created)%Z -> notInLast = false)).
Proof.
  intros now1 now2 arg rest. eexists _, _. split; [reflexivity|]. split; [reflexivity|].
  destruct (ParseDuration arg) as [d|], (CreatedTime a) as [t|]; simpl.
  - split.
    { intros Hle. destruct (now1 - t <? d)%Z eqn:E1, (d <? now2 - t)%Z eqn:E2; try reflexivity.
      apply Z.ltb_lt in E1, E2. lia. }
    split.
    { split.
      - intros Hb. apply andb_prop in Hb as [E1 E2]. apply Z.ltb_lt in E1, E2.
        exists d, t. auto.
      - intros (d' & t' & [= <-] & [= <-] & E1 & E2).
        apply Z.ltb_lt in E1, E2. now rewrite E1, E2. }
    split; [discriminate|]. split; [discriminate|].
    intros created [= <-]. split; intros [= ->]; apply Z.ltb_irrefl.
  - split; [reflexivity|]. split; [split; [discriminate|intros (? & ? & _ & [=] & _)]|].
    split; [auto|]. split; [discriminate|]. discriminate.
  - split; [reflexivity|]. split; [split; [discriminate|intros (? & ? & [=] & _)]|].
    split; [discriminate|]. split; [auto|]. intros created [= <-]. split; discriminate.
  - split; [reflexivity|]. split; [split; [discriminate|intros (? & ? & [=] & _)]|].
    split; [auto|]. split; [auto|]. discriminate.
Qed.

End FilterProperties.

(** X5. With a desired capacity c and an argument that parses to the
    integer i, the size filters compare the capacity with the argument in
    the order their names say: SizeGreaterThan matches iff c > i,
    SizeLessThan iff c < i, SizeEqualTo iff c = i, and the two OrEqualTo
    filters iff c >= i and c <= i.  An argument that does not parse as a
    64-bit decimal integer makes all five non-match without panic. *)
Theorem size_filters_compare_capacity_with_argument `{Collaborators} :
  forall (now : Z) (r : Resource) (c : Z) (created : option Z) (instances : list string)
         (arg : string) (rest : list string),
    let a := mkASG r (Some c) created instances in
    let filterBy fn := AutoScalingGroup_Filter now a (NewFilter fn (arg :: rest)) in
    (forall i, ParseInt arg = Some i ->
        filterBy "SizeGreaterThan" = ([], Done (bool_decide (c > i)%Z)) /\
        filterBy "SizeLessThan" = ([], Done (bool_decide (c < i)%Z)) /\
        filterBy "SizeEqualTo" = ([], Done (bool_decide (c = i))) /\
        filterBy "SizeGreaterThanOrEqualTo" = ([], Done (bool_decide (c >= i)%Z)) /\
        filterBy "SizeLessThanOrEqualTo" = ([], Done (bool_decide (c <= i)%Z))) /\
    (ParseInt arg = None ->
        filterBy "SizeGreaterThan" = ([], Done false) /\
        filterBy "SizeLessThan" = ([], Done false) /\
        filterBy "SizeEqualTo" = ([], Done false) /\
        filterBy "SizeGreaterThanOrEqualTo" = ([], Done false) /\
        filterBy "SizeLessThanOrEqualTo" = ([], Done false)).
Proof.
  intros now r c created instances arg rest a filterBy. subst filterBy. cbv beta.
  assert (E : forall fn (pred : AutoScalingGroup -> Z -> bool),
            (let* i := Int64Value (NewFilter fn (arg :: rest)) 0 in ret (parsedAnd i (pred a)))
            = ([], Done (parsedAnd (ParseInt arg) (pred a)))) by reflexivity.
  split.
  - intros i Hi.
    repeat split.
    + change (AutoScalingGroup_Filter now a (NewFilter "SizeGreaterThan" (arg :: rest)))
        with (let* i := Int64Value (NewFilter "SizeGreaterThan" (arg :: rest)) 0 in
              ret (parsedAnd i (sizeGreaterThan a))).
      rewrite E, Hi. simpl. unfold sizeGreaterThan. simpl. do 2 f_equal.
      destruct (i <? c)%Z eqn:L; [apply Z.ltb_lt in L|apply Z.ltb_ge in L];
        symmetry; [apply bool_decide_eq_true|apply bool_decide_eq_false]; lia.
    + change (AutoScalingGroup_Filter now a (NewFilter "SizeLessThan" (arg :: rest)))
        with (let* i := Int64Value (NewFilter "SizeLessThan" (arg :: rest)) 0 in
              ret (parsedAnd i (sizeLessThan a))).
      rewrite E, Hi. simpl. unfold sizeLessThan. simpl. do 2 f_equal.
      destruct (c <? i)%Z eqn:L; [apply Z.ltb_lt in L|apply Z.ltb_ge in L];
        symmetry; [apply bool_decide_eq_true|apply bool_decide_eq_false]; lia.
    + change (AutoScalingGroup_Filter now a (NewFilter "SizeEqualTo" (arg :: rest)))
        with (let* i := Int64Value (NewFilter "SizeEqualTo" (arg :: rest)) 0 in
              ret (parsedAnd i (sizeEqualTo a))).
      rewrite E, Hi. simpl. unfold sizeEqualTo. simpl. do 2 f_equal.
      destruct (c =? i)%Z eqn:L; [apply Z.eqb_eq in L|apply Z.eqb_neq in L];
        symmetry; [apply bool_decide_eq_true|apply bool_decide_eq_false]; lia.
    + change (AutoScalingGroup_Filter now a (NewFilter "SizeGreaterThanOrEqualTo" (arg :: rest)))
        with (let* i := Int64Value (NewFilter "SizeGreaterThanOrEqualTo" (arg :: rest)) 0 in
              ret (parsedAnd i (sizeGreaterThanOrEqualTo a))).
      rewrite E, Hi. simpl. unfold sizeGreaterThanOrEqualTo. simpl. do 2 f_equal.
      destruct (i <=? c)%Z eqn:L; [apply Z.leb_le in L|apply Z.leb_gt in L];
        symmetry; [apply bool_decide_eq_true|apply bool_decide_eq_false]; lia.
    + change (AutoScalingGroup_Filter now a (NewFilter "SizeLessThanOrEqualTo" (arg :: rest)))
        with (let* i := Int64Value (NewFilter "SizeLessThanOrEqualTo" (arg :: rest)) 0 in
              ret (parsedAnd i (sizeLessThanOrEqualTo a))).
      rewrite E, Hi. simpl. unfold sizeLessThanOrEqualTo. simpl. do 2 f_equal.
      destruct (c <=? i)%Z eqn:L; [apply Z.leb_le in L|apply Z.leb_gt in L];
        symmetry; [apply bool_decide_eq_true|apply bool_decide_eq_false]; lia.
  - intros Hn.
    repeat split;
      match goal with
      | |- AutoScalingGroup_Filter _ _ (NewFilter ?fn _) = _ =>
          unfold AutoScalingGroup_Filter, Int64Value, index; simpl; rewrite Hn; reflexivity
      end.
Qed.

Lemma created_time_filters_exclude_each_other_witness :
  (exists d created,
      @ParseDuration hourWorld "1h" = Some d /\
      CreatedTime (mkASG (plainResource "us-east-1" "asg-2") (Some 2%Z) (Some 400%Z) [])
      = Some created /\
      (3999 - created < d)%Z /\ (d < 4001 - created)%Z) /\
  @AutoScalingGroup_Filter hourWorld 3999
     (mkASG (plainResource "us-east-1" "asg-2") (Some 2%Z) (Some 400%Z) [])
     (NewFilter "CreatedTimeInTheLast" ["1h"]) = ([], Done true) /\
  @AutoScalingGroup_Filter hourWorld 4001
     (mkASG (plainResource "us-east-1" "asg-2") (Some 2%Z) (Some 400%Z) [])
     (NewFilter "CreatedTimeNotInTheLast" ["1h"]) = ([], Done true).
Proof.
  assert (Hex : exists d created,
      @ParseDuration hourWorld "1h" = Some d /\
      CreatedTime (mkASG (plainResource "us-east-1" "asg-2") (Some 2%Z) (Some 400%Z) [])
      = Some created /\
      (3999 - created < d)%Z /\ (d < 4001 - created)%Z).
  { exists 3600%Z, 400%Z. repeat split; reflexivity. }
  split; [exact Hex|].
  destruct (@created_time_filters_exclude_each_other hourWorld
              (mkASG (plainResource "us-east-1" "asg-2") (Some 2%Z) (Some 400%Z) [])
              3999%Z 4001%Z "1h" [])
    as (b1 & b2 & E1 & E2 & _ & Hboth & _).
  apply Hboth in Hex. apply andb_prop in Hex as [-> ->]. split; assumption.
Defined.

Lemma size_filters_compare_capacity_with_argument_witness :
  ParseInt "3" = Some 3%Z /\
  @AutoScalingGroup_Filter quietWorld 50
     (mkASG (plainResource "us-east-1" "asg-2") (Some 5%Z) None [])
     (NewFilter "SizeGreaterThan" ["3"]) = ([], Done true).
Proof.
  split; [reflexivity|].
  destruct (proj1 (@size_filters_compare_capacity_with_argument quietWorld 50
                     (plainResource "us-east-1" "asg-2") 5%Z None [] "3" [])
                  3%Z eq_refl) as (Hgt & _).
  exact Hgt.
Defined.

Lemma filter_function_known_or_default `{Collaborators} (fn : string) :
  fn ∈ knownFunctions \/
  forall now a args, AutoScalingGroup_Filter now a (NewFilter fn args) = unknownFunction fn.
Proof. walk_function_name fn 26. Qed.

(** X7. A filter whose function name is none of the twenty names of the
    switch never matches an AutoScalingGroup: Filter logs one error line
    naming the function and returns false, whatever the arguments (none
    is read, so it cannot panic). *)
Theorem unknown_filter_function_never_matches `{Collaborators} :
  forall (fn : string),
    fn ∉ knownFunctions ->
    forall now a args,
      AutoScalingGroup_Filter now a (NewFilter fn args)
      = ([LogEntry LError "No function %s could be found for filtering AutoScalingGroups." [fn]],
         Done false).
Proof.
  intros fn Hfn. destruct (filter_function_known_or_default fn) as [Hin|Hd]; [now elim Hfn|].
  exact Hd.
Qed.

Lemma unknown_filter_function_never_matches_witness :
  ("Running" ∉ knownFunctions) /\
  @AutoScalingGroup_Filter quietWorld 50 (mkASG (plainResource "us-east-1" "asg-2") None None [])
     (NewFilter "Running" [])
  = ([LogEntry LError "No function %s could be found for filtering AutoScalingGroups." ["Running"]],
     Done false).
Proof.
  assert (Hn : "Running" ∉ knownFunctions).
  { intros Hin. apply list_elem_of_In in Hin. vm_compute in Hin.
    repeat (destruct Hin as [Hin|Hin]; [discriminate Hin|]). exact Hin. }
  split; [exact Hn|].
  exact (@unknown_filter_function_never_matches quietWorld "Running" Hn 50 _ []).
Defined.

(** ** applyFilters: what a call returns *)

Section FilterResults.
Context `{Collaborators}.
Variables (config : Config) (now : Z).

Lemma result_pair {A} (m : M A) : m = (trace m, result m).
Proof. now destruct m. Qed.

Lemma filterOne_no_groups (f : Reapable) :
  AnswersTagged -> kindConfig config f <> None ->
  result (filterOne config now [] f)
  = Done (negb (Tagged (resourceOf f) (WhitelistTag config)), f,
          Tagged (resourceOf f) (WhitelistTag config)).
Proof.
  intros Htag Hk. unfold filterOne. simpl.
  pose proof (Filter_Tagged config now f (WhitelistTag config) Htag Hk) as E.
  destruct (Reapable_Filter now f _) as [t o]. simpl in E. subst o. simpl.
  now destruct (Tagged (resourceOf f) (WhitelistTag config)).
Qed.

Lemma applyFiltersLoop_no_groups (fs : list Reapable) :
  AnswersTagged ->
  (forall f, f ∈ fs -> exists stat, kindConfig config f = Some (stat, [])) ->
  forall wc gs,
    result (applyFiltersLoop config now fs wc gs)
    = Done (gs ++ List.filter (fun f => negb (Tagged (resourceOf f) (WhitelistTag config))) fs).
Proof.
  intros Htag. induction fs as [|f rest IH]; intros Hk wc gs.
  - cbn [applyFiltersLoop List.filter]. rewrite app_nil_r.
    rewrite result_bind_Done with (a := tt); [reflexivity|apply emitWhitelisted_Done].
  - cbn [applyFiltersLoop List.filter].
    destruct (Hk f) as (stat & Ek); [left|]. rewrite Ek.
    rewrite (result_bind_Done _ _ _ (filterOne_no_groups f Htag ltac:(congruence))).
    rewrite IH by (intros g Hg; apply Hk; now right).
    destruct (Tagged (resourceOf f) (WhitelistTag config)); simpl; [reflexivity|].
    now rewrite <- app_assoc.
Qed.

End FilterResults.

(** X8. With no filter group configured for the kinds at hand, a call of
    applyFilters returns exactly the resources that do not carry the
    whitelist tag, unchanged and in their order: every untagged resource
    is reapable by default. *)
Theorem no_filter_groups_keep_all_but_whitelisted `{Collaborators} :
  AnswersTagged ->
  forall (config : Config) (now : Z) (fs : list Reapable),
    (forall f, f ∈ fs -> exists stat, kindConfig config f = Some (stat, [])) ->
    result (applyFilters config now fs)
    = Done (List.filter (fun f => negb (Tagged (resourceOf f) (WhitelistTag config))) fs).
Proof.
  intros Htag config now fs Hk.
  pose proof (applyFiltersLoop_no_groups config now fs Htag Hk ∅ []) as E.
  unfold applyFilters, recovered.
  destruct (applyFiltersLoop config now fs ∅ []) as [t o]. simpl in E. now subst o.
Qed.

Lemma no_filter_groups_keep_all_but_whitelisted_witness :
  @AnswersTagged quietWorld /\
  (forall f, f ∈ [asgSpared; asgPlain "asg-x"; stackA] ->
             exists stat, kindConfig openConfig f = Some (stat, [])) /\
  result (@applyFilters quietWorld openConfig 50 [asgSpared; asgPlain "asg-x"; stackA])
  = Done [asgPlain "asg-x"; stackA].
Proof.
  assert (Hk : forall f, f ∈ [asgSpared; asgPlain "asg-x"; stackA] ->
                         exists stat, kindConfig openConfig f = Some (stat, [])).
  { intros f Hf. apply list_elem_of_In in Hf. simpl in Hf.
    destruct Hf as [<-|[<-|[<-|[]]]]; eexists; reflexivity. }
  split; [exact quietWorld_AnswersTagged|]. split; [exact Hk|].
  exact (@no_filter_groups_keep_all_but_whitelisted quietWorld quietWorld_AnswersTagged
           openConfig 50 _ Hk).
Defined.

Section Selection.
Context `{Collaborators}.
Variables (config : Config) (now : Z).

Lemma applyFiltersLoop_selection (fs : list Reapable) :
  forall wc gs t out,
    applyFiltersLoop config now fs wc gs = (t, Done out) ->
    out = [] \/
    exists sel kept,
      out = gs ++ kept /\ sel `sublist_of` fs /\ Forall2 sameResource sel kept.
Proof.
  induction fs as [|f rest IH]; intros wc gs t out Hrun.
  - cbn [applyFiltersLoop] in Hrun.
    apply bind_Done in Hrun as (t1 & [] & t2 & _ & Hret & _).
    injection Hret as _ <-. right. exists [], []. rewrite app_nil_r.
    split; [reflexivity|]. split; constructor.
  - cbn [applyFiltersLoop] in Hrun.
    destruct (kindConfig config f) as [[stat groups]|] eqn:Ek.
    + apply bind_Done in Hrun as (t1 & [[matched f'] w] & t2 & Hone & Hrest & _).
      pose proof (filterOne_same_resource config now _ _ _ _ _ _ Hone) as Hs.
      apply IH in Hrest as [->|(sel & kept & -> & Hsub & Hall)]; [now left|].
      right. destruct matched.
      * exists (f :: sel), (f' :: kept). rewrite <- app_assoc.
        split; [reflexivity|]. split; [now apply sublist_skip|now constructor].
      * exists sel, kept. split; [reflexivity|]. split; [now apply sublist_cons|exact Hall].
    + apply bind_Done in Hrun as (t1 & [] & t2 & _ & Hret & _).
      injection Hret as _ <-. now left.
Qed.

End Selection.

(** X9. applyFilters only selects: its result is, in order and without
    repetition, a sub-list of the resources it was given, each one the
    same resource up to the matched groups recorded on it.  It never
    invents, duplicates or reorders a resource. *)
Theorem applyFilters_selects_in_order `{Collaborators} :
  forall (config : Config) (now : Z) (fs : list Reapable),
    exists t out sel,
      applyFilters config now fs = (t, Done out) /\
      sel `sublist_of` fs /\
      Forall2 sameResource sel out.
Proof.
  intros config now fs. unfold applyFilters, recovered.
  destruct (applyFiltersLoop config now fs ∅ []) as [t [out|p]] eqn:E.
  - apply applyFiltersLoop_selection in E as [->|(sel & kept & -> & Hsub & Hall)].
    + exists t, [], []. split; [reflexivity|]. split; [apply sublist_nil_l|constructor].
    + exists t, kept, sel. auto.
  - eexists _, [], []. split; [reflexivity|]. split; [apply sublist_nil_l|constructor].
Qed.

(** ** The dispatch goroutine *)

Section Dispatch.
Context `{Collaborators}.
Variables (config : Config) (now : Z).

Lemma batchesOf_app (t1 t2 : list Effect) : batchesOf (t1 ++ t2) = batchesOf t1 ++ batchesOf t2.
Proof. unfold batchesOf. apply flat_map_app. Qed.

Lemma individualsOf_app (t1 t2 : list Effect) :
  individualsOf (t1 ++ t2) = individualsOf t1 ++ individualsOf t2.
Proof. unfold individualsOf. apply flat_map_app. Qed.

Lemma error_logs_carry_nothing (tlog : list Effect) :
  (forall e, e ∈ tlog -> exists msg, e = LogEntry LError msg []) ->
  batchesOf tlog = [] /\ individualsOf tlog = [].
Proof.
  induction tlog as [|e rest IH]; intros Hlog; [split; reflexivity|].
  destruct (Hlog e) as (msg & ->); [left|].
  apply IH. intros e' He'. apply Hlog. now right.
Qed.

Lemma dispatchOwned_events (l : list (string * list Reapable)) :
  batchesOf (trace (dispatchOwned config l))
  = map (fun rs => (rs, [EventTag config])) (untilEmptyBucket l) /\
  individualsOf (trace (dispatchOwned config l)) = [].
Proof.
  induction l as [|[o rs] rest (IH1 & IH2)]; [split; reflexivity|].
  destruct rs as [|r rs]; [split; reflexivity|].
  destruct (dispatchOwned_cons config o (r :: rs) rest) as (tlog & _ & Hlog & -> & _);
    [simpl; lia|].
  destruct (error_logs_carry_nothing tlog Hlog) as [B I].
  split.
  - change (batchesOf (BatchReapableEvent (r :: rs) [EventTag config]
                         :: tlog ++ trace (dispatchOwned config rest)))
      with ((r :: rs, [EventTag config]) :: batchesOf (tlog ++ trace (dispatchOwned config rest))).
    rewrite batchesOf_app, B, IH1. reflexivity.
  - change (individualsOf (BatchReapableEvent (r :: rs) [EventTag config]
                             :: tlog ++ trace (dispatchOwned config rest)))
      with (individualsOf (tlog ++ trace (dispatchOwned config rest))).
    rewrite individualsOf_app, I, IH2. reflexivity.
Qed.

Lemma dispatchUnowned_events (l : list Reapable) :
  batchesOf (trace (dispatchUnowned config l)) = [] /\
  individualsOf (trace (dispatchUnowned config l)) = map (fun r => (r, [EventTag config])) l.
Proof.
  induction l as [|r rest (IH1 & IH2)]; [split; reflexivity|].
  destruct (dispatchUnowned_cons config r rest) as (tlog & _ & Hlog & -> & _).
  destruct (error_logs_carry_nothing tlog Hlog) as [B I].
  split.
  - change (batchesOf (ReapableEvent r [EventTag config]
                         :: tlog ++ trace (dispatchUnowned config rest)))
      with (batchesOf (tlog ++ trace (dispatchUnowned config rest))).
    rewrite batchesOf_app, B, IH1. reflexivity.
  - change (individualsOf (ReapableEvent r [EventTag config]
                             :: tlog ++ trace (dispatchUnowned config rest)))
      with ((r, [EventTag config]) :: individualsOf (tlog ++ trace (dispatchUnowned config rest))).
    rewrite individualsOf_app, I, IH2. reflexivity.
Qed.

End Dispatch.


(** ** The parts of a tick *)

Section Anatomy.
Context `{Collaborators}.
Variables (config : Config) (now : Z).

(** The three passes of reap and how its result is assembled from them. *)
Lemma reap_anatomy (owned : list (string * list Reapable)) (unowned : list Reapable) :
  exists pass t1 fu t2 sums t3,
    filterOwned config now owned (mkOwnedPass unowned [] []) = (t1, Done pass) /\
    applyFilters config now (passUnowned pass) = (t2, Done fu) /\
    reapLoop now (passFiltered pass ++ fu) noSums = (t3, Done sums) /\
    reap config now owned unowned
    = Done (mkReapResult (passUnowned pass) (passFiltered pass ++ fu)
              (passFilteredOwned pass) fu sums (t1 ++ t2 ++ t3)
              (trace (dispatchOwned config
                        (map (fun b => (fst b, map (reaped now) (snd b))) (passFilteredOwned pass)))
               ++ trace (dispatchUnowned config (map (reaped now) fu)))
              (trace (postStatistics config sums))).
Proof.
  destruct (filterOwned_run config now owned (mkOwnedPass unowned [] []))
    as (t1 & pass & Hpass & _); [constructor|intros o b Hin; inversion Hin|].
  destruct (applyFilters_total config now (passUnowned pass)) as (t2 & fu & Hfu).
  destruct (reapLoop_total now (passFiltered pass ++ fu) noSums) as (t3 & sums & Hloop).
  exists pass, t1, fu, t2, sums, t3.
  split; [exact Hpass|]. split; [exact Hfu|]. split; [exact Hloop|].
  destruct (reap_run config now owned unowned)
    as (pass' & fu' & t2' & sums' & tloop & Hfu' & _ & _ & _ & _ & Hres).
  rewrite Hres. unfold reap in Hres. rewrite Hpass in Hres. unfold bind at 1 in Hres.
  rewrite Hfu in Hres. unfold bind at 1 in Hres. rewrite Hloop in Hres.
  unfold bind at 1 in Hres. simpl in Hres. injection Hres as <- <- <- <- <- <-.
  now rewrite app_nil_r.
Qed.





End Anatomy.


(** ** The counters and statistics of a tick *)

Section Counters.
Context `{Collaborators}.
Variables (config : Config) (now : Z).

Lemma counted_incr (key region : string) (m : gmap string nat) :
  counted (incr key m) region
  = counted m region + (if String.eqb key region then 1 else 0).
Proof.
  unfold counted, incr. destruct (String.eqb key region) eqn:E.
  - apply String.eqb_eq in E as ->. rewrite lookup_insert_eq. simpl. lia.
  - apply String.eqb_neq in E. rewrite lookup_insert_ne by exact E. lia.
Qed.

Lemma positive_incr (key : string) (m : gmap string nat) : positive m -> positive (incr key m).
Proof.
  intros Hm r n. unfold incr. destruct (decide (key = r)) as [->|Hne].
  - rewrite lookup_insert_eq. intros [= <-]. lia.
  - rewrite lookup_insert_ne by exact Hne. apply Hm.
Qed.

Lemma countKind_cons (isKind : Reapable -> bool) (region : string) (f : Reapable) rest :
  countKind isKind region (f :: rest)
  = (if (isKind f && String.eqb (Region (resourceOf f)) region)%bool then 1 else 0)
    + countKind isKind region rest.
Proof.
  unfold countKind. simpl.
  now destruct (isKind f && String.eqb (Region (resourceOf f)) region)%bool.
Qed.

(** What the type switch of the reap loop adds to the five counters. *)
Lemma reapLoop_sums (filtered : list Reapable) :
  forall sums t sums',
    reapLoop now filtered sums = (t, Done sums') ->
    (forall region,
        counted (filteredInstanceSums sums') region
        = counted (filteredInstanceSums sums) region + countKind isInstance region filtered /\
        counted (filteredASGSums sums') region
        = counted (filteredASGSums sums) region + countKind isAutoScalingGroup region filtered /\
        counted (filteredCloudformationSums sums') region
        = counted (filteredCloudformationSums sums) region
          + countKind isCloudformation region filtered /\
        counted (filteredSecurityGroupSums sums') region
        = counted (filteredSecurityGroupSums sums) region
          + countKind isSecurityGroup region filtered /\
        counted (filteredVolumeSums sums') region
        = counted (filteredVolumeSums sums) region + countKind isVolume region filtered) /\
    (positive (filteredInstanceSums sums) -> positive (filteredInstanceSums sums')) /\
    (positive (filteredASGSums sums) -> positive (filteredASGSums sums')) /\
    (positive (filteredCloudformationSums sums) -> positive (filteredCloudformationSums sums')) /\
    (positive (filteredSecurityGroupSums sums) -> positive (filteredSecurityGroupSums sums')) /\
    (positive (filteredVolumeSums sums) -> positive (filteredVolumeSums sums')).
Proof.
  induction filtered as [|f rest IH]; intros sums t sums' Hrun.
  - injection Hrun as _ <-. split; [|tauto].
    intros region. unfold countKind. simpl. repeat split; lia.
  - destruct f; cbn [reapLoop] in Hrun;
      apply bind_Done in Hrun as (t1 & [] & t2 & _ & Hrest & _);
      apply IH in Hrest as (Hc & P1 & P2 & P3 & P4 & P5); cbn in Hc, P1, P2, P3, P4, P5;
      (split;
       [ intros region; destruct (Hc region) as (C1 & C2 & C3 & C4 & C5);
         rewrite ?counted_incr in *; rewrite !countKind_cons; simpl;
         repeat split; lia
       | repeat split; auto using positive_incr ]).
Qed.

Lemma lookup_counted (m : gmap string nat) (region : string) (n : nat) :
  positive m -> (m !! region = Some n <-> counted m region = n /\ 0 < n).
Proof.
  intros Hm. unfold counted. split.
  - intros E. rewrite E. split; [reflexivity|]. eapply Hm; exact E.
  - intros [E Hn]. destruct (m !! region) as [k|]; simpl in E; [now subst|lia].
Qed.

Lemma postedUnder_app name (t1 t2 : list Effect) :
  postedUnder name (t1 ++ t2) = postedUnder name t1 ++ postedUnder name t2.
Proof. unfold postedUnder. apply flat_map_app. Qed.

Lemma postedUnder_error_logs name (tlog : list Effect) :
  (forall e, e ∈ tlog -> exists msg, e = LogEntry LError msg []) -> postedUnder name tlog = [].
Proof.
  induction tlog as [|e rest IH]; intros Hlog; [reflexivity|].
  destruct (Hlog e) as (msg & ->); [left|].
  apply IH. intros e' He'. apply Hlog. now right.
Qed.

(** One loop of the statistics goroutine: one statistic per entry of the
    counter map, under the loop's own name. *)
Lemma postSums_posted (name name' : string) (sums : list (string * nat)) :
  postedUnder name' (trace (postSums config name sums))
  = if String.eqb name name'
    then map (fun rs => (Z.of_nat (snd rs), ["region:" +:+ fst rs; EventTag config])) sums
    else [].
Proof.
  induction sums as [|[region sum] rest IH]; [now destruct (String.eqb name name')|].
  cbn [postSums]. unfold NewStatistic, emit, ret, bind. simpl.
  destruct (logIfError_run
              (statisticError name (Z.of_nat sum) ["region:" +:+ region; EventTag config]))
    as (tlog & -> & _ & Hlog).
  destruct (postSums config name rest) as [t r]. simpl in *.
  rewrite postedUnder_app, (postedUnder_error_logs _ _ Hlog), IH. simpl.
  now destruct (String.eqb name name').
Qed.

Lemma trace_then {A B} (m : M A) (k : M B) (a : A) :
  result m = Done a -> trace (bind m (fun _ => k)) = trace m ++ trace k.
Proof.
  unfold trace, result, bind. destruct m as [t o]. simpl. intros ->. now destruct k.
Qed.

Lemma postStatistics_posted (sums : Sums) (name' : string) :
  postedUnder name' (trace (postStatistics config sums))
  = postedUnder name' (trace (postSums config "reaper.instances.filtered"
                                (map_to_list (filteredInstanceSums sums))))
    ++ postedUnder name' (trace (postSums config "reaper.asgs.filtered"
                                   (map_to_list (filteredASGSums sums))))
    ++ postedUnder name' (trace (postSums config "reaper.cloudformations.filtered"
                                   (map_to_list (filteredCloudformationSums sums))))
    ++ postedUnder name' (trace (postSums config "reaper.securitygroups.filtered"
                                   (map_to_list (filteredSecurityGroupSums sums)))).
Proof.
  unfold postStatistics.
  rewrite (trace_then _ _ tt) by apply postSums_run.
  rewrite (trace_then _ _ tt) by apply postSums_run.
  rewrite (trace_then _ _ tt) by apply postSums_run.
  now rewrite !postedUnder_app.
Qed.

End Counters.

(** X12. For instances, autoscaling groups, stacks and security groups
    the statistics goroutine posts, per kind, exactly one filtered-count
    statistic for each region that holds at least one filtered resource
    of the kind; its value is the number of such resources in the filtered
    set and its tags are the region and the event tag.  Regions without
    such a resource get no statistic. *)
Theorem filtered_statistics_count_the_filtered_set `{Collaborators} :
  forall (config : Config) (now : Z) owned unowned,
    exists res,
      reap config now owned unowned = Done res /\
      forall name isKind,
        (name, isKind) ∈ [("reaper.instances.filtered", isInstance);
                          ("reaper.asgs.filtered", isAutoScalingGroup);
                          ("reaper.cloudformations.filtered", isCloudformation);
                          ("reaper.securitygroups.filtered", isSecurityGroup)] ->
        exists regions,
          NoDup regions /\
          (forall region, region ∈ regions <-> 0 < countKind isKind region (rrFiltered res)) /\
          postedUnder name (rrStatistics res)
          = map (fun region => (Z.of_nat (countKind isKind region (rrFiltered res)),
                                ["region:" +:+ region; EventTag config])) regions.
Proof.
  intros config now owned unowned.
  destruct (reap_anatomy config now owned unowned)
    as (pass & t1 & fu & t2 & sums & t3 & _ & _ & Hloop & ->).
  eexists. split; [reflexivity|]. cbn [rrStatistics rrFiltered].
  apply reapLoop_sums in Hloop as (Hc & P1 & P2 & P3 & P4 & _).
  assert (Pe : positive (∅ : gmap string nat)) by (intros r n E; rewrite lookup_empty in E; discriminate).
  specialize (P1 Pe). specialize (P2 Pe). specialize (P3 Pe). specialize (P4 Pe).
  assert (G : forall (m : gmap string nat) isKind,
            positive m ->
            (forall region, counted m region = countKind isKind region (passFiltered pass ++ fu)) ->
            exists regions,
              NoDup regions /\
              (forall region, region ∈ regions
                              <-> 0 < countKind isKind region (passFiltered pass ++ fu)) /\
              map (fun rs => (Z.of_nat (snd rs), ["region:" +:+ fst rs; EventTag config]))
                  (map_to_list m)
              = map (fun region => (Z.of_nat (countKind isKind region (passFiltered pass ++ fu)),
                                    ["region:" +:+ region; EventTag config])) regions).
  { intros m isKind Pm Hm. exists (map fst (map_to_list m)).
    split; [apply NoDup_fst_map_to_list|]. split.
    - intros region. rewrite list_elem_of_In, in_map_iff. split.
      + intros ([r n] & <- & Hin). apply list_elem_of_In, elem_of_map_to_list in Hin.
        apply (lookup_counted m r n Pm) in Hin as [E Hn]. simpl. rewrite <- Hm, E. exact Hn.
      + intros Hpos. exists (region, countKind isKind region (passFiltered pass ++ fu)).
        split; [reflexivity|]. apply list_elem_of_In, elem_of_map_to_list.
        apply (lookup_counted m region _ Pm). split; [apply Hm|exact Hpos].
    - rewrite map_map. apply map_ext_in. intros [r n] Hin. simpl.
      apply list_elem_of_In, elem_of_map_to_list in Hin.
      apply (lookup_counted m r n Pm) in Hin as [E _]. now rewrite <- Hm, E. }
  intros name isKind Hin. rewrite postStatistics_posted, !postSums_posted.
  repeat (apply elem_of_cons in Hin as [Hin|Hin];
          [injection Hin as -> ->; simpl; rewrite ?app_nil_r;
           apply G; [assumption|intros region; destruct (Hc region) as (C1 & C2 & C3 & C4 & C5);
                                assumption]|]).
  inversion Hin.
Qed.

(** ** LoadState on a well-formed file *)

Section LoadStateProperties.
Context `{Collaborators}.

Lemma parsedLine_Some (text region id tag : string) :
  parsedLine text = Some (region, id, tag) <-> Split text = [region; id; tag].
Proof.
  unfold parsedLine.
  destruct (Split text) as [|r1 [|i1 [|t1 [|? ?]]]]; split; intros E; try discriminate;
    injection E as -> -> ->; reflexivity.
Qed.

Lemma loadLines_malformed (text : string) (rest : list string)
    (savedstates : gmap string (gmap string State)) :
  parsedLine text = None ->
  loadLines (text :: rest) savedstates
  = (run logf LError "Malformed saved state " [text] then loadLines rest savedstates).
Proof.
  intros Hp. apply loadLines_skips_malformed. intros Hlen.
  unfold parsedLine in Hp.
  destruct (Split text) as [|r1 [|i1 [|t1 [|? ?]]]]; simpl in Hlen; try lia. discriminate.
Qed.

Lemma loadLines_configured (lines : list string) :
  forall (savedstates : gmap string (gmap string State)),
    (forall text region id tag,
        text ∈ lines -> parsedLine text = Some (region, id, tag) ->
        is_Some (savedstates !! region)) ->
    exists saved,
      loadLines lines savedstates = (malformedLogs lines, Done saved) /\
      forall region id,
        savedAt saved region id
        = match lastTag lines region id with
          | Some tag => Some (NewStateWithTag tag)
          | None => savedAt savedstates region id
          end.
Proof.
  induction lines as [|text rest IH]; intros savedstates Hreg.
  - exists savedstates. split; [reflexivity|]. reflexivity.
  - destruct (parsedLine text) as [[[r i] tag]|] eqn:Ep.
    + destruct (Hreg text r i tag) as (inner & Hinner); [left|exact Ep|].
      apply parsedLine_Some in Ep as Hsplit.
      rewrite (loadLines_stores text r i tag rest savedstates inner Hsplit Hinner).
      destruct (IH (<[r := <[i := NewStateWithTag tag]> inner]> savedstates))
        as (saved & Hrun & Hsaved).
      { intros text' r' i' tag' Hin Hp'.
        destruct (decide (r = r')) as [->|Hne].
        - rewrite lookup_insert_eq. eauto.
        - rewrite lookup_insert_ne by exact Hne. eapply Hreg; [right; exact Hin|exact Hp']. }
      exists saved. split.
      { rewrite Hrun. unfold malformedLogs. simpl. now rewrite Ep. }
      intros region id. rewrite Hsaved. cbn [lastTag]. rewrite Ep.
      destruct (lastTag rest region id) as [tag'|]; [reflexivity|].
      unfold savedAt.
      destruct (String.eqb r region) eqn:Er.
      * apply String.eqb_eq in Er as ->. rewrite lookup_insert_eq, Hinner.
        destruct (String.eqb i id) eqn:Ei; simpl.
        -- apply String.eqb_eq in Ei as ->. now rewrite lookup_insert_eq.
        -- apply String.eqb_neq in Ei. now rewrite lookup_insert_ne.
      * apply String.eqb_neq in Er. simpl. now rewrite lookup_insert_ne.
    + rewrite (loadLines_malformed text rest savedstates Ep).
      destruct (IH savedstates) as (saved & Hrun & Hsaved).
      { intros text' r' i' tag' Hin Hp'. eapply Hreg; [right; exact Hin|exact Hp']. }
      exists saved. split.
      { rewrite Hrun. unfold malformedLogs. simpl. now rewrite Ep. }
      intros region id. rewrite Hsaved. cbn [lastTag]. rewrite Ep.
      now destruct (lastTag rest region id).
Qed.

Lemma initSavedStates_empty (regions : list string) (region id : string) :
  savedAt (initSavedStates regions) region id = None.
Proof.
  unfold initSavedStates, savedAt.
  assert (G : forall (m : gmap string (gmap string State)),
             (forall r inner, m !! r = Some inner -> inner = ∅) ->
             forall r inner, foldl (fun m region => <[region := ∅]> m) m regions !! r = Some inner ->
                             inner = ∅).
  { induction regions as [|r0 rs IH]; intros m Hm r inner; simpl; [apply Hm|].
    apply IH. intros r' inner'. destruct (decide (r0 = r')) as [->|Hne].
    - rewrite lookup_insert_eq. now intros [= <-].
    - rewrite lookup_insert_ne by exact Hne. apply Hm. }
  destruct (foldl _ _ regions !! region) as [inner|] eqn:E; [|reflexivity].
  apply G in E as ->; [apply lookup_empty|].
  intros r inner'. rewrite lookup_empty. discriminate.
Qed.

End LoadStateProperties.

(** LoadState on a file whose three-field lines all name configured
    regions: the run, and the state kept for a region and id. *)
Lemma LoadState_configured_lines `{Collaborators} :
  forall (config : Config) (stateFile : string) (lines : list string),
    (forall text region id tag,
        text ∈ lines -> parsedLine text = Some (region, id, tag) -> region ∈ Regions config) ->
    exists saved,
      LoadState config stateFile (Some lines)
      = (malformedLogs lines ++ [LogEntry LInfo "States loaded from " [stateFile]], Done saved) /\
      (forall region id,
          savedAt saved region id = NewStateWithTag <$> lastTag lines region id).
Proof.
  intros config stateFile lines Hreg.
  destruct (loadLines_configured lines (initSavedStates (Regions config))) as (saved & Hrun & Hs).
  { intros text region id tag Hin Hp. apply initSavedStates_configured. eauto. }
  exists saved. split.
  - unfold LoadState. change (default [] (Some lines)) with lines. rewrite Hrun. reflexivity.
  - intros region id. rewrite Hs, initSavedStates_empty.
    now destruct (lastTag lines region id).
Qed.

(** X13. If every three-field line of the state file names a configured
    region, LoadState completes; it logs one error per line that does not
    have exactly three comma-separated fields, in file order, and then
    the success line.  For every region and id the state it keeps is the
    one of the last line about that region and id (a later line overrides
    an earlier one), and discovery replaces the state of a resource
    exactly when the file has such a line. *)
Theorem LoadState_keeps_the_last_line `{Collaborators} :
  forall (config : Config) (stateFile : string) (lines : list string),
    (forall text region id tag,
        text ∈ lines -> parsedLine text = Some (region, id, tag) -> region ∈ Regions config) ->
    exists saved,
      LoadState config stateFile (Some lines)
      = (malformedLogs lines ++ [LogEntry LInfo "States loaded from " [stateFile]], Done saved) /\
      (forall region id,
          savedAt saved region id = NewStateWithTag <$> lastTag lines region id) /\
      (forall r : Resource,
          restoreSavedState saved r
          = match lastTag lines (Region r) (ID r) with
            | Some tag => SetReaperState (NewStateWithTag tag) r
            | None => r
            end).
Proof.
  intros config stateFile lines Hreg.
  destruct (LoadState_configured_lines config stateFile lines Hreg) as (saved & Hrun & Hat).
  exists saved. split; [exact Hrun|split; [exact Hat|]].
  - intros r. specialize (Hat (Region r) (ID r)). unfold savedAt in Hat.
    unfold restoreSavedState.
    destruct (saved !! Region r) as [inner|].
    + rewrite Hat. now destruct (lastTag lines (Region r) (ID r)).
    + now destruct (lastTag lines (Region r) (ID r)).
Qed.

Lemma LoadState_keeps_the_last_line_witness :
  (forall text region id tag,
      text ∈ ["us-east-1,i-999,first"; "garbage"; "us-east-1,i-999,second"] ->
      parsedLine text = Some (region, id, tag) -> region ∈ Regions openConfig) /\
  exists saved,
    @LoadState quietWorld openConfig "reaper.state"
       (Some ["us-east-1,i-999,first"; "garbage"; "us-east-1,i-999,second"])
    = ([LogEntry LError "Malformed saved state " ["garbage"];
        LogEntry LInfo "States loaded from " ["reaper.state"]], Done saved) /\
    savedAt saved "us-east-1" "i-999" = Some (@NewStateWithTag quietWorld "second").
Proof.
  assert (Hreg : forall text region id tag,
      text ∈ ["us-east-1,i-999,first"; "garbage"; "us-east-1,i-999,second"] ->
      parsedLine text = Some (region, id, tag) -> region ∈ Regions openConfig).
  { intros text region id tag Hin Hp. apply list_elem_of_In in Hin. simpl in Hin.
    destruct Hin as [<-|[<-|[<-|[]]]]; vm_compute in Hp; try discriminate;
      injection Hp as <- _ _; left. }
  split; [exact Hreg|].
  destruct (@LoadState_keeps_the_last_line quietWorld openConfig "reaper.state" _ Hreg)
    as (saved & Hrun & Hat & _).
  exists saved. split; [exact Hrun|]. exact (Hat "us-east-1" "i-999").
Defined.

(** ** SaveState, and reading its file back *)

Section RoundTrip.
Context `{Collaborators} `{StatePackage}.

Lemma append_nil_string (s : string) : s +:+ "" = s.
Proof. induction s as [|c s IH]; [reflexivity|]. rewrite append_cons_string. now rewrite IH. Qed.

Lemma hasByte_append (c : ascii) (a b : string) :
  hasByte c (a +:+ b) = (hasByte c a || hasByte c b)%bool.
Proof.
  induction a as [|x a IH]; [reflexivity|].
  rewrite append_cons_string. simpl. rewrite IH. now rewrite orb_assoc.
Qed.

Lemma splitComma_field (s rest cur : string) :
  hasByte ","%char s = false ->
  splitComma (s +:+ rest) cur = splitComma rest (cur +:+ s).
Proof.
  revert cur. induction s as [|c s IH]; intros cur Hs.
  - now rewrite append_nil_string.
  - simpl in Hs. apply orb_false_iff in Hs as [Hc Hs].
    rewrite append_cons_string. cbn [splitComma]. rewrite Hc, IH by exact Hs.
    now rewrite append_assoc_string.
Qed.

Lemma Split_three_fields (a b c : string) :
  hasByte ","%char a = false -> hasByte ","%char b = false -> hasByte ","%char c = false ->
  Split (a +:+ "," +:+ b +:+ "," +:+ c) = [a; b; c].
Proof.
  intros Ha Hb Hc. unfold Split.
  rewrite splitComma_field by exact Ha.
  change ("," +:+ b +:+ "," +:+ c) with (String ","%char (b +:+ "," +:+ c)).
  cbn [splitComma]. simpl Ascii.eqb. cbv iota.
  rewrite splitComma_field by exact Hb.
  change ("," +:+ c) with (String ","%char c).
  cbn [splitComma]. simpl Ascii.eqb. cbv iota.
  rewrite <- (append_nil_string c) at 1. rewrite splitComma_field by exact Hc.
  reflexivity.
Qed.

Lemma dropCR_plain (s : string) : hasByte carriageReturn s = false -> dropCR s = s.
Proof.
  induction s as [|c s IH]; [reflexivity|]. simpl. intros Hs.
  apply orb_false_iff in Hs as [Hc Hs]. destruct s as [|c' s']; [now rewrite Hc|].
  now rewrite IH.
Qed.

Lemma scanLines_line (s rest cur : string) :
  hasByte newline s = false ->
  scanLines (s +:+ String newline rest) cur = dropCR (cur +:+ s) :: scanLines rest "".
Proof.
  revert cur. induction s as [|c s IH]; intros cur Hs.
  - rewrite append_nil_string. reflexivity.
  - simpl in Hs. apply orb_false_iff in Hs as [Hc Hs].
    rewrite append_cons_string. cbn [scanLines]. rewrite Hc, IH by exact Hs.
    now rewrite append_assoc_string.
Qed.

Lemma stateLine_plain (r : Reapable) :
  savable r ->
  hasByte newline (stateLine r) = false /\ hasByte carriageReturn (stateLine r) = false /\
  parsedLine (stateLine r)
  = Some (Region (resourceOf r), ID (resourceOf r), StateTag (reaperState (resourceOf r))).
Proof.
  intros ((R1 & R2 & R3) & (I1 & I2 & I3) & (T1 & T2 & T3)). unfold stateLine.
  split; [|split].
  - rewrite !hasByte_append, R2, I2, T2. reflexivity.
  - rewrite !hasByte_append, R3, I3, T3. reflexivity.
  - unfold parsedLine. now rewrite Split_three_fields.
Qed.

(** With every write succeeding the file is the lines of the entries, and
    the scanner gives them back one by one. *)
Lemma saveLines_scanned (stateFile : string) (entries : list Reapable) :
  Forall savable entries ->
  exists content,
    saveLines stateFile (fun _ => None) entries = ([], Done content) /\
    scanLines content "" = map stateLine entries.
Proof.
  induction 1 as [|r rest Hr _ (content & Hrun & Hscan)].
  - exists "". split; reflexivity.
  - exists ((stateLine r +:+ String newline "") +:+ content).
    cbn [saveLines]. rewrite Hrun. split; [reflexivity|].
    destruct (stateLine_plain r Hr) as (Hn & Hc & _).
    rewrite append_assoc_string. change (String newline "" +:+ content) with (String newline content).
    rewrite scanLines_line by exact Hn. simpl. rewrite dropCR_plain by exact Hc.
    now rewrite Hscan.
Qed.

Lemma lastTag_is_an_entry (entries : list Reapable) (region id tag : string) :
  Forall savable entries ->
  lastTag (map stateLine entries) region id = Some tag ->
  (region, id) ∈ map registryKey entries.
Proof.
  induction 1 as [|x rest Hx _ IH]; intros El; [discriminate|].
  cbn [map lastTag] in El. destruct (stateLine_plain x Hx) as (_ & _ & Ex).
  rewrite Ex in El. cbn [map].
  destruct (lastTag (map stateLine rest) region id) as [tag'|].
  - right. now apply IH.
  - destruct (String.eqb (Region (resourceOf x)) region) eqn:E1; [|discriminate].
    destruct (String.eqb (ID (resourceOf x)) id) eqn:E2; [|discriminate].
    apply String.eqb_eq in E1, E2. subst. left.
Qed.

Lemma lastTag_of_entries (entries : list Reapable) (r : Reapable) :
  Forall savable entries -> NoDup (map registryKey entries) -> r ∈ entries ->
  lastTag (map stateLine entries) (Region (resourceOf r)) (ID (resourceOf r))
  = Some (StateTag (reaperState (resourceOf r))).
Proof.
  induction 1 as [|e rest He Hrest IH]; intros Hnd Hin; [inversion Hin|].
  cbn [map] in Hnd. apply NoDup_cons in Hnd as [Hnot Hnd]. cbn [map lastTag].
  destruct (stateLine_plain e He) as (_ & _ & ->).
  apply elem_of_cons in Hin as [->|Hin].
  - destruct (lastTag (map stateLine rest) _ _) as [tag|] eqn:El.
    + exfalso. apply Hnot. eapply lastTag_is_an_entry; eauto.
    + now rewrite !String.eqb_refl.
  - now rewrite IH.
Qed.

End RoundTrip.

(** X14. Saving and loading round-trip: when the state file can be
    written, the registry keys are distinct, every saved region is
    configured, and region, id and serialized state contain no comma and
    no line break, then SaveState followed by LoadState on the written
    file completes without any error line, and for every saved resource
    the loaded state is NewStateWithTag of the string that was written
    for it. *)
Theorem saved_states_load_back `{Collaborators} `{StatePackage} :
  forall (config : Config) (stateFile : string) (entries : list Reapable),
    Forall savable entries ->
    NoDup (map registryKey entries) ->
    (forall r, r ∈ entries -> Region (resourceOf r) ∈ Regions config) ->
    exists content saved,
      SaveState stateFile true (fun _ => None) entries
      = ([LogEntry LInfo "States saved to %s" [stateFile]], Done (Some content)) /\
      LoadState config stateFile (Some (scanLines content ""))
      = ([LogEntry LInfo "States loaded from " [stateFile]], Done saved) /\
      forall r, r ∈ entries ->
        savedAt saved (Region (resourceOf r)) (ID (resourceOf r))
        = Some (NewStateWithTag (StateTag (reaperState (resourceOf r)))).
Proof.
  intros config stateFile entries Hsav Hnd Hreg.
  destruct (saveLines_scanned stateFile entries Hsav) as (content & Hrun & Hscan).
  assert (Hlines : forall text region id tag,
             text ∈ map stateLine entries -> parsedLine text = Some (region, id, tag) ->
             region ∈ Regions config).
  { intros text region id tag Hin Hp.
    apply list_elem_of_In, in_map_iff in Hin as (r & <- & Hr). apply list_elem_of_In in Hr.
    rewrite Forall_forall in Hsav. destruct (stateLine_plain r (Hsav r Hr)) as (_ & _ & E).
    rewrite E in Hp. injection Hp as <- _ _. now apply Hreg. }
  destruct (LoadState_configured_lines config stateFile _ Hlines) as (saved & Hload & Hat).
  assert (Hlogs : malformedLogs (map stateLine entries) = []).
  { clear -Hsav. induction Hsav as [|r rest Hr _ IH]; [reflexivity|].
    unfold malformedLogs in *. simpl. destruct (stateLine_plain r Hr) as (_ & _ & ->).
    exact IH. }
  exists content, saved. split; [|split].
  - unfold SaveState. rewrite Hrun. reflexivity.
  - rewrite Hscan, Hload, Hlogs. reflexivity.
  - intros r Hr. rewrite Hat, (lastTag_of_entries entries r Hsav Hnd Hr). reflexivity.
Qed.

(** ** Discovery of autoscaling groups *)

Section DiscoveryProperties.
Context `{Collaborators}.
Variable config : Config.

Lemma restoreSavedState_identity savedstates (r : Resource) :
  Region (restoreSavedState savedstates r) = Region r /\
  ID (restoreSavedState savedstates r) = ID r.
Proof.
  unfold restoreSavedState.
  destruct (savedstates !! Region r) as [inner|]; [|auto].
  destruct (inner !! ID r); auto.
Qed.

Lemma countASGs_invariant (asgs : list AutoScalingGroup) :
  forall sums,
    positive (fst sums) -> dom (fst sums) = dom (snd sums) ->
    let sums' := foldl (fun sums a => countASG a sums) sums asgs in
    positive (fst sums') /\ dom (fst sums') = dom (snd sums') /\
    forall region, counted (fst sums') region = counted (fst sums) region + groupsIn region asgs.
Proof.
  induction asgs as [|a rest IH]; intros sums Hp Hd; simpl.
  - split; [exact Hp|]. split; [exact Hd|]. intros region. unfold groupsIn. simpl. lia.
  - destruct (IH (countASG a sums)) as (P & D & C).
    + simpl. now apply positive_incr.
    + simpl. unfold incr. rewrite !dom_insert_L. now rewrite Hd.
    + split; [exact P|]. split; [exact D|]. intros region. rewrite C. simpl.
      rewrite counted_incr. unfold groupsIn. simpl.
      destruct (String.eqb (Region (asgResource a)) region); simpl; lia.
Qed.

Lemma postSizes_posted (region : string) (sizes : list (Z * nat)) :
  result (postSizes config region sizes) = Done tt /\
  postedUnder "reaper.asgs.total" (trace (postSizes config region sizes)) = [].
Proof.
  induction sizes as [|[size n] rest (IH1 & IH2)]; [split; reflexivity|].
  cbn [postSizes]. unfold NewStatistic, emit, ret, bind. simpl.
  destruct (logIfError_run (statisticError "reaper.asgs.asgsizes" (Z.of_nat n)
              ["region:" +:+ region +:+ ",asgsize:" +:+ pretty size; EventTag config]))
    as (tlog & -> & _ & Hlog).
  destruct (postSizes config region rest) as [t r]. simpl in *. split; [exact IH1|].
  now rewrite postedUnder_app, (postedUnder_error_logs _ _ Hlog), IH2.
Qed.

Lemma postASGStatistics_totals (sizeSums : list (string * gmap Z nat)) (regionSums : gmap string nat) :
  result (postASGStatistics config sizeSums regionSums) = Done tt /\
  postedUnder "reaper.asgs.total" (trace (postASGStatistics config sizeSums regionSums))
  = concat (replicate (List.length sizeSums)
              (map (fun rs => (Z.of_nat (snd rs), ["region:" +:+ fst rs; EventTag config]))
                   (map_to_list regionSums))).
Proof.
  induction sizeSums as [|[region regionMap] rest (IH1 & IH2)]; [split; reflexivity|].
  cbn [postASGStatistics].
  destruct (postSizes_posted region (map_to_list regionMap)) as [S1 S2].
  destruct (postSums_run config "reaper.asgs.total" (map_to_list regionSums)) as [T1 _].
  split.
  - rewrite (result_bind_Done _ _ tt S1), (result_bind_Done _ _ tt T1). exact IH1.
  - rewrite (trace_then _ _ tt S1), (trace_then _ _ tt T1), !postedUnder_app, S2, IH2.
    rewrite (postSums_posted config "reaper.asgs.total" "reaper.asgs.total"). reflexivity.
Qed.

End DiscoveryProperties.

(** X15. getAutoScalingGroups forwards every discovered group once, in
    order, with its saved state restored.  Its statistics goroutine runs
    the loop over the regional totals inside the loop over the regions,
    so with k regions holding groups the reaper.asgs.total statistic of
    each of those regions (value: the number of groups found there) is
    posted k times, k * k statistics in all (none when nothing was
    found).  Go leaves the order of a map iteration open, so the posted
    statistics are described up to their order. *)
Theorem asg_totals_posted_once_per_region_pair `{Collaborators} :
  forall (config : Config) (savedstates : gmap string (gmap string State))
         (asgs : list AutoScalingGroup),
    let d := getAutoScalingGroups config savedstates asgs in
    found d = map (restoreASG savedstates) asgs /\
    exists regions,
      NoDup regions /\
      (forall region, region ∈ regions <-> 0 < groupsIn region asgs) /\
      postedUnder "reaper.asgs.total" (discoveryStatistics d)
      ≡ₚ concat (replicate (List.length regions)
                  (map (fun region => (Z.of_nat (groupsIn region asgs),
                                       ["region:" +:+ region; EventTag config])) regions)).
Proof.
  intros config savedstates asgs d. split; [reflexivity|].
  subst d. unfold getAutoScalingGroups. cbn [discoveryStatistics].
  set (restored := map (restoreASG savedstates) asgs).
  destruct (countASGs_invariant restored (∅, ∅)) as (P & D & C).
  { intros r n E. simpl in E. rewrite lookup_empty in E. discriminate. }
  { simpl. now rewrite !dom_empty_L. }
  fold (countASGs restored) in P, D, C.
  assert (Hcount : forall region, groupsIn region restored = groupsIn region asgs).
  { intros region. unfold restored, groupsIn. clear.
    induction asgs as [|a rest IH]; [reflexivity|]. simpl.
    destruct (restoreSavedState_identity savedstates (asgResource a)) as [-> _].
    destruct (String.eqb (Region (asgResource a)) region); simpl; now rewrite IH. }
  set (m := fst (countASGs restored)) in *.
  exists (map fst (map_to_list m)).
  split; [apply NoDup_fst_map_to_list|]. split.
  - intros region. rewrite list_elem_of_In, in_map_iff. split.
    + intros ([r n] & <- & Hin). apply list_elem_of_In, elem_of_map_to_list in Hin.
      apply (lookup_counted m r n P) in Hin as [E Hn]. simpl.
      rewrite <- Hcount, <- (Nat.add_0_l (groupsIn r restored)).
      change 0 with (counted (∅ : gmap string nat) r) at 2. rewrite <- C, E. exact Hn.
    + intros Hpos. exists (region, groupsIn region asgs). split; [reflexivity|].
      apply list_elem_of_In, elem_of_map_to_list. apply (lookup_counted m region _ P).
      split; [|exact Hpos]. rewrite C, Hcount. reflexivity.
  - destruct (postASGStatistics_totals config (map_to_list (snd (countASGs restored))) m) as [_ ->].
    rewrite length_map, !length_map_to_list.
    rewrite <- !(size_dom (D := gset string)). fold m. rewrite <- D.
    apply reflexive_eq. f_equal. f_equal. rewrite map_map. apply map_ext_in. intros [r n] Hin. simpl.
    apply list_elem_of_In, elem_of_map_to_list in Hin.
    apply (lookup_counted m r n P) in Hin as [E _].
    rewrite <- Hcount, <- E, C. reflexivity.
Qed.

(** ** Construction of an AutoScalingGroup *)

Section Construction.
Context `{Collaborators} `{StatePackage}.

Lemma instanceIDs_Some (instances : list (option string)) :
  is_Some (instanceIDs instances) <-> Forall is_Some instances.
Proof.
  induction instances as [|[id|] rest IH]; simpl.
  - split; [constructor|eauto].
  - destruct (instanceIDs rest) as [ids|].
    + split; [intros _; constructor; [eauto|apply IH; eauto]|eauto].
    + split; [intros [? [=]]|]. intros Hall. apply Forall_cons in Hall as [_ Hall].
      apply IH in Hall as [? [=]].
  - split; [intros [? [=]]|]. intros Hall. apply Forall_cons in Hall as [[? [=]] _].
Qed.

Lemma tagMap_spec (tags : list (option string * option string)) :
  forall m,
    (is_Some (tagMap tags m)
     <-> Forall (fun kv => is_Some (fst kv) /\ is_Some (snd kv)) tags) /\
    forall m', tagMap tags m = Some m' ->
      forall key, m' !! key = match lastValue tags key with
                              | Some value => Some value
                              | None => m !! key
                              end.
Proof.
  induction tags as [|[[k|] [v|]] rest IH]; intros m; simpl.
  - split; [split; [constructor|eauto]|]. now intros m' [= <-] key.
  - destruct (IH (<[k := v]> m)) as [I1 I2]. split.
    + rewrite I1. split; [intros Hall; constructor; [simpl; eauto|exact Hall]|].
      intros Hall. now apply Forall_cons in Hall as [_ Hall].
    + intros m' Hm key. rewrite (I2 m' Hm key).
      destruct (lastValue rest key); [reflexivity|].
      destruct (decide (k = key)) as [->|Hne].
      * rewrite bool_decide_eq_true_2 by reflexivity. now rewrite lookup_insert_eq.
      * rewrite bool_decide_eq_false_2 by congruence. now rewrite lookup_insert_ne.
  - split; [|discriminate]. split; [intros [? [=]]|].
    intros Hall. apply Forall_cons in Hall as [[_ [? [=]]] _].
  - split; [|discriminate]. split; [intros [? [=]]|].
    intros Hall. apply Forall_cons in Hall as [[[? [=]] _] _].
  - split; [|discriminate]. split; [intros [? [=]]|].
    intros Hall. apply Forall_cons in Hall as [[[? [=]] _] _].
Qed.

Lemma NewAutoScalingGroup_tags (region : string) (asg : Group) (a : AutoScalingGroup) :
  NewAutoScalingGroup region asg = Some a ->
  forall key,
    Tagged (asgResource a) key = bool_decide (is_Some (lastValue (GroupTags asg) key)) /\
    Tag (asgResource a) key = default "" (lastValue (GroupTags asg) key).
Proof.
  unfold NewAutoScalingGroup. destruct (tagMap_spec (GroupTags asg) ∅) as [_ T2].
  destruct (AutoScalingGroupName asg) as [name|]; [|discriminate].
  destruct (instanceIDs (GroupInstances asg)) as [ids|]; [|discriminate].
  destruct (tagMap (GroupTags asg) ∅) as [tags|]; [|discriminate].
  intros [= <-] key. unfold Tagged, Tag. simpl.
  rewrite (T2 tags eq_refl key), lookup_empty.
  destruct (lastValue (GroupTags asg) key); split; reflexivity.
Qed.

End Construction.

(** X16. NewAutoScalingGroup panics on a nil pointer exactly when the
    description lacks the group name, an instance id, a tag key or a tag
    value.  Otherwise the group has the given region, its name as id and
    name, the instance ids in order, and the tags of the description,
    where a later tag overrides an earlier tag with the same key: Tagged
    holds for exactly the keys that occur, Tag returns the last value. *)
Theorem NewAutoScalingGroup_reads_the_description `{Collaborators} `{StatePackage} :
  forall (region : string) (asg : Group),
    (is_Some (NewAutoScalingGroup region asg) <-> wellFormedGroup asg) /\
    forall a, NewAutoScalingGroup region asg = Some a ->
      Region (asgResource a) = region /\
      Some (ID (asgResource a)) = AutoScalingGroupName asg /\
      Some (Name (asgResource a)) = AutoScalingGroupName asg /\
      map Some (Instances a) = GroupInstances asg /\
      DesiredCapacity a = GroupDesiredCapacity asg /\
      CreatedTime a = GroupCreatedTime asg /\
      matchedFilterGroups (asgResource a) = ∅ /\
      forall key,
        Tagged (asgResource a) key = bool_decide (is_Some (lastValue (GroupTags asg) key)) /\
        Tag (asgResource a) key = default "" (lastValue (GroupTags asg) key).
Proof.
  intros region asg.
  pose proof (NewAutoScalingGroup_tags region asg) as Htags.
  unfold NewAutoScalingGroup, wellFormedGroup in *.
  destruct (tagMap_spec (GroupTags asg) ∅) as [T1 _].
  pose proof (instanceIDs_Some (GroupInstances asg)) as I1.
  destruct (AutoScalingGroupName asg) as [name|].
  2:{ split; [|discriminate]. split; [intros [? [=]]|intros [[? [=]] _]]. }
  destruct (instanceIDs (GroupInstances asg)) as [ids|] eqn:Ei.
  2:{ split; [|discriminate]. split; [intros [? [=]]|].
      intros (_ & Hi & _). apply I1 in Hi as [? [=]]. }
  destruct (tagMap (GroupTags asg) ∅) as [tags|] eqn:Et.
  2:{ split; [|discriminate]. split; [intros [? [=]]|].
      intros (_ & _ & Ht). apply T1 in Ht as [? [=]]. }
  split.
  - split; [|eauto]. intros _. split; [eauto|]. split; [apply I1; eauto|apply T1; eauto].
  - intros a [= <-]. simpl. repeat split; try reflexivity.
    + clear -Ei. revert ids Ei. induction (GroupInstances asg) as [|[id|] rest IH];
        intros ids Ei; simpl in Ei; try discriminate.
      * now injection Ei as <-.
      * destruct (instanceIDs rest) as [ids'|]; [|discriminate]. injection Ei as <-.
        simpl. now rewrite (IH ids').
    + exact (proj1 (Htags _ eq_refl key)).
    + exact (proj2 (Htags _ eq_refl key)).
Qed.

(** X17. A group whose description carries the tag
    aws:cloudformation:stack-name (with any value) is created as a
    dependency inside a stack, any other group as neither; its lifecycle
    state is restored from the reaper tag when that tag is present and is
    the initial state otherwise.  Hence on a fresh group the filter
    IsDependency answers from the stack tag alone. *)
Theorem NewAutoScalingGroup_marks_stack_members `{Collaborators} `{StatePackage} :
  forall (region : string) (asg : Group) (a : AutoScalingGroup) (now : Z),
    NewAutoScalingGroup region asg = Some a ->
    let inStack := bool_decide (is_Some (lastValue (GroupTags asg) "aws:cloudformation:stack-name")) in
    Dependency (asgResource a) = inStack /\
    IsInCloudformation (asgResource a) = inStack /\
    reaperState (asgResource a)
    = match lastValue (GroupTags asg) reaperTag with
      | Some tag => NewStateWithTag tag
      | None => NewState
      end /\
    forall arg rest b, ParseBool arg = Some b ->
      AutoScalingGroup_Filter now a (NewFilter "IsDependency" (arg :: rest))
      = ([], Done (Bool.eqb inStack b)) /\
      AutoScalingGroup_Filter now a (NewFilter "InCloudformation" (arg :: rest))
      = ([], Done (Bool.eqb inStack b)).
Proof.
  intros region asg a now Ha inStack.
  pose proof (NewAutoScalingGroup_tags region asg a Ha) as Htags.
  unfold NewAutoScalingGroup in Ha.
  destruct (AutoScalingGroupName asg) as [name|]; [|discriminate].
  destruct (instanceIDs (GroupInstances asg)) as [ids|]; [|discriminate].
  destruct (tagMap (GroupTags asg) ∅) as [tags|] eqn:Et; [|discriminate].
  injection Ha as <-. simpl in *.
  assert (Hstack : Tagged (mkResource region name name tags false false NewState ∅)
                          "aws:cloudformation:stack-name" = inStack).
  { destruct (Htags "aws:cloudformation:stack-name") as [E _]. exact E. }
  rewrite Hstack. split; [reflexivity|]. split; [reflexivity|]. split.
  - destruct (Htags reaperTag) as [E1 E2].
    change (Tagged (mkResource region name name tags false false NewState ∅) reaperTag)
      with (Tagged (mkResource region name name tags
                      (Tagged (mkResource region name name tags false false NewState ∅)
                              "aws:cloudformation:stack-name")
                      (Tagged (mkResource region name name tags false false NewState ∅)
                              "aws:cloudformation:stack-name")
                      (if Tagged (mkResource region name name tags false false NewState ∅) reaperTag
                       then NewStateWithTag
                              (Tag (mkResource region name name tags false false NewState ∅) reaperTag)
                       else NewState) ∅) reaperTag).
    rewrite E1.
    change (Tag (mkResource region name name tags false false NewState ∅) reaperTag)
      with (Tag (mkResource region name name tags
                      (Tagged (mkResource region name name tags false false NewState ∅)
                              "aws:cloudformation:stack-name")
                      (Tagged (mkResource region name name tags false false NewState ∅)
                              "aws:cloudformation:stack-name")
                      (if Tagged (mkResource region name name tags false false NewState ∅) reaperTag
                       then NewStateWithTag
                              (Tag (mkResource region name name tags false false NewState ∅) reaperTag)
                       else NewState) ∅) reaperTag).
    rewrite E2. destruct (lastValue (GroupTags asg) reaperTag); reflexivity.
  - intros arg rest b Hb.
    unfold AutoScalingGroup_Filter, BoolValue, index. simpl. rewrite Hb. simpl.
    split; reflexivity.
Qed.


Lemma filtered_statistics_count_the_filtered_set_witness :
  ("reaper.instances.filtered", isInstance)
    ∈ [("reaper.instances.filtered", isInstance);
       ("reaper.asgs.filtered", isAutoScalingGroup);
       ("reaper.cloudformations.filtered", isCloudformation);
       ("reaper.securitygroups.filtered", isSecurityGroup)] /\
  exists res,
    @reap quietWorld openConfig 50 [] [instance1; volume1] = Done res /\
    exists regions,
      NoDup regions /\
      (forall region, region ∈ regions <-> 0 < countKind isInstance region (rrFiltered res)) /\
      postedUnder "reaper.instances.filtered" (rrStatistics res)
      = map (fun region => (Z.of_nat (countKind isInstance region (rrFiltered res)),
                            ["region:" +:+ region; EventTag openConfig])) regions.
Proof.
  assert (Hin : ("reaper.instances.filtered", isInstance)
    ∈ [("reaper.instances.filtered", isInstance);
       ("reaper.asgs.filtered", isAutoScalingGroup);
       ("reaper.cloudformations.filtered", isCloudformation);
       ("reaper.securitygroups.filtered", isSecurityGroup)]) by left.
  split; [exact Hin|].
  destruct (@filtered_statistics_count_the_filtered_set quietWorld openConfig 50 []
              [instance1; volume1]) as (res & Hres & Hall).
  exists res. split; [exact Hres|]. exact (Hall _ _ Hin).
Defined.

Lemma saved_states_load_back_witness :
  Forall (@savable plainStates) [instance1; volume1] /\
  NoDup (map registryKey [instance1; volume1]) /\
  (forall r, r ∈ [instance1; volume1] -> Region (resourceOf r) ∈ Regions openConfig) /\
  exists content saved,
    @SaveState plainStates "reaper.state" true (fun _ => None) [instance1; volume1]
    = ([LogEntry LInfo "States saved to %s" ["reaper.state"]], Done (Some content)) /\
    @LoadState quietWorld openConfig "reaper.state" (Some (scanLines content ""))
    = ([LogEntry LInfo "States loaded from " ["reaper.state"]], Done saved) /\
    savedAt saved "us-east-1" "vol-1" = Some (@NewStateWithTag quietWorld "first").
Proof.
  assert (H1 : Forall (@savable plainStates) [instance1; volume1])
    by (repeat constructor).
  assert (H2 : NoDup (map registryKey [instance1; volume1])).
  { apply (bool_decide_unpack _). vm_compute. exact I. }
  assert (H3 : forall r, r ∈ [instance1; volume1] ->
                         Region (resourceOf r) ∈ Regions openConfig).
  { intros r Hr. apply list_elem_of_In in Hr. simpl in Hr.
    destruct Hr as [<-|[<-|[]]]; left. }
  split; [exact H1|]. split; [exact H2|]. split; [exact H3|].
  destruct (@saved_states_load_back quietWorld plainStates openConfig "reaper.state"
              [instance1; volume1] H1 H2 H3) as (content & saved & Hsave & Hload & Hat).
  exists content, saved. split; [exact Hsave|]. split; [exact Hload|].
  apply (Hat volume1). right. left.
Defined.

Lemma NewAutoScalingGroup_reads_the_description_witness :
  wellFormedGroup stackGroup /\
  exists a,
    @NewAutoScalingGroup quietWorld plainStates "us-east-1" stackGroup = Some a /\
    ID (asgResource a) = "asg-web" /\
    Instances a = ["i-1"; "i-2"] /\
    Tagged (asgResource a) "Owner" = true /\
    Tag (asgResource a) "Owner" = "bob" /\
    Tagged (asgResource a) "Name" = false /\
    Tag (asgResource a) "Name" = "".
Proof.
  assert (Hwf : wellFormedGroup stackGroup).
  { split; [eexists; reflexivity|]. split; repeat constructor; eexists; reflexivity. }
  split; [exact Hwf|].
  destruct (@NewAutoScalingGroup_reads_the_description quietWorld plainStates "us-east-1"
              stackGroup) as [Hsome Hread].
  destruct (proj2 Hsome Hwf) as [a Ha].
  destruct (Hread a Ha) as (_ & Hid & _ & Hinst & _ & _ & _ & Htags).
  exists a. split; [exact Ha|].
  split; [injection Hid as ->; reflexivity|].
  split.
  { change (GroupInstances stackGroup) with [Some "i-1"; Some "i-2"] in Hinst.
    destruct (Instances a) as [|x [|y [|z rest]]]; try discriminate Hinst.
    now injection Hinst as -> ->. }
  split; [exact (proj1 (Htags "Owner"))|]. split; [exact (proj2 (Htags "Owner"))|].
  split; [exact (proj1 (Htags "Name"))|exact (proj2 (Htags "Name"))].
Defined.

Lemma NewAutoScalingGroup_marks_stack_members_witness :
  exists a,
    @NewAutoScalingGroup quietWorld plainStates "us-east-1" stackGroup = Some a /\
    Dependency (asgResource a) = true /\
    IsInCloudformation (asgResource a) = true /\
    reaperState (asgResource a) = @NewStateWithTag quietWorld "second" /\
    @AutoScalingGroup_Filter quietWorld 50 a (NewFilter "IsDependency" ["false"])
    = ([], Done false).
Proof.
  destruct (@NewAutoScalingGroup quietWorld plainStates "us-east-1" stackGroup) as [a|] eqn:Ha;
    [|vm_compute in Ha; discriminate].
  destruct (@NewAutoScalingGroup_marks_stack_members quietWorld plainStates "us-east-1"
              stackGroup a 50 Ha) as (Hd & Hc & Hs & Hf).
  exists a. split; [reflexivity|]. split; [exact Hd|]. split; [exact Hc|].
  split; [exact Hs|]. exact (proj1 (Hf "false" [] false eq_refl)).
Defined.

(** ** Discovery of security groups and stacks *)

Section RegionalDiscoveryProperties.
Context `{Collaborators}.
Variable config : Config.

Lemma countRegions_invariant (rs : list Resource) :
  forall sums,
    positive sums ->
    let sums' := foldl (fun sums r => incr (Region r) sums) sums rs in
    positive sums' /\
    forall region, counted sums' region = counted sums region + resourcesIn region rs.
Proof.
  induction rs as [|r rest IH]; intros sums Hp; simpl.
  - split; [exact Hp|]. intros region. unfold resourcesIn. simpl. lia.
  - destruct (IH (incr (Region r) sums)) as (P & C); [now apply positive_incr|].
    split; [exact P|]. intros region. rewrite C, counted_incr. unfold resourcesIn. simpl.
    destruct (String.eqb (Region r) region); simpl; lia.
Qed.

Lemma resourcesIn_restored savedstates (rs : list Resource) (region : string) :
  resourcesIn region (map (restoreSavedState savedstates) rs) = resourcesIn region rs.
Proof.
  unfold resourcesIn. induction rs as [|r rest IH]; [reflexivity|]. simpl.
  destruct (restoreSavedState_identity savedstates r) as [-> _].
  destruct (String.eqb (Region r) region); simpl; now rewrite IH.
Qed.

Lemma regional_totals savedstates (rs : list Resource) :
  exists regions,
    NoDup regions /\
    (forall region, region ∈ regions <-> 0 < resourcesIn region rs) /\
    forall name name',
      postedUnder name'
        (trace (postSums config name
                  (map_to_list (countRegions (map (restoreSavedState savedstates) rs)))))
      = if String.eqb name name'
        then map (fun region => (Z.of_nat (resourcesIn region rs),
                                 ["region:" +:+ region; EventTag config])) regions
        else [].
Proof.
  destruct (countRegions_invariant (map (restoreSavedState savedstates) rs) ∅) as (P & C).
  { intros r n E. rewrite lookup_empty in E. discriminate. }
  fold (countRegions (map (restoreSavedState savedstates) rs)) in P, C.
  set (m := countRegions (map (restoreSavedState savedstates) rs)) in *.
  assert (Hm : forall r n, m !! r = Some n <-> n = resourcesIn r rs /\ 0 < n).
  { intros r n. rewrite (lookup_counted m r n P), C, resourcesIn_restored.
    change (counted ∅ r) with 0. simpl. split; intros [E Hn]; split; auto. }
  exists (map fst (map_to_list m)).
  split; [apply NoDup_fst_map_to_list|]. split.
  - intros region. rewrite list_elem_of_In, in_map_iff. split.
    + intros ([r n] & <- & Hin). apply list_elem_of_In, elem_of_map_to_list, Hm in Hin as [-> Hn].
      exact Hn.
    + intros Hpos. exists (region, resourcesIn region rs). split; [reflexivity|].
      apply list_elem_of_In, elem_of_map_to_list, Hm. auto.
  - intros name name'. rewrite postSums_posted. destruct (String.eqb name name'); [|reflexivity].
    rewrite map_map. apply map_ext_in. intros [r n] Hin. simpl.
    apply list_elem_of_In, elem_of_map_to_list, Hm in Hin as [-> _]. reflexivity.
Qed.

End RegionalDiscoveryProperties.

(** X18. getSecurityGroups and getCloudformations forward every
    discovered resource once, in order, with its saved state restored,
    and post their total statistic exactly once for each region in which
    something was found, with the number found there as value; a region
    without resources gets no statistic, and nothing is posted under
    another name. *)
Theorem regional_totals_posted_once `{Collaborators} :
  forall (config : Config) (savedstates : gmap string (gmap string State))
         (rs : list Resource),
    found (getSecurityGroups config savedstates rs) = map (restoreSavedState savedstates) rs /\
    found (getCloudformations config savedstates rs) = map (restoreSavedState savedstates) rs /\
    exists regions,
      NoDup regions /\
      (forall region, region ∈ regions <-> 0 < resourcesIn region rs) /\
      let totals := map (fun region => (Z.of_nat (resourcesIn region rs),
                                        ["region:" +:+ region; EventTag config])) regions in
      forall name,
        postedUnder name (discoveryStatistics (getSecurityGroups config savedstates rs))
        = (if String.eqb "reaper.securitygroups.total" name then totals else []) /\
        postedUnder name (discoveryStatistics (getCloudformations config savedstates rs))
        = (if String.eqb "reaper.cloudformations.total" name then totals else []).
Proof.
  intros config savedstates rs. split; [reflexivity|]. split; [reflexivity|].
  destruct (regional_totals config savedstates rs) as (regions & Hnd & Hin & Hposted).
  exists regions. split; [exact Hnd|]. split; [exact Hin|].
  intros totals name. split; apply Hposted.
Qed.

(** ** Failed writes and lines that do not read back *)

Section StateFileEdges.
Context `{Collaborators} `{StatePackage}.


Lemma length_splitComma (s cur : string) : List.length (splitComma s cur) = S (commas s).
Proof.
  revert cur. induction s as [|c s IH]; intros cur; [reflexivity|].
  cbn [splitComma commas]. destruct (Ascii.eqb c ","); simpl; now rewrite IH.
Qed.

Lemma commas_append (a b : string) : commas (a +:+ b) = commas a + commas b.
Proof.
  induction a as [|x a IH]; [reflexivity|].
  rewrite append_cons_string. cbn [commas]. rewrite IH. lia.
Qed.

Lemma parsedLine_commas (text : string) : is_Some (parsedLine text) <-> commas text = 2.
Proof.
  unfold parsedLine. pose proof (length_splitComma text "") as Hlen. fold (Split text) in Hlen.
  destruct (Split text) as [|r1 [|i1 [|t1 [|? ?]]]]; simpl in Hlen;
    (split; [intros [x E]; first [discriminate E|lia]|intros E; first [lia|eauto]]).
Qed.

Lemma commas_stateLine (r : Reapable) :
  commas (stateLine r)
  = commas (Region (resourceOf r)) + commas (ID (resourceOf r))
    + commas (StateTag (reaperState (resourceOf r))) + 2.
Proof. unfold stateLine. rewrite !commas_append. simpl. lia. Qed.

End StateFileEdges.



(** X20. LoadState accepts a line exactly when it holds two commas.  So a
    resource whose region, id or serialized state contains a comma is
    written by SaveState as a line that LoadState rejects: loading a file
    of such lines logs each of them as malformed and restores no state at
    all. *)
Theorem comma_in_a_field_is_not_read_back `{Collaborators} `{StatePackage} :
  forall (config : Config) (stateFile : string) (entries : list Reapable),
    (forall text, is_Some (parsedLine text) <-> commas text = 2) /\
    (Forall (fun r => hasByte "," (Region (resourceOf r)) || hasByte "," (ID (resourceOf r))
                      || hasByte "," (StateTag (reaperState (resourceOf r))) = true) entries ->
     LoadState config stateFile (Some (map stateLine entries))
     = (map (fun r => LogEntry LError "Malformed saved state " [stateLine r]) entries
        ++ [LogEntry LInfo "States loaded from " [stateFile]],
        Done (initSavedStates (Regions config))) /\
     forall r : Resource,
       restoreSavedState (initSavedStates (Regions config)) r = r).
Proof.
  intros config stateFile entries. split; [exact parsedLine_commas|].
  intros Hall.
  assert (Hcomma : forall s, hasByte "," s = true -> 0 < commas s).
  { induction s as [|c s IH]; [discriminate|]. simpl.
    destruct (Ascii.eqb c ","); simpl; [lia|exact IH]. }
  assert (Hbad : forall r, r ∈ entries -> parsedLine (stateLine r) = None).
  { intros r Hr. rewrite Forall_forall in Hall. specialize (Hall r Hr).
    destruct (parsedLine (stateLine r)) eqn:E; [|reflexivity].
    assert (Hs : is_Some (parsedLine (stateLine r))) by (rewrite E; eauto).
    apply parsedLine_commas in Hs. rewrite commas_stateLine in Hs.
    apply orb_true_iff in Hall as [Hall|Hall]; [apply orb_true_iff in Hall as [Hall|Hall]|];
      apply Hcomma in Hall; lia. }
  split.
  - unfold LoadState. change (default [] (Some (map stateLine entries))) with (map stateLine entries).
    assert (Hrun : forall saved,
               loadLines (map stateLine entries) saved
               = (map (fun r => LogEntry LError "Malformed saved state " [stateLine r]) entries,
                  Done saved)).
    { clear Hall. induction entries as [|r rest IH]; intros saved; [reflexivity|].
      cbn [map]. rewrite loadLines_malformed by (apply Hbad; left).
      rewrite IH; [reflexivity|]. intros r' Hr'. apply Hbad. now right. }
    rewrite Hrun. reflexivity.
  - intros r. unfold restoreSavedState.
    destruct (initSavedStates (Regions config) !! Region r) as [inner|] eqn:E; [|reflexivity].
    pose proof (initSavedStates_empty (Regions config) (Region r) (ID r)) as Hempty.
    unfold savedAt in Hempty. rewrite E in Hempty. now rewrite Hempty.
Qed.

Lemma comma_in_a_field_is_not_read_back_witness :
  Forall (fun r => hasByte "," (Region (resourceOf r)) || hasByte "," (ID (resourceOf r))
                   || hasByte "," (@StateTag plainStates (reaperState (resourceOf r))) = true)
         [commaInstance] /\
  @LoadState quietWorld openConfig "reaper.state" (Some [@stateLine plainStates commaInstance])
  = ([LogEntry LError "Malformed saved state " ["us-east-1,i,1,first"];
      LogEntry LInfo "States loaded from " ["reaper.state"]],
     Done (initSavedStates (Regions openConfig))).
Proof.
  assert (H1 : Forall (fun r => hasByte "," (Region (resourceOf r))
                                || hasByte "," (ID (resourceOf r))
                                || hasByte "," (@StateTag plainStates (reaperState (resourceOf r)))
                                = true) [commaInstance]) by (repeat constructor).
  split; [exact H1|].
  exact (proj1 (proj2 (@comma_in_a_field_is_not_read_back quietWorld plainStates openConfig
                         "reaper.state" [commaInstance]) H1)).
Defined.

(** ** The template data of an autoscaling group *)

Section TemplateData.
Context `{Collaborators}.
Variables (config : Config) (http : HTTPConfig).

Lemma makeURL_snoc (h : string) (c : ascii) (action token : string) :
  makeURL http (h +:+ String c "") action token = ([], Done (linkOn http h c action token)).
Proof.
  unfold makeURL, linkOn. rewrite eqb_host_snoc, sliceFrom_last.
  unfold encodedQuery, ret, bind. simpl.
  destruct (Ascii.eqb c "/"); reflexivity.
Qed.

Lemma makeIgnoreLink_snoc (region id secret h : string) (c : ascii) (duration : Z) :
  makeIgnoreLink http region id secret (h +:+ String c "") duration
  = match Tokenize secret (NewDelayJob region id duration) with
    | (_, Some err) => ([], Done ("", Some err))
    | (delay, None) =>
        ([], Done (linkOn http h c ("delay_" +:+ DurationString duration) delay, None))
    end.
Proof.
  unfold makeIgnoreLink.
  destruct (Tokenize secret (NewDelayJob region id duration)) as [delay [err|]]; [reflexivity|].
  now rewrite makeURL_snoc.
Qed.

Lemma makeTerminateLink_snoc (region id secret h : string) (c : ascii) :
  makeTerminateLink http region id secret (h +:+ String c "")
  = match Tokenize secret (NewTerminateJob region id) with
    | (_, Some err) => ([], Done ("", Some err))
    | (term, None) => ([], Done (linkOn http h c "terminate" term, None))
    end.
Proof.
  unfold makeTerminateLink.
  destruct (Tokenize secret (NewTerminateJob region id)) as [term [err|]]; [reflexivity|].
  now rewrite makeURL_snoc.
Qed.

Lemma makeStopLink_snoc (region id secret h : string) (c : ascii) :
  makeStopLink http region id secret (h +:+ String c "")
  = match Tokenize secret (NewStopJob region id) with
    | (_, Some err) =>
        ([LogEntry LError "Error creating ScaleToZero link: " [err]], Done ("", Some err))
    | (stop, None) => ([], Done (linkOn http h c "stop" stop, None))
    end.
Proof.
  unfold makeStopLink.
  destruct (Tokenize secret (NewStopJob region id)) as [stop [err|]]; [reflexivity|].
  now rewrite makeURL_snoc.
Qed.

Lemma makeWhitelistLink_snoc (region id secret h : string) (c : ascii) :
  makeWhitelistLink http region id secret (h +:+ String c "")
  = match Tokenize secret (NewWhitelistJob region id) with
    | (_, Some err) =>
        ([LogEntry LError "Error creating whitelist link: " [err]], Done ("", Some err))
    | (whitelist, None) => ([], Done (linkOn http h c "whitelist" whitelist, None))
    end.
Proof.
  unfold makeWhitelistLink.
  destruct (Tokenize secret (NewWhitelistJob region id)) as [whitelist [err|]]; [reflexivity|].
  now rewrite makeURL_snoc.
Qed.

End TemplateData.

(** X21. With a non-empty API URL getTemplateData never panics.  It
    returns the data exactly when all six tokenizations succeed, and then
    every link is the API URL followed by the query of its own action and
    token (the three ignore links are delay_ links of 1, 3 and 7 days,
    the stop link is the scale-to-zero link).  Otherwise it returns no
    data and the error of the first tokenization that fails, in the order
    ignore 1, 3, 7 days, terminate, stop, whitelist; the later links are
    not attempted. *)
Theorem getTemplateData_needs_every_link `{Collaborators} :
  forall (config : Config) (http : HTTPConfig) (a : AutoScalingGroup) (h : string) (c : ascii),
    APIURL http = h +:+ String c "" ->
    let region := Region (asgResource a) in
    let id := ID (asgResource a) in
    let token job := fst (Tokenize (TokenSecret http) job) in
    ((forall job, job ∈ templateJobs a -> snd (Tokenize (TokenSecret http) job) = None) ->
     getTemplateData config http a
     = ([], Done (Some (mkEventData config http a
                   (linkOn http h c "terminate" (token (NewTerminateJob region id)))
                   (linkOn http h c "stop" (token (NewStopJob region id)))
                   (linkOn http h c "whitelist" (token (NewWhitelistJob region id)))
                   (linkOn http h c ("delay_" +:+ DurationString (1 * 24 * Hour))
                           (token (NewDelayJob region id (1 * 24 * Hour))))
                   (linkOn http h c ("delay_" +:+ DurationString (3 * 24 * Hour))
                           (token (NewDelayJob region id (3 * 24 * Hour))))
                   (linkOn http h c ("delay_" +:+ DurationString (7 * 24 * Hour))
                           (token (NewDelayJob region id (7 * 24 * Hour))))), None))) /\
    (forall before job after err,
        templateJobs a = before ++ job :: after ->
        (forall j, j ∈ before -> snd (Tokenize (TokenSecret http) j) = None) ->
        snd (Tokenize (TokenSecret http) job) = Some err ->
        result (getTemplateData config http a) = Done (None, Some err)).
Proof.
  intros config http a h c Hhost region id token.
  unfold getTemplateData. rewrite Hhost.
  rewrite !makeIgnoreLink_snoc, makeTerminateLink_snoc, makeStopLink_snoc,
    makeWhitelistLink_snoc.
  fold region id. subst token.
  split.
  - intros Hall.
    assert (H1 := Hall (NewDelayJob region id (1 * 24 * Hour))).
    assert (H3 := Hall (NewDelayJob region id (3 * 24 * Hour))).
    assert (H7 := Hall (NewDelayJob region id (7 * 24 * Hour))).
    assert (Ht := Hall (NewTerminateJob region id)).
    assert (Hs := Hall (NewStopJob region id)).
    assert (Hw := Hall (NewWhitelistJob region id)).
    destruct (Tokenize (TokenSecret http) (NewDelayJob region id (1 * 24 * Hour))) as [t1 e1].
    destruct (Tokenize (TokenSecret http) (NewDelayJob region id (3 * 24 * Hour))) as [t3 e3].
    destruct (Tokenize (TokenSecret http) (NewDelayJob region id (7 * 24 * Hour))) as [t7 e7].
    destruct (Tokenize (TokenSecret http) (NewTerminateJob region id)) as [tt' et].
    destruct (Tokenize (TokenSecret http) (NewStopJob region id)) as [ts es].
    destruct (Tokenize (TokenSecret http) (NewWhitelistJob region id)) as [tw ew].
    simpl in *.
    rewrite H1, H3, H7, Ht, Hs, Hw; unfold templateJobs; fold region id;
      repeat first [left | right]; try reflexivity.
  - intros before job after err Hjobs Hbefore Hjob.
    unfold templateJobs in Hjobs. fold region id in Hjobs.
    destruct (Tokenize (TokenSecret http) (NewDelayJob region id (1 * 24 * Hour)))
      as [t1 e1] eqn:E1.
    destruct (Tokenize (TokenSecret http) (NewDelayJob region id (3 * 24 * Hour)))
      as [t3 e3] eqn:E3.
    destruct (Tokenize (TokenSecret http) (NewDelayJob region id (7 * 24 * Hour)))
      as [t7 e7] eqn:E7.
    destruct (Tokenize (TokenSecret http) (NewTerminateJob region id)) as [tt' et] eqn:Et.
    destruct (Tokenize (TokenSecret http) (NewStopJob region id)) as [ts es] eqn:Es.
    destruct (Tokenize (TokenSecret http) (NewWhitelistJob region id)) as [tw ew] eqn:Ew.
    destruct before as [|b1 [|b2 [|b3 [|b4 [|b5 [|b6 rest]]]]]]; simpl in Hjobs.
    7: { exfalso. injection Hjobs as _ _ _ _ _ _ Hrest. destruct rest; discriminate. }
    all: injection Hjobs; intros; subst.
    all: repeat match goal with
                | E : Tokenize _ ?j = (_, ?e) |- _ =>
                    first
                      [ rewrite E in Hjob; simpl in Hjob; subst e
                      | let Hx := fresh "Hx" in
                        assert (Hx : snd (Tokenize (TokenSecret http) j) = None)
                          by (apply Hbefore; repeat first [left | right]);
                        rewrite E in Hx; simpl in Hx; subst e ];
                    clear E
                end.
    all: reflexivity.
Qed.

Lemma getTemplateData_needs_every_link_witness :
  APIURL reaperHTTP = "http://reape" +:+ String "r" "" /\
  (forall job, job ∈ templateJobs groupWeb ->
               snd (@Tokenize quietWorld (TokenSecret reaperHTTP) job) = None) /\
  exists data,
    @getTemplateData quietWorld openConfig reaperHTTP groupWeb = ([], Done (Some data, None)) /\
    StopLink data = "http://reaper/?" /\
    DataAutoScalingGroup data = groupWeb.
Proof.
  assert (H1 : APIURL reaperHTTP = "http://reape" +:+ String "r" "") by reflexivity.
  assert (H2 : forall job, job ∈ templateJobs groupWeb ->
                           snd (@Tokenize quietWorld (TokenSecret reaperHTTP) job) = None)
    by reflexivity.
  split; [exact H1|]. split; [exact H2|].
  eexists. split; [|split].
  - exact (proj1 (@getTemplateData_needs_every_link quietWorld openConfig reaperHTTP groupWeb
                    "http://reape" "r"%char H1) H2).
  - reflexivity.
  - reflexivity.
Defined.

(** X22. With an empty API URL getTemplateData never returns data: when
    the first tokenization (the one-day ignore link) fails it returns
    that error, and otherwise it logs that the host is empty and panics
    in makeURL before any other link is made. *)
Theorem getTemplateData_empty_api_url `{Collaborators} :
  forall (config : Config) (http : HTTPConfig) (a : AutoScalingGroup),
    APIURL http = "" ->
    getTemplateData config http a
    = match snd (Tokenize (TokenSecret http)
                   (NewDelayJob (Region (asgResource a)) (ID (asgResource a)) (1 * 24 * Hour))) with
      | Some err => ([], Done (None, Some err))
      | None => emptyHostFault
      end.
Proof.
  intros config http a Hhost. unfold getTemplateData, makeIgnoreLink at 1. rewrite Hhost.
  destruct (Tokenize (TokenSecret http)
              (NewDelayJob (Region (asgResource a)) (ID (asgResource a)) (1 * 24 * Hour)))
    as [delay [err|]]; reflexivity.
Qed.

Lemma getTemplateData_empty_api_url_witness :
  APIURL unsetHTTP = "" /\
  @getTemplateData quietWorld openConfig unsetHTTP groupWeb = emptyHostFault.
Proof.
  split; [reflexivity|].
  exact (@getTemplateData_empty_api_url quietWorld openConfig unsetHTTP groupWeb eq_refl).
Defined.


(** * The tick with the wall clock read at every call *)

Section ClockedProperties.
Context `{Collaborators}.
Variable config : Config.

(** ** At a clock that stands still *)

Lemma ApplyFiltersAt_still (now : Z) (group : FilterGroup) (f : Reapable) :
  forall i, ApplyFiltersAt (still now) i f group = ApplyFilters now f group.
Proof.
  induction group as [|[name filter] rest IH]; intros i; [reflexivity|].
  cbn [ApplyFiltersAt ApplyFilters]. unfold still at 1.
  destruct (Reapable_Filter now f filter) as [t [[|]|p]]; simpl; [|reflexivity..].
  now rewrite IH.
Qed.

Lemma matchGroupsAt_still (now : Z) (groups : list (string * FilterGroup)) :
  forall g f m, matchGroupsAt (still now) g f groups m = matchGroups now f groups m.
Proof.
  induction groups as [|[name group] rest IH]; intros g f m; [reflexivity|].
  cbn [matchGroupsAt matchGroups].
  change (inner g (still now)) with (still now). rewrite ApplyFiltersAt_still.
  destruct (ApplyFilters now f group) as [t [[|]|p]]; simpl; [| |reflexivity];
    now rewrite IH.
Qed.

Lemma filterOneAt_still (now : Z) groups (f : Reapable) :
  filterOneAt config (still now) groups f = filterOne config now groups f.
Proof. unfold filterOneAt, filterOne. now rewrite matchGroupsAt_still. Qed.

Lemma applyFiltersLoopAt_still (now : Z) (fs : list Reapable) :
  forall j wc gs,
    applyFiltersLoopAt config (still now) j fs wc gs = applyFiltersLoop config now fs wc gs.
Proof.
  induction fs as [|f rest IH]; intros j wc gs; [reflexivity|].
  cbn [applyFiltersLoopAt applyFiltersLoop].
  destruct (kindConfig config f) as [[stat groups]|]; [|reflexivity].
  change (inner j (still now)) with (still now). rewrite filterOneAt_still.
  destruct (filterOne config now groups f) as [t [[[m f'] w]|p]]; simpl; [|reflexivity].
  now rewrite IH.
Qed.

Lemma applyFiltersAt_still (now : Z) (fs : list Reapable) :
  applyFiltersAt config (still now) fs = applyFilters config now fs.
Proof. unfold applyFiltersAt, applyFilters. now rewrite applyFiltersLoopAt_still. Qed.

Lemma reapedAt_still (now : Z) (l : list Reapable) :
  forall j, reapedAt (still now) j l = map (reaped now) l.
Proof. induction l as [|f rest IH]; intros j; [reflexivity|]. simpl. now rewrite IH. Qed.

Lemma reapLoopAt_still (now : Z) (filtered : list Reapable) :
  forall j sums, reapLoopAt (still now) j filtered sums = reapLoop now filtered sums.
Proof.
  induction filtered as [|f rest IH]; intros j sums; [reflexivity|].
  destruct f; cbn [reapLoopAt reapLoop]; unfold still at 1; now rewrite IH.
Qed.


(** ** One call of applyFilters *)

Lemma applyFiltersAt_total (clock : Clock) (fs : list Reapable) :
  exists t out, applyFiltersAt config clock fs = (t, Done out).
Proof.
  unfold applyFiltersAt, recovered.
  destruct (applyFiltersLoopAt config clock 0 fs ∅ []) as [t [out|p]]; eauto.
Qed.

Lemma matchGroupsAt_same (clock : Clock) (groups : list (string * FilterGroup)) :
  forall g f m t r x,
    matchGroupsAt clock g f groups m = (t, Done (r, x)) -> sameResource f x.
Proof.
  induction groups as [|[name group] rest IH]; intros g f m t r x Hrun.
  - injection Hrun as _ _ <-. reflexivity.
  - cbn [matchGroupsAt] in Hrun.
    apply bind_Done in Hrun as (t1 & didMatch & t2 & _ & Hrest & _).
    destruct didMatch.
    + eapply sameResource_trans; [apply sameResource_AddFilterGroup|].
      eapply IH; exact Hrest.
    + eapply IH; exact Hrest.
Qed.

Lemma filterOneAt_same_resource (clock : Clock) groups (f x : Reapable) t m w :
  filterOneAt config clock groups f = (t, Done (m, x, w)) -> sameResource f x.
Proof.
  unfold filterOneAt. intros Hrun.
  apply bind_Done in Hrun as (t1 & [m0 x0] & t' & Hm & Hrun & _).
  apply bind_Done in Hrun as (t2 & w0 & t3 & _ & Hret & _).
  simpl in Hret. injection Hret as _ _ <- _.
  eapply matchGroupsAt_same; exact Hm.
Qed.

(** What a call keeps left a turn of its loop as a match. *)
Lemma applyFiltersLoopAt_kept (clock : Clock) (fs : list Reapable) :
  forall j wc gs t out,
    applyFiltersLoopAt config clock j fs wc gs = (t, Done out) ->
    forall x, x ∈ out ->
      x ∈ gs \/
      exists c f stat groups t' w,
        kindConfig config f = Some (stat, groups) /\
        filterOneAt config c groups f = (t', Done (true, x, w)).
Proof.
  induction fs as [|f rest IH]; intros j wc gs t out Hrun x Hx.
  - cbn [applyFiltersLoopAt] in Hrun.
    apply bind_Done in Hrun as (t1 & [] & t2 & _ & Hret & _).
    injection Hret as _ <-. now left.
  - cbn [applyFiltersLoopAt] in Hrun.
    destruct (kindConfig config f) as [[stat groups]|] eqn:Ek.
    + apply bind_Done in Hrun as (t1 & [[matched f'] w] & t2 & Hone & Hrest & _).
      destruct (IH _ _ _ _ _ Hrest x Hx) as [Hgs|Hk]; [|now right].
      destruct matched; [|now left].
      apply elem_of_app in Hgs as [Hgs|Hgs]; [now left|].
      apply list_elem_of_singleton in Hgs as ->.
      right. exists (inner j clock), f, stat, groups, t1, w. auto.
    + apply bind_Done in Hrun as (t1 & [] & t2 & _ & Hret & _).
      injection Hret as _ <-. inversion Hx.
Qed.

Lemma applyFiltersAt_kept (clock : Clock) (fs : list Reapable) out x :
  result (applyFiltersAt config clock fs) = Done out -> x ∈ out ->
  exists c f stat groups t' w,
    kindConfig config f = Some (stat, groups) /\
    filterOneAt config c groups f = (t', Done (true, x, w)).
Proof.
  unfold applyFiltersAt, recovered.
  destruct (applyFiltersLoopAt config clock 0 fs ∅ []) as [t0 [out0|p]] eqn:E; simpl.
  - intros [= <-] Hx.
    destruct (applyFiltersLoopAt_kept clock fs _ _ _ _ _ E x Hx) as [Hgs|Hk];
      [inversion Hgs|exact Hk].
  - intros [= <-] Hx. inversion Hx.
Qed.

(** A resource on which the loop body panics ends the call: nothing is
    returned. *)
Lemma applyFiltersLoopAt_fault (clock : Clock) (pre : list Reapable) (f : Reapable)
    (post : list Reapable) stat groups p :
  kindConfig config f = Some (stat, groups) ->
  forall j wc gs,
    result (filterOneAt config (inner (j + List.length pre) clock) groups f) = Panicked p ->
    result (applyFiltersLoopAt config clock j (pre ++ f :: post) wc gs) = Done [] \/
    exists p', result (applyFiltersLoopAt config clock j (pre ++ f :: post) wc gs) = Panicked p'.
Proof.
  intros Hk. induction pre as [|g rest IH]; intros j wc gs Hp.
  - simpl in Hp. rewrite Nat.add_0_r in Hp. cbn [app applyFiltersLoopAt]. rewrite Hk.
    right. exists p. now apply result_bind_Panicked.
  - cbn [app applyFiltersLoopAt].
    destruct (kindConfig config g) as [[stat' groups']|] eqn:Eg; [|left; reflexivity].
    destruct (filterOneAt config (inner j clock) groups' g) as [t1 [[[m g'] w]|q]] eqn:Eone.
    + rewrite result_bind_Done with (a := (m, g', w)) by reflexivity.
      apply IH. simpl in Hp. now rewrite Nat.add_succ_comm.
    + right. exists q. now apply result_bind_Panicked.
Qed.

(** When every turn before the faulting one runs to its end, the loop
    stops at the fault: what follows is not looked at. *)
Lemma applyFiltersLoopAt_first_fault (clock : Clock) (pre : list Reapable) (f : Reapable)
    stat groups p :
  kindConfig config f = Some (stat, groups) ->
  forall j,
    EvaluatesFrom config clock j pre ->
    result (filterOneAt config (inner (j + List.length pre) clock) groups f) = Panicked p ->
    exists t0, forall post wc gs,
      applyFiltersLoopAt config clock j (pre ++ f :: post) wc gs = (t0, Panicked p).
Proof.
  intros Hk. induction pre as [|g rest IH]; intros j Hev Hp.
  - simpl in Hp. rewrite Nat.add_0_r in Hp.
    destruct (filterOneAt config (inner j clock) groups f) as [t1 r] eqn:Eone.
    simpl in Hp. subst r. exists t1. intros post wc gs.
    cbn [app applyFiltersLoopAt]. rewrite Hk, Eone. reflexivity.
  - destruct Hev as [(stat' & groups' & t1 & [[m g'] w] & Hg & Hone) Hev].
    destruct (IH (S j) Hev) as (t0 & Ht0); [simpl in Hp; now rewrite Nat.add_succ_comm|].
    exists (t1 ++ t0). intros post wc gs.
    cbn [app applyFiltersLoopAt]. rewrite Hg, Hone. unfold bind at 1. cbn iota beta.
    now rewrite Ht0.
Qed.

(** On a slice where every turn runs to its end the call returns all the
    resources it matched. *)
Lemma applyFiltersLoopAt_complete (clock : Clock) (fs : list Reapable) :
  forall j,
    EvaluatesFrom config clock j fs ->
    forall wc gs,
      exists t out,
        applyFiltersLoopAt config clock j fs wc gs = (t, Done out) /\
        (forall x, x ∈ gs -> x ∈ out) /\
        (forall i f stat groups t' x w,
            fs !! i = Some f -> kindConfig config f = Some (stat, groups) ->
            filterOneAt config (inner (j + i) clock) groups f = (t', Done (true, x, w)) ->
            x ∈ out).
Proof.
  induction fs as [|f rest IH]; intros j Hev wc gs.
  - cbn [applyFiltersLoopAt].
    pose proof (emitWhitelisted_Done config (map_to_list wc)) as He.
    destruct (emitWhitelisted config (map_to_list wc)) as [te re]. simpl in He. subst re.
    exists (te ++ []), gs. split; [reflexivity|]. split; [auto|].
    intros i ? ? ? ? ? ? Hin. discriminate.
  - destruct Hev as [(stat & groups & t1 & [[m f'] w] & Hk & Hone) Hev].
    cbn [applyFiltersLoopAt]. rewrite Hk, Hone. unfold bind at 1.
    destruct (IH (S j) Hev (if w then incr stat wc else wc) (if m then gs ++ [f'] else gs))
      as (t2 & out & -> & Hgs & Hrest).
    exists (t1 ++ t2), out. split; [reflexivity|]. split.
    + intros x Hx. apply Hgs. destruct m; [apply elem_of_app; now left|exact Hx].
    + intros i g stat' groups' t' x w' Hin Hk' Hone'.
      destruct i as [|i].
      * injection Hin as <-. rewrite Nat.add_0_r in Hone'.
        rewrite Hk in Hk'. injection Hk' as <- <-. rewrite Hone in Hone'.
        injection Hone' as _ -> -> _. apply Hgs. apply elem_of_app. right. left.
      * rewrite <- Nat.add_succ_comm in Hone'. eapply Hrest; [exact Hin|exact Hk'|exact Hone'].
Qed.


(** ** Filters that do not read the clock *)

Lemma Filter_Tagged_any_reading (now1 now2 : Z) (x : Reapable) (key : string) :
  Reapable_Filter now1 x (NewFilter "Tagged" [key])
  = Reapable_Filter now2 x (NewFilter "Tagged" [key]).
Proof. destruct x; reflexivity. Qed.

Lemma ApplyFiltersAt_any_reading (now : Z) (group : FilterGroup) (f : Reapable) :
  (forall name filter now1 now2,
      (name, filter) ∈ group ->
      Reapable_Filter now1 f filter = Reapable_Filter now2 f filter) ->
  forall clock i, ApplyFiltersAt clock i f group = ApplyFilters now f group.
Proof.
  induction group as [|[name filter] rest IH]; intros Hfree clock i; [reflexivity|].
  cbn [ApplyFiltersAt ApplyFilters].
  rewrite (Hfree name filter (clock [i]) now) by left.
  destruct (Reapable_Filter now f filter) as [t [[|]|p]]; simpl; [|reflexivity..].
  rewrite IH; [reflexivity|]. intros n' f' now1 now2 Hin. apply (Hfree n'). now right.
Qed.

Lemma matchGroupsAt_any_reading (now : Z) (f0 : Reapable)
    (groups : list (string * FilterGroup)) :
  (forall g name filter f' now1 now2,
      g ∈ groups -> (name, filter) ∈ snd g -> sameResource f0 f' ->
      Reapable_Filter now1 f' filter = Reapable_Filter now2 f' filter) ->
  forall clock g f m,
    sameResource f0 f ->
    matchGroupsAt clock g f groups m = matchGroups now f groups m.
Proof.
  induction groups as [|[name group] rest IH]; intros Hfree clock g f m Hs; [reflexivity|].
  cbn [matchGroupsAt matchGroups].
  rewrite (ApplyFiltersAt_any_reading now group f).
  2:{ intros n' f' now1 now2 Hin. apply (Hfree (name, group) n'); [left|exact Hin|exact Hs]. }
  assert (Hrest : forall g' name' filter f' now1 now2,
             g' ∈ rest -> (name', filter) ∈ snd g' -> sameResource f0 f' ->
             Reapable_Filter now1 f' filter = Reapable_Filter now2 f' filter).
  { intros g' name' filter f' now1 now2 Hin. apply Hfree. now right. }
  destruct (ApplyFilters now f group) as [t [[|]|p]]; simpl; [| |reflexivity].
  - rewrite (IH Hrest); [reflexivity|].
    eapply sameResource_trans; [exact Hs|apply sameResource_AddFilterGroup].
  - now rewrite (IH Hrest).
Qed.

Lemma filterOneAt_any_reading (now : Z) (clock : Clock) (f0 f : Reapable) stat groups :
  ClockFree config f0 -> kindConfig config f0 = Some (stat, groups) -> sameResource f0 f ->
  filterOneAt config clock groups f = filterOne config now groups f.
Proof.
  intros Hfree Hk Hs. unfold filterOneAt, filterOne.
  rewrite (matchGroupsAt_any_reading now f0 groups (Hfree stat groups Hk)) by exact Hs.
  destruct (matchGroups now f groups _) as [t [[m x]|p]]; [|reflexivity].
  unfold bind at 1 3. cbn [snd fst].
  now rewrite (Filter_Tagged_any_reading (clock []) now x).
Qed.

(** ** The loop over the owners *)

Lemma setBucketAt_elem owner bucket (m : list (string * (nat * list Reapable))) o b :
  (o, b) ∈ setBucketAt owner bucket m -> (o = owner /\ b = bucket) \/ (o, b) ∈ m.
Proof.
  induction m as [|[o' b'] rest IH]; simpl; intros Hin.
  - apply list_elem_of_singleton in Hin. injection Hin as -> ->. now left.
  - destruct (String.eqb o' owner) eqn:E.
    + apply String.eqb_eq in E as ->.
      apply elem_of_cons in Hin as [Hin|Hin]; [injection Hin as -> ->; now left|].
      right. now right.
    + apply elem_of_cons in Hin as [Hin|Hin]; [right; rewrite Hin; left|].
      destruct (IH Hin) as [Hnew|Hm]; [now left|right; now right].
Qed.

Lemma setBucketAt_self owner bucket (m : list (string * (nat * list Reapable))) :
  (owner, bucket) ∈ setBucketAt owner bucket m.
Proof.
  induction m as [|[o' b'] rest IH]; simpl; [left|].
  destruct (String.eqb o' owner) eqn:E; [apply String.eqb_eq in E as ->; left|now right].
Qed.

Lemma setBucketAt_other owner bucket (m : list (string * (nat * list Reapable))) o b :
  o <> owner -> (o, b) ∈ m -> (o, b) ∈ setBucketAt owner bucket m.
Proof.
  intros Hne. induction m as [|[o' b'] rest IH]; simpl; intros Hin; [inversion Hin|].
  destruct (String.eqb o' owner) eqn:E.
  - apply String.eqb_eq in E as ->.
    apply elem_of_cons in Hin as [Hin|Hin]; [injection Hin as -> _; now elim Hne|now right].
  - apply elem_of_cons in Hin as [Hin|Hin]; [rewrite Hin; left|right; now apply IH].
Qed.

Lemma setBucketAt_withoutPositions owner off rs (m : list (string * (nat * list Reapable))) :
  map (fun b => (fst b, snd (snd b))) (setBucketAt owner (off, rs) m)
  = setBucket owner rs (map (fun b => (fst b, snd (snd b))) m).
Proof.
  induction m as [|[o' [off' b']] rest IH]; [reflexivity|]. simpl.
  destruct (String.eqb o' owner); simpl; [reflexivity|now rewrite IH].
Qed.

(** What the loop over the owners leaves behind: every call hands its
    own result on, a result of one resource to the unowned list, any
    other to the filtered list and to the bucket of its owner. *)
Lemma filterOwnedAt_run (clock : Clock) (owned : list (string * list Reapable)) :
  forall k acc,
    exists t pass,
      filterOwnedAt config clock k owned acc = (t, Done pass) /\
      (forall x, x ∈ atUnowned acc -> x ∈ atUnowned pass) /\
      (forall x, x ∈ atFiltered acc -> x ∈ atFiltered pass) /\
      (forall i owner bucket out,
          owned !! i = Some (owner, bucket) ->
          result (applyFiltersAt config (inner (k + i) clock) bucket) = Done out ->
          if Nat.eqb (List.length out) 1
          then forall x, x ∈ out -> x ∈ atUnowned pass
          else (forall x, x ∈ out -> x ∈ atFiltered pass) /\
               (owner ∉ map fst (drop (S i) owned) ->
                exists off, (owner, (off, out)) ∈ atFilteredOwned pass)) /\
      (forall o off b,
          (o, (off, b)) ∈ atFilteredOwned pass ->
          (o, (off, b)) ∈ atFilteredOwned acc \/
          (List.length b <> 1 /\
           exists i bucket,
             owned !! i = Some (o, bucket) /\
             result (applyFiltersAt config (inner (k + i) clock) bucket) = Done b)).
Proof.
  induction owned as [|[owner ownerMap] rest IH]; intros k acc.
  - exists [], acc. split; [reflexivity|]. split; [auto|]. split; [auto|].
    split; [intros i ? ? ? Hin; discriminate|]. intros o off b Hin. now left.
  - cbn [filterOwnedAt].
    destruct (applyFiltersAt_total (inner k clock) ownerMap) as (t1 & resources & Ha).
    rewrite Ha.
    destruct (Nat.eqb (List.length resources) 1) eqn:El.
    + destruct (IH (S k) (mkOwnedPassAt (atUnowned acc ++ resources) (atFiltered acc)
                                        (atFilteredOwned acc)))
        as (t2 & pass & Hrun & P1 & P2 & P3 & P4).
      exists (t1 ++ t2), pass. unfold bind. rewrite El, Hrun.
      split; [reflexivity|]. split.
      { intros x Hx. apply P1. simpl. apply elem_of_app. now left. }
      split; [exact P2|]. split.
      * intros i owner' bucket out Hin Hout. destruct i as [|i].
        { injection Hin as <- <-. rewrite Nat.add_0_r, Ha in Hout. injection Hout as <-.
          rewrite El. intros x Hx. apply P1. simpl. apply elem_of_app. now right. }
        rewrite <- Nat.add_succ_comm in Hout. exact (P3 i owner' bucket out Hin Hout).
      * intros o off b Hin. destruct (P4 o off b Hin) as [Hacc|(Hlen & i & bucket & Hi & Hr)];
          [now left|].
        right. split; [exact Hlen|]. exists (S i), bucket. split; [exact Hi|].
        now rewrite <- Nat.add_succ_comm.
    + destruct (IH (S k) (mkOwnedPassAt (atUnowned acc) (atFiltered acc ++ resources)
                            (setBucketAt owner (List.length (atFiltered acc), resources)
                                         (atFilteredOwned acc))))
        as (t2 & pass & Hrun & P1 & P2 & P3 & P4).
      exists (t1 ++ t2), pass. unfold bind. rewrite El, Hrun.
      split; [reflexivity|]. split; [exact P1|]. split.
      { intros x Hx. apply P2. simpl. apply elem_of_app. now left. }
      split.
      * intros i owner' bucket out Hin Hout. destruct i as [|i].
        { injection Hin as <- <-. rewrite Nat.add_0_r, Ha in Hout. injection Hout as <-.
          rewrite El. split.
          - intros x Hx. apply P2. simpl. apply elem_of_app. now right.
          - intros Hlater. simpl in Hlater.
            assert (Hkeep : forall l k' acc' t' pass',
                       owner ∉ map fst l ->
                       filterOwnedAt config clock k' l acc' = (t', Done pass') ->
                       forall b, (owner, b) ∈ atFilteredOwned acc' ->
                                 (owner, b) ∈ atFilteredOwned pass').
            { clear. induction l as [|[o m] l IHl]; intros k' acc' t' pass' Hno Hrun' b Hb.
              - injection Hrun' as _ <-. exact Hb.
              - cbn [filterOwnedAt] in Hrun'.
                apply bind_Done in Hrun' as (ta & res & tb & _ & Hrun' & _).
                apply not_elem_of_cons in Hno as [Hne Hno]. simpl in Hne.
                destruct (Nat.eqb (List.length res) 1).
                + eapply IHl; [exact Hno|exact Hrun'|exact Hb].
                + eapply IHl; [exact Hno|exact Hrun'|]. simpl.
                  apply setBucketAt_other; [exact Hne|exact Hb]. }
            exists (List.length (atFiltered acc)).
            eapply Hkeep; [exact Hlater|exact Hrun|]. simpl. apply setBucketAt_self. }
        rewrite <- Nat.add_succ_comm in Hout. exact (P3 i owner' bucket out Hin Hout).
      * intros o off b Hin. destruct (P4 o off b Hin) as [Hacc|(Hlen & i & bucket & Hi & Hr)].
        { simpl in Hacc. apply setBucketAt_elem in Hacc as [[-> Hb]|Hacc]; [|now left].
          injection Hb as -> ->. right. split.
          - intros E. rewrite E in El. discriminate.
          - exists 0, ownerMap. split; [reflexivity|]. now rewrite Nat.add_0_r, Ha. }
        right. split; [exact Hlen|]. exists (S i), bucket. split; [exact Hi|].
        now rewrite <- Nat.add_succ_comm.
Qed.

(** At a clock that stands still the loop over the owners is the loop of
    the engine above. *)
Lemma filterOwnedAt_still (now : Z) (owned : list (string * list Reapable)) :
  forall k acc,
    exists t pass,
      filterOwnedAt config (still now) k owned acc = (t, Done pass) /\
      filterOwned config now owned (withoutPositions acc) = (t, Done (withoutPositions pass)).
Proof.
  induction owned as [|[owner ownerMap] rest IH]; intros k acc.
  - exists [], acc. split; reflexivity.
  - cbn [filterOwnedAt filterOwned].
    change (inner k (still now)) with (still now). rewrite applyFiltersAt_still.
    destruct (applyFilters_total config now ownerMap) as (t1 & resources & ->).
    unfold bind at 1 2. cbn iota beta.
    destruct (Nat.eqb (List.length resources) 1).
    + destruct (IH (S k) (mkOwnedPassAt (atUnowned acc ++ resources) (atFiltered acc)
                                        (atFilteredOwned acc))) as (t2 & pass & -> & Hf).
      unfold withoutPositions in Hf at 1. simpl in Hf.
      unfold withoutPositions at 1. simpl. rewrite Hf.
      exists (t1 ++ t2), pass. split; reflexivity.
    + destruct (IH (S k) (mkOwnedPassAt (atUnowned acc) (atFiltered acc ++ resources)
                            (setBucketAt owner (List.length (atFiltered acc), resources)
                                         (atFilteredOwned acc)))) as (t2 & pass & -> & Hf).
      unfold withoutPositions in Hf at 1. simpl in Hf.
      rewrite setBucketAt_withoutPositions in Hf.
      unfold withoutPositions at 1. simpl. rewrite Hf.
      exists (t1 ++ t2), pass. split; reflexivity.
Qed.


(** ** The reap loop and the tick *)

Lemma reapLoopAt_total (clock : Clock) (filtered : list Reapable) :
  forall j sums, exists t sums', reapLoopAt clock j filtered sums = (t, Done sums').
Proof.
  induction filtered as [|f rest IH]; intros j sums; [simpl; eauto|].
  destruct f; cbn [reapLoopAt];
    match goal with
    | |- context [reapLoopAt clock (S j) rest ?s] => destruct (IH (S j) s) as (t & s' & ->)
    end; simpl; eauto.
Qed.

Lemma length_reapedAt (clock : Clock) (l : list Reapable) :
  forall j, List.length (reapedAt clock j l) = List.length l.
Proof. induction l as [|f rest IH]; intros j; [reflexivity|]. simpl. now rewrite IH. Qed.

Lemma reapedAt_elem (clock : Clock) (l : list Reapable) (x : Reapable) :
  forall j, x ∈ l -> exists now, reaped now x ∈ reapedAt clock j l.
Proof.
  induction l as [|f rest IH]; intros j Hx; [inversion Hx|].
  apply elem_of_cons in Hx as [->|Hx].
  - exists (clock [j]). left.
  - destruct (IH (S j) Hx) as (now & Hin). exists now. now right.
Qed.

(** The shape of one tick: it always completes, and its result is built
    from the calls of the three passes. *)
Lemma reapAt_run (clock : Clock) (owned : list (string * list Reapable))
    (unowned : list Reapable) :
  exists t1 pass t2 filteredUnowned sums tloop,
    filterOwnedAt config (inner 0 clock) 0 owned (mkOwnedPassAt unowned [] [])
    = (t1, Done pass) /\
    applyFiltersAt config (inner 1 clock) (atUnowned pass) = (t2, Done filteredUnowned) /\
    reapAt config clock owned unowned
    = Done (mkReapResult (atUnowned pass) (atFiltered pass ++ filteredUnowned)
              (map (fun b => (fst b, snd (snd b))) (atFilteredOwned pass))
              filteredUnowned sums tloop
              (trace (dispatchOwned config
                        (map (fun b => (fst b, reapedAt (inner 2 clock) (fst (snd b))
                                                        (snd (snd b))))
                             (atFilteredOwned pass)))
               ++ trace (dispatchUnowned config
                           (reapedAt (inner 2 clock) (List.length (atFiltered pass))
                                     filteredUnowned)))
              (trace (postStatistics config sums))).
Proof.
  destruct (filterOwnedAt_run (inner 0 clock) owned 0 (mkOwnedPassAt unowned [] []))
    as (t1 & pass & Hpass & _).
  destruct (applyFiltersAt_total (inner 1 clock) (atUnowned pass)) as (t2 & fu & Hfu).
  destruct (reapLoopAt_total (inner 2 clock) (atFiltered pass ++ fu) 0 noSums)
    as (t3 & sums & Hloop).
  exists t1, pass, t2, fu, sums, (t1 ++ t2 ++ t3).
  split; [exact Hpass|]. split; [exact Hfu|].
  unfold reapAt. rewrite Hpass. unfold bind at 1. rewrite Hfu. unfold bind at 1.
  rewrite Hloop. unfold bind at 1. simpl.
  f_equal. f_equal; [now rewrite app_nil_r|].
  destruct (dispatchOwned_run config
              (map (fun b => (fst b, reapedAt (inner 2 clock) (fst (snd b)) (snd (snd b))))
                   (atFilteredOwned pass))) as (Hd & _).
  destruct (dispatchOwned config _) as [td rd] eqn:Ed. simpl in Hd. subst rd.
  unfold trace, bind. simpl.
  now destruct (dispatchUnowned config _).
Qed.

(** At a clock that stands still the tick is the tick of the engine
    above. *)
Lemma reapAt_still (now : Z) (owned : list (string * list Reapable))
    (unowned : list Reapable) :
  reapAt config (still now) owned unowned = reap config now owned unowned.
Proof.
  destruct (filterOwnedAt_still now owned 0 (mkOwnedPassAt unowned [] []))
    as (t1 & pass & Hat & Hfrozen).
  unfold reapAt, reap.
  change (inner 0 (still now)) with (still now).
  change (inner 1 (still now)) with (still now).
  change (inner 2 (still now)) with (still now).
  rewrite Hat. change (withoutPositions (mkOwnedPassAt unowned [] []))
    with (mkOwnedPass unowned [] []) in Hfrozen. rewrite Hfrozen.
  unfold bind at 1 5. cbn iota beta.
  rewrite applyFiltersAt_still.
  change (passUnowned (withoutPositions pass)) with (atUnowned pass).
  destruct (applyFilters config now (atUnowned pass)) as [t2 [fu|p]]; [|reflexivity].
  unfold bind at 1 4. cbn iota beta.
  rewrite reapLoopAt_still.
  change (passFiltered (withoutPositions pass)) with (atFiltered pass).
  destruct (reapLoop now (atFiltered pass ++ fu) noSums) as [t3 [sums|p]]; [|reflexivity].
  simpl. rewrite reapedAt_still, map_map.
  assert (Hseen : map (fun b : string * (nat * list Reapable) =>
                         (fst b, reapedAt (still now) (fst (snd b)) (snd (snd b))))
                      (atFilteredOwned pass)
                  = map (fun x : string * (nat * list Reapable) =>
                           (fst (fst x, snd (snd x)), map (reaped now) (snd (fst x, snd (snd x)))))
                        (atFilteredOwned pass)).
  { apply map_ext. intros [o [off b]]. simpl. now rewrite reapedAt_still. }
  now rewrite Hseen.
Qed.


Lemma owner_not_later (owned : list (string * list Reapable)) (i : nat) owner bucket :
  NoDup (map fst owned) -> owned !! i = Some (owner, bucket) ->
  owner ∉ map fst (drop (S i) owned).
Proof.
  intros Hnd Hi. rewrite <- (take_drop_middle owned i (owner, bucket) Hi) in Hnd.
  rewrite map_app in Hnd. apply NoDup_app in Hnd as (_ & _ & Hnd).
  simpl in Hnd. apply NoDup_cons in Hnd as [Hno _]. exact Hno.
Qed.

Lemma owner_position (owned : list (string * list Reapable)) (i k : nat) owner b1 b2 :
  NoDup (map fst owned) ->
  owned !! i = Some (owner, b1) -> owned !! k = Some (owner, b2) -> i = k /\ b1 = b2.
Proof.
  intros Hnd Hi Hk.
  assert (E : i = k).
  { eapply NoDup_lookup; [exact Hnd| |]; rewrite list_lookup_fmap.
    - now rewrite Hi.
    - now rewrite Hk. }
  subst k. rewrite Hi in Hk. now injection Hk.
Qed.

(** Every applyFilters call of a tick hands on its own result, and the
    events of the tick are built from these results. *)
Lemma reapAt_calls (clock : Clock) (owned : list (string * list Reapable))
    (unowned : list Reapable) :
  exists res,
    reapAt config clock owned unowned = Done res /\
    result (applyFiltersAt config (inner 1 clock) (rrUnowned res))
    = Done (rrFilteredUnowned res) /\
    (forall x, x ∈ unowned -> x ∈ rrUnowned res) /\
    (forall k owner bucket out,
        owned !! k = Some (owner, bucket) ->
        result (applyFiltersAt config (inner k (inner 0 clock)) bucket) = Done out ->
        if Nat.eqb (List.length out) 1
        then forall x, x ∈ out -> x ∈ rrUnowned res
        else (forall x, x ∈ out -> x ∈ rrFiltered res) /\
             (NoDup (map fst owned) -> (owner, out) ∈ rrFilteredOwned res)) /\
    (forall o b, (o, b) ∈ rrFilteredOwned res ->
        List.length b <> 1 /\
        exists i bucket,
          owned !! i = Some (o, bucket) /\
          result (applyFiltersAt config (inner i (inner 0 clock)) bucket) = Done b) /\
    (forall rs tags, BatchReapableEvent rs tags ∈ rrDispatch res -> 2 <= List.length rs) /\
    individualsOf (rrDispatch res)
    = map (fun x => (x, [EventTag config]))
          (reapedAt (inner 2 clock)
             (List.length (rrFiltered res) - List.length (rrFilteredUnowned res))
             (rrFilteredUnowned res)) /\
    (forall x, x ∈ rrFilteredUnowned res ->
        exists now, ReapableEvent (reaped now x) [EventTag config] ∈ rrDispatch res).
Proof.
  destruct (reapAt_run clock owned unowned)
    as (t1 & pass & t2 & fu & sums & tloop & Hpass & Hfu & ->).
  destruct (filterOwnedAt_run (inner 0 clock) owned 0 (mkOwnedPassAt unowned [] []))
    as (t1' & pass' & Hpass' & P1 & _ & P3 & P4).
  rewrite Hpass in Hpass'. injection Hpass' as <- <-.
  eexists. split; [reflexivity|].
  cbn [rrUnowned rrFiltered rrFilteredOwned rrFilteredUnowned rrDispatch].
  set (seen := map (fun b : string * (nat * list Reapable) =>
                      (fst b, reapedAt (inner 2 clock) (fst (snd b)) (snd (snd b))))
                   (atFilteredOwned pass)).
  set (left := reapedAt (inner 2 clock) (List.length (atFiltered pass)) fu).
  destruct (dispatchOwned_run config seen) as (_ & B1 & _).
  destruct (dispatchUnowned_run config left) as (_ & _ & U2 & U3).
  split; [now rewrite Hfu|]. split; [exact P1|]. split; [|split; [|split; [|split]]].
  - intros k owner bucket out Hk Hout. specialize (P3 k owner bucket out Hk Hout).
    destruct (Nat.eqb (List.length out) 1); [exact P3|].
    destruct P3 as [Hin Hbucket]. split.
    + intros x Hx. apply elem_of_app. left. now apply Hin.
    + intros Hnd. destruct (Hbucket (owner_not_later owned k owner bucket Hnd Hk)) as (off & Hb).
      apply list_elem_of_In, in_map_iff. exists (owner, (off, out)).
      split; [reflexivity|]. now apply list_elem_of_In.
  - intros o b Hin. apply list_elem_of_In, in_map_iff in Hin as ([o' [off b']] & E & Hin).
    simpl in E. injection E as -> ->. apply list_elem_of_In in Hin.
    destruct (P4 o off b Hin) as [Hacc|Hnew]; [inversion Hacc|exact Hnew].
  - intros rs tags Hin. apply elem_of_app in Hin as [Hin|Hin]; [|now apply U2 in Hin].
    destruct (B1 _ _ Hin) as (Hlen & o & Ho).
    apply list_elem_of_In, in_map_iff in Ho as ([o' [off b]] & E & Ho).
    simpl in E. injection E as _ <-. apply list_elem_of_In in Ho.
    rewrite length_reapedAt in *.
    destruct (P4 o' off b Ho) as [Hacc|[Hne _]]; [inversion Hacc|]. lia.
  - rewrite individualsOf_app.
    destruct (dispatchOwned_events config seen) as [_ ->].
    destruct (dispatchUnowned_events config left) as [_ ->].
    rewrite length_app. replace (List.length (atFiltered pass) + List.length fu
                                 - List.length fu) with (List.length (atFiltered pass)) by lia.
    reflexivity.
  - intros x Hx. destruct (reapedAt_elem (inner 2 clock) fu x (List.length (atFiltered pass)) Hx)
      as (now & Hin).
    exists now. apply elem_of_app. right. now apply U3.
Qed.

(** Only AutoScalingGroup.Filter reads the clock in this model: the
    filters of every other kind are clock-free. *)
Lemma ClockFree_other_kinds (f : Reapable) :
  isAutoScalingGroup f = false -> ClockFree config f.
Proof.
  intros Hf stat groups _ g name filter f' now1 now2 _ _ Hs.
  unfold sameResource in Hs.
  destruct f, f'; try discriminate; reflexivity.
Qed.

End ClockedProperties.

(** C3 (amended). A panic raised while a filter is evaluated against one
    resource empties the whole applyFilters call: the call returns the
    empty result, so no resource of the batch is kept, wherever it
    stands.  When the turns before the faulting resource run to their
    end, the panic is recovered at the end of the call and logged, and
    the call is the same whatever follows that resource: the resources
    after it are not evaluated.  The panic is not fatal: a tick always
    completes, and every applyFilters call of a tick hands on its own
    result, a result of one resource to the unowned list, any other to
    the filtered set and to the bucket of its owner, whatever another
    call of the tick did. *)
Theorem filter_panic_empties_batch `{Collaborators} :
  forall (config : Config) (clock : Clock) (pre : list Reapable) (f : Reapable)
         (post : list Reapable) stat groups p,
    kindConfig config f = Some (stat, groups) ->
    result (filterOneAt config (inner (List.length pre) clock) groups f) = Panicked p ->
    (exists t, applyFiltersAt config clock (pre ++ f :: post) = (t, Done [])) /\
    (EvaluatesFrom config clock 0 pre ->
     exists t0, forall post',
       applyFiltersAt config clock (pre ++ f :: post')
       = (t0 ++ [LogEntry LError "Recovered in applyFilters with panic: " [panicText p]],
          Done [])) /\
    (forall (tick : Clock) owned unowned,
        exists res,
          reapAt config tick owned unowned = Done res /\
          result (applyFiltersAt config (inner 1 tick) (rrUnowned res))
          = Done (rrFilteredUnowned res) /\
          (forall x, x ∈ unowned -> x ∈ rrUnowned res) /\
          (forall k owner bucket out,
              owned !! k = Some (owner, bucket) ->
              result (applyFiltersAt config (inner k (inner 0 tick)) bucket) = Done out ->
              if Nat.eqb (List.length out) 1
              then forall x, x ∈ out -> x ∈ rrUnowned res
              else (forall x, x ∈ out -> x ∈ rrFiltered res) /\
                   (NoDup (map fst owned) -> (owner, out) ∈ rrFilteredOwned res))).
Proof.
  intros config clock pre f post stat groups p Hk Hp. split; [|split].
  - unfold applyFiltersAt, recovered.
    destruct (applyFiltersLoopAt_fault config clock pre f post stat groups p Hk 0 ∅ [] Hp)
      as [Hd|(p' & Hd)];
      destruct (applyFiltersLoopAt config clock 0 (pre ++ f :: post) ∅ []) as [t o];
      simpl in Hd; subst o; eauto.
  - intros Hev.
    destruct (applyFiltersLoopAt_first_fault config clock pre f stat groups p Hk 0 Hev Hp)
      as (t0 & Ht0).
    exists t0. intros post'. unfold applyFiltersAt. now rewrite Ht0.
  - intros tick owned unowned.
    destruct (reapAt_calls config tick owned unowned) as (res & Hres & A & B & C & _).
    exists res. auto.
Qed.

(** C6 (amended). When applyFilters leaves exactly one resource of an
    owner's bucket, that resource is appended to the unowned list and no
    bucket is recorded for its owner; no batch event ever carries fewer
    than two resources.  The resource is then filtered again with the
    unowned list, by a call that reads the clock anew, and the individual
    events of the tick are exactly the resources that call keeps.  It
    keeps the resource when every turn of its loop runs to its end (no
    unknown kind, no panic) and the filters of the resource's kind do not
    read the clock; when the call panics it is recovered with the empty
    result and no individual event is sent at all. *)
Theorem single_survivor_goes_individual `{Collaborators} :
  forall (config : Config) (clock : Clock) owned unowned,
    exists res,
      reapAt config clock owned unowned = Done res /\
      (forall k owner bucket r,
          owned !! k = Some (owner, bucket) ->
          result (applyFiltersAt config (inner k (inner 0 clock)) bucket) = Done [r] ->
          r ∈ rrUnowned res /\
          (NoDup (map fst owned) -> owner ∉ map fst (rrFilteredOwned res)) /\
          (FiltersIgnoreGroups -> ClockFree config r ->
           EvaluatesFrom config (inner 1 clock) 0 (rrUnowned res) ->
           exists r' now,
             sameResource r r' /\ r' ∈ rrFilteredUnowned res /\
             ReapableEvent (reaped now r') [EventTag config] ∈ rrDispatch res)) /\
      (forall rs tags, BatchReapableEvent rs tags ∈ rrDispatch res -> 2 <= List.length rs) /\
      result (applyFiltersAt config (inner 1 clock) (rrUnowned res))
      = Done (rrFilteredUnowned res) /\
      individualsOf (rrDispatch res)
      = map (fun x => (x, [EventTag config]))
            (reapedAt (inner 2 clock)
               (List.length (rrFiltered res) - List.length (rrFilteredUnowned res))
               (rrFilteredUnowned res)) /\
      (forall p,
          result (applyFiltersLoopAt config (inner 1 clock) 0 (rrUnowned res) ∅ []) = Panicked p ->
          rrFilteredUnowned res = [] /\ individualsOf (rrDispatch res) = []).
Proof.
  intros config clock owned unowned.
  destruct (reapAt_calls config clock owned unowned)
    as (res & Hres & A & _ & C & G & Hbatch & Hind & Hsent).
  exists res. split; [exact Hres|]. split; [|split; [exact Hbatch|split; [exact A|split]]].
  - intros k owner bucket r Hk Hone.
    pose proof (C k owner bucket [r] Hk Hone) as Hr. simpl in Hr.
    assert (Hin : r ∈ rrUnowned res) by (apply Hr; left).
    split; [exact Hin|]. split.
    + intros Hnd Ho. apply list_elem_of_In, in_map_iff in Ho as ([o b] & E & Ho).
      simpl in E. subst o. apply list_elem_of_In in Ho.
      destruct (G owner b Ho) as (Hlen & i & bucket' & Hi & Hb).
      destruct (owner_position owned i k owner bucket' bucket Hnd Hi Hk) as [-> ->].
      rewrite Hone in Hb. injection Hb as <-. now elim Hlen.
    + intros Hign Hfree Hev.
      destruct (applyFiltersAt_kept config _ _ _ r Hone) as (c & f & stat & groups & t & w & Hf & Hkept);
        [left|].
      pose proof (filterOneAt_same_resource config c groups f r t true w Hkept) as Hsame.
      assert (Hkr : kindConfig config r = Some (stat, groups)).
      { rewrite <- Hf. symmetry. now apply sameResource_kindConfig. }
      assert (Hrf : sameResource r f) by (symmetry; exact Hsame).
      rewrite (filterOneAt_any_reading config 0 c r f stat groups Hfree Hkr Hrf) in Hkept.
      destruct (filterOne_same config 0 groups f r r t true w Hign Hsame Hkept)
        as (r' & Hr' & Hrr').
      apply list_elem_of_lookup in Hin as (j & Hj).
      destruct (applyFiltersLoopAt_complete config (inner 1 clock) (rrUnowned res) 0 Hev ∅ [])
        as (tl & out & Hloop & _ & Hall).
      assert (Hout : r' ∈ out).
      { eapply (Hall j r stat groups t r' w Hj Hkr).
        rewrite (filterOneAt_any_reading config 0 _ r r stat groups Hfree Hkr); [exact Hr'|].
        reflexivity. }
      unfold applyFiltersAt, recovered in A. rewrite Hloop in A. simpl in A.
      injection A as A. rewrite <- A.
      destruct (Hsent r') as (now & Hevent); [now rewrite <- A|].
      exists r', now. split; [exact Hrr'|]. split; [exact Hout|exact Hevent].
  - exact Hind.
  - intros p Hp. unfold applyFiltersAt, recovered in A.
    destruct (applyFiltersLoopAt config (inner 1 clock) 0 (rrUnowned res) ∅ []) as [t o].
    simpl in Hp. subst o. simpl in A. injection A as A.
    split; [now symmetry|]. rewrite Hind, <- A. reflexivity.
Qed.

(** ** Scenarios of the clocked tick *)

(** C3 (counterexample). Two stacks and, between them, an
    AutoScalingGroup; the AutoScalingGroup filter group holds a Tagged
    filter without argument: the index panics, and the recovered call
    returns nothing, the stack before the fault included, while the two
    stacks alone are both kept. *)
Lemma one_panic_loses_the_whole_batch :
  result (@filterOneAt quietWorld brokenConfig (inner 1 passClock)
            (FilterGroups (cfgAutoScalingGroups brokenConfig)) (asgPlain "asg-2"))
  = Panicked (IndexOutOfRange 0 0) /\
  result (@applyFiltersAt quietWorld brokenConfig passClock [stackA; stackB])
  = Done [stackA; stackB] /\
  @applyFiltersAt quietWorld brokenConfig passClock [stackA; asgPlain "asg-2"; stackB]
  = ([LogEntry LError "Recovered in applyFilters with panic: "
        ["runtime error: index out of range"]], Done []).
Proof. repeat split; vm_compute; reflexivity. Qed.

(** C6 (counterexample). alice@example.com owns one stack, which matches;
    the unowned list holds an AutoScalingGroup on which the filter group
    panics.  The stack is moved to the unowned list, the second call is
    recovered empty, and no event at all is dispatched for the stack. *)
Lemma single_survivor_lost_with_unowned_batch :
  result (@applyFiltersAt quietWorld brokenConfig (inner 0 (inner 0 passClock)) [stackA])
  = Done [stackA] /\
  exists res,
    @reapAt quietWorld brokenConfig passClock
       [("alice@example.com", [stackA])] [asgPlain "asg-2"]
    = Done res /\
    ids (rrUnowned res) = ["asg-2"; "stack-a"] /\
    rrFilteredUnowned res = [] /\
    rrDispatch res = [].
Proof.
  split; [vm_compute; reflexivity|]. eexists. split; [reflexivity|].
  repeat split; vm_compute; reflexivity.
Qed.

(** The clock alone can lose the survivor: a group 3599 old matches
    "younger than an hour" in the call on its owner's bucket and is moved
    to the unowned list; the call on that list reads the clock two
    seconds later, every turn of it runs to its end, and the group, now
    3601 old, is dropped without any event. *)
Lemma single_survivor_dropped_at_a_later_reading :
  ids (match result (@applyFiltersAt hourWorld youngConfig (inner 0 (inner 0 passClock))
                       [asgYoung]) with
       | Done out => out
       | Panicked _ => []
       end) = ["asg-young"] /\
  exists res,
    @reapAt hourWorld youngConfig passClock [("alice@example.com", [asgYoung])] [] = Done res /\
    ids (rrUnowned res) = ["asg-young"] /\
    @EvaluatesFrom hourWorld youngConfig (inner 1 passClock) 0 (rrUnowned res) /\
    rrFilteredOwned res = [] /\
    rrFilteredUnowned res = [] /\
    rrDispatch res = [].
Proof.
  split; [vm_compute; reflexivity|]. eexists. split; [reflexivity|].
  split; [vm_compute; reflexivity|]. split.
  { split; [|exact I]. eexists _, _, _, _. split; reflexivity. }
  repeat split; vm_compute; reflexivity.
Qed.

(** ** The amended theorems at concrete inputs *)

Lemma filter_panic_empties_batch_witness :
  kindConfig brokenConfig (asgPlain "asg-2")
  = Some ("reaper.asgs.whitelistedCount", FilterGroups (cfgAutoScalingGroups brokenConfig)) /\
  result (@filterOneAt quietWorld brokenConfig (inner (List.length [stackA]) passClock)
            (FilterGroups (cfgAutoScalingGroups brokenConfig)) (asgPlain "asg-2"))
  = Panicked (IndexOutOfRange 0 0) /\
  @EvaluatesFrom quietWorld brokenConfig passClock 0 [stackA] /\
  (exists t, @applyFiltersAt quietWorld brokenConfig passClock
               ([stackA] ++ asgPlain "asg-2" :: [stackB]) = (t, Done [])) /\
  (exists t0, forall post',
      @applyFiltersAt quietWorld brokenConfig passClock ([stackA] ++ asgPlain "asg-2" :: post')
      = (t0 ++ [LogEntry LError "Recovered in applyFilters with panic: "
                  [panicText (IndexOutOfRange 0 0)]], Done [])).
Proof.
  assert (H2 : kindConfig brokenConfig (asgPlain "asg-2")
               = Some ("reaper.asgs.whitelistedCount",
                       FilterGroups (cfgAutoScalingGroups brokenConfig))) by reflexivity.
  assert (H3 : result (@filterOneAt quietWorld brokenConfig (inner (List.length [stackA]) passClock)
                         (FilterGroups (cfgAutoScalingGroups brokenConfig)) (asgPlain "asg-2"))
               = Panicked (IndexOutOfRange 0 0)) by reflexivity.
  assert (H4 : @EvaluatesFrom quietWorld brokenConfig passClock 0 [stackA]).
  { split; [|exact I]. eexists _, _, _, _. split; reflexivity. }
  split; [exact H2|]. split; [exact H3|]. split; [exact H4|].
  destruct (@filter_panic_empties_batch quietWorld brokenConfig passClock [stackA]
              (asgPlain "asg-2") [stackB] _ _ _ H2 H3) as (Hempty & Hlog & _).
  split; [exact Hempty|exact (Hlog H4)].
Defined.

Lemma single_survivor_goes_individual_witness :
  exists res,
    @reapAt quietWorld openConfig passClock [("alice@example.com", [stackA])] [instance1]
    = Done res /\
    ids (rrUnowned res) = ["i-999"; "stack-a"] /\
    @FiltersIgnoreGroups quietWorld /\
    @ClockFree quietWorld openConfig stackA /\
    @EvaluatesFrom quietWorld openConfig (inner 1 passClock) 0 (rrUnowned res) /\
    exists r' now,
      sameResource stackA r' /\ r' ∈ rrFilteredUnowned res /\
      ReapableEvent (@reaped quietWorld now r') [EventTag openConfig] ∈ rrDispatch res.
Proof.
  destruct (@single_survivor_goes_individual quietWorld openConfig passClock
              [("alice@example.com", [stackA])] [instance1]) as (res & Hres & Hone & _).
  destruct (Hone 0 "alice@example.com" [stackA] stackA eq_refl eq_refl) as (_ & _ & Hkept).
  exists res. split; [exact Hres|].
  vm_compute in Hres. injection Hres as <-.
  assert (Hfree : @ClockFree quietWorld openConfig stackA)
    by (apply ClockFree_other_kinds; reflexivity).
  assert (Hev : @EvaluatesFrom quietWorld openConfig (inner 1 passClock) 0 [instance1; stackA]).
  { split; [|split; [|exact I]]; eexists _, _, _, _; split; reflexivity. }
  split; [reflexivity|]. split; [exact quietWorld_FiltersIgnoreGroups|].
  split; [exact Hfree|]. split; [exact Hev|].
  exact (Hkept quietWorld_FiltersIgnoreGroups Hfree Hev).
Defined.
